(** * Terminal trivia game: a shallow embedding of the C sources

    The development follows the layout of the repository:
    - [CInt]       the machine integers of the C code ([int], wrap-around);
    - [Utils]      utils.c  (reading a line, input sanitising, integer
                   validation);
    - [Questions]  questions.c / questions.h (record parser, loaders, bank,
                   random selection);
    - [Timer]      timer.c / timer.h (the countdown and its thread);
    - [Game]       game.c / game.h (scoring, rounds, turns, final report,
                   cleanup);
    - [Main]       main.c (menu, number of players, player names).

    Definitions come first, each one next to the name of the C function it
    transcribes; the properties proved about them follow. *)

From Stdlib Require Import ZArith Lia Bool Ascii String List DecimalString.
From stdpp Require Import base tactics option list.

Open Scope Z_scope.

(* ===================================================================== *)
(** * Part I: the embedding                                               *)
(* ===================================================================== *)

(** ** Machine integers

    [int] is 32 bits wide.  Values are kept in [Z]; every arithmetic
    operation that could leave the range is followed by [wrap]. *)
Module CInt.

Definition INT_MIN : Z := - 2 ^ 31.
Definition INT_MAX : Z := 2 ^ 31 - 1.
Definition LONG_MIN : Z := - 2 ^ 63.
Definition LONG_MAX : Z := 2 ^ 63 - 1.

Definition in_int (z : Z) : Prop := INT_MIN <= z <= INT_MAX.

Definition wrap (z : Z) : Z := (z + 2 ^ 31) mod 2 ^ 32 - 2 ^ 31.

Definition add (a b : Z) : Z := wrap (a + b).
Definition mul (a b : Z) : Z := wrap (a * b).
(** [a / b] of C: the quotient truncated toward zero. *)
Definition div (a b : Z) : Z := wrap (Z.quot a b).
(** [a % b] of C: the remainder has the sign of the dividend. *)
Definition rem (a b : Z) : Z := wrap (Z.rem a b).

End CInt.

(** ** C strings

    A C string is modelled by the [string] of its characters before the
    terminating NUL; a pointer into it is the suffix it points at. *)
Module CString.

Definition isspace (c : ascii) : bool :=
  match c with
  | " "%char | "009"%char | "010"%char | "011"%char | "012"%char
  | "013"%char => true
  | _ => false
  end.

Definition isdigit (c : ascii) : bool :=
  ((48 <=? Z.of_nat (nat_of_ascii c)) && (Z.of_nat (nat_of_ascii c) <=? 57))%bool.

Definition digit_value (c : ascii) : Z := Z.of_nat (nat_of_ascii c) - 48.

(** The bytes of a buffer up to, and without, its first NUL. *)
Fixpoint c_str (s : string) : string :=
  match s with
  | EmptyString => EmptyString
  | String c s' => if Ascii.eqb c "000"%char then EmptyString
                   else String c (c_str s')
  end.

(** [strncpy(dst, src, n); dst[n] = 0]: at most [n] characters. *)
Fixpoint strncpy (n : nat) (s : string) : string :=
  match n, s with
  | S n', String c s' => String c (strncpy n' s')
  | _, _ => EmptyString
  end.

(** [strchr(s, c)]: the suffix that starts at the first [c], if any. *)
Fixpoint strchr (s : string) (c : ascii) : option string :=
  match s with
  | EmptyString => None
  | String a s' => if Ascii.eqb a c then Some s else strchr s' c
  end.

(** The characters of [s] before the first [c] (all of [s] if none):
    what [*end = 0] leaves visible from [s] when [end = strchr(s, c)]. *)
Fixpoint before (s : string) (c : ascii) : string :=
  match s with
  | EmptyString => EmptyString
  | String a s' => if Ascii.eqb a c then EmptyString
                   else String a (before s' c)
  end.

(** [strncmp(s, lit, strlen(lit)) == 0]. *)
Definition starts_with (lit s : string) : bool := String.prefix lit s.

(** [strstr(s, needle)]: the suffix at the first occurrence. *)
Fixpoint strstr (s needle : string) : option string :=
  if starts_with needle s then Some s
  else match s with
       | EmptyString => None
       | String _ s' => strstr s' needle
       end.

Fixpoint skip_space (s : string) : string :=
  match s with
  | String c s' => if isspace c then skip_space s' else s
  | EmptyString => EmptyString
  end.

Fixpoint digits (acc : Z) (s : string) : Z * string :=
  match s with
  | String c s' =>
      if isdigit c then digits (acc * 10 + digit_value c) s' else (acc, s)
  | EmptyString => (acc, EmptyString)
  end.

Definition clamp_long (z : Z) : Z :=
  Z.max CInt.LONG_MIN (Z.min CInt.LONG_MAX z).

(** [strtol(s, &endptr, 10)] with a 64-bit [long]: leading white space,
    an optional sign, decimal digits; the value saturates; without a
    digit nothing is converted and [endptr] is [s] itself. *)
Definition strtol (s : string) : Z * string :=
  let s1 := skip_space s in
  let '(neg, s2) :=
    match s1 with
    | String "-"%char r => (true, r)
    | String "+"%char r => (false, r)
    | _ => (false, s1)
    end in
  match s2 with
  | String c _ =>
      if isdigit c then
        let '(v, rest) := digits 0 s2 in
        (clamp_long (if neg then - v else v), rest)
      else (0, s)
  | EmptyString => (0, s)
  end.

(** The double quote character, and a literal between double quotes
    (the C literals of the scanner: a key with its quotes). *)
Definition dquote : ascii := "034"%char.
Definition quoted (s : string) : string :=
  String dquote (s ++ String dquote EmptyString).

(** [atoi(s)] is [(int) strtol(s, NULL, 10)]. *)
Definition atoi (s : string) : Z := CInt.wrap (fst (strtol s)).

(** [fgets(buf, n, stream)] on a stream that holds [stream]: the characters
    stored, at most [k = n - 1] of them, up to and with the first newline,
    and what is left of the stream. *)
Fixpoint fgets_chars (k : nat) (stream : string) : string * string :=
  match k, stream with
  | S k', String c r =>
      if Ascii.eqb c "010"%char then (String c EmptyString, r)
      else let '(l, rest) := fgets_chars k' r in (String c l, rest)
  | _, _ => (EmptyString, stream)
  end.

(** [None] is the result NULL: [n] leaves no room, or the stream is at its
    end.  With [n = 1] nothing is read and the buffer holds the empty
    string. *)
Definition fgets (n : Z) (stream : string) : option (string * string) :=
  if n <=? 0 then None
  else if n =? 1 then Some (EmptyString, stream)
  else match stream with
       | EmptyString => None
       | String _ _ => Some (fgets_chars (Z.to_nat (n - 1)) stream)
       end.

End CString.

(** ** utils.c *)
Module Utils.
Import CString.

Definition MAX_INPUT_LEN : Z := 256.

(** The trailing loop of [sanitize_input]: white space is cut from the
    end for as long as the last character is white space. *)
Fixpoint trim_end (s : string) : string :=
  match s with
  | EmptyString => EmptyString
  | String c s' =>
      match trim_end s' with
      | EmptyString => if isspace c then EmptyString
                       else String c EmptyString
      | r => String c r
      end
  end.

(** [sanitize_input]: the string is moved over its leading white space,
    then cut at its trailing white space. *)
Definition sanitize_input (str : string) : string :=
  trim_end (skip_space str).

(** [is_valid_integer(str, &value)]: [Some value] for the result 1. *)
Definition is_valid_integer (str : string) : option Z :=
  if (String.length str =? 0)%nat then None
  else
    let '(num, endptr) := strtol str in
    match endptr with
    | String _ _ => None
    | EmptyString =>
        if (num <? CInt.INT_MIN) || (num >? CInt.INT_MAX) then None
        else Some num
    end.

(** [enum UtilsError]. *)
Inductive UtilsError : Type :=
| UTILS_SUCCESS
| UTILS_ERROR_NULL_POINTER
| UTILS_ERROR_INVALID_INPUT
| UTILS_ERROR_BUFFER_OVERFLOW
| UTILS_ERROR_IO_FAILED.

(** [if (len > 0 && buffer[len - 1] == '\n') buffer[len - 1] = '\0']. *)
Fixpoint chop_newline (s : string) : string :=
  match s with
  | EmptyString => EmptyString
  | String c EmptyString =>
      if Ascii.eqb c "010"%char then EmptyString else s
  | String c r => String c (chop_newline r)
  end.

(** [read_input(buffer, size)] with [stdin] still to be read; [buffer]
    tells whether the pointer is not NULL.  The result is the error code,
    the string the buffer holds on success, and what is left to read. *)
Definition read_input (buffer : bool) (size : Z) (stdin : string)
    : UtilsError * option string * string :=
  if negb buffer then (UTILS_ERROR_NULL_POINTER, None, stdin)
  else if size =? 0 then (UTILS_ERROR_INVALID_INPUT, None, stdin)
  else
    match fgets (CInt.wrap size) stdin with
    | None => (UTILS_ERROR_IO_FAILED, None, stdin)
    | Some (chars, rest) =>
        (UTILS_SUCCESS, Some (chop_newline (c_str chars)), rest)
    end.

(** [wait_for_enter]: [while (getchar() != '\n');] with [stdin] still to
    be read.  At the end of the input [getchar] returns [EOF] for ever and
    the loop does not end: [None]. *)
Fixpoint wait_for_enter (stdin : string) : option string :=
  match stdin with
  | EmptyString => None
  | String c r => if Ascii.eqb c "010"%char then Some r else wait_for_enter r
  end.

End Utils.

(** ** questions.h and questions.c *)
Module Questions.
Import CString.

Definition MAX_QUESTION_LEN : Z := 512.
Definition MAX_ANSWER_LEN : Z := 256.
Definition MAX_OPTIONS : Z := 4.

(** [enum Difficulty]: an [int] in C; the configuration also stores
    [-1] in a field of this type to mean "any". *)
Definition Difficulty : Type := Z.
Definition DIFFICULTY_EASY : Difficulty := 0.
Definition DIFFICULTY_MEDIUM : Difficulty := 1.
Definition DIFFICULTY_HARD : Difficulty := 2.
Definition DIFFICULTY_COUNT : Difficulty := 3.

Definition Category : Type := Z.
Definition CATEGORY_GENERAL : Category := 0.

(** [struct Question].  [options] holds the slots the parser filled, in
    order; the C array has [MAX_OPTIONS] slots and the parser leaves the
    others as they were. *)
Record Question : Type := mkQuestion {
  question : string;
  options : list string;
  correct_answer : Z;
  difficulty : Difficulty;
  category : Category
}.

(** [struct QuestionBank]; [count] is the length of [questions]. *)
Record QuestionBank : Type := mkBank {
  questions : list Question;
  capacity : Z
}.

Definition count (bank : QuestionBank) : Z :=
  Z.of_nat (length (questions bank)).

(** [p + 1] for a pointer [p] into a string. *)
Definition next (p : string) : string :=
  match p with
  | String _ r => r
  | EmptyString => EmptyString
  end.

(** The [while (opt_idx < MAX_OPTIONS)] loop of [parse_json_question];
    [fuel] is [MAX_OPTIONS - opt_idx], the result the slots filled. *)
Fixpoint parse_options (fuel : nat) (opt_start : string) : list string :=
  match fuel with
  | O => []
  | S fuel' =>
      match strchr opt_start dquote with
      | None => []
      | Some p =>
          let opt_begin := next p in
          match strchr opt_begin dquote with
          | None => []
          | Some opt_end =>
              let o := strncpy (Z.to_nat (MAX_ANSWER_LEN - 1))
                               (before opt_begin dquote) in
              let opt_start' := next opt_end in
              match opt_start' with
              | String "]"%char _ => [o]
              | _ => o :: parse_options fuel' opt_start'
              end
          end
      end
  end.

(** The last block of [parse_json_question]: the difficulty field. *)
Definition parse_difficulty (line : string) : Difficulty :=
  match strstr line (quoted "difficulty") with
  | None => DIFFICULTY_EASY
  | Some diff_start =>
      match strchr diff_start ":"%char with
      | None => DIFFICULTY_EASY
      | Some diff_start =>
          match strchr diff_start dquote with
          | None => DIFFICULTY_EASY
          | Some diff_start =>
              let diff_start := next diff_start in
              if starts_with "easy"%string diff_start then DIFFICULTY_EASY
              else if starts_with "medium"%string diff_start then DIFFICULTY_MEDIUM
              else if starts_with "hard"%string diff_start then DIFFICULTY_HARD
              else DIFFICULTY_EASY
          end
      end
  end.

(** The local buffer [line] of [parse_json_question]. *)
Definition local_line (json_line : string) : string :=
  strncpy 1023 json_line.

(** [parse_json_question]: [Some q] for the result 0, [None] for -1. *)
Definition parse_json_question (json_line : string) : option Question :=
  let line := local_line json_line in
  q_start ← strstr line (quoted "question");
  q_start ← strchr q_start ":"%char;
  q_start ← strchr q_start dquote;
  let q_start := next q_start in
  _ ← strchr q_start dquote;
  let q_text := strncpy (Z.to_nat (MAX_QUESTION_LEN - 1))
                        (before q_start dquote) in
  opt_start ← strstr line (quoted "options");
  opt_start ← strchr opt_start "["%char;
  let opt_start := next opt_start in
  let opts := parse_options (Z.to_nat MAX_OPTIONS) opt_start in
  let opt_idx := Z.of_nat (length opts) in
  corr_start ← strstr line (quoted "correct");
  corr_start ← strchr corr_start ":"%char;
  let corr_start := skip_space (next corr_start) in
  let correct := atoi corr_start in
  if (correct <? 0) || (correct >=? opt_idx) then None
  else
    Some {| question := q_text;
            options := opts;
            correct_answer := correct;
            difficulty := parse_difficulty line;
            category := CATEGORY_GENERAL |}.

(** [question_bank_init] (allocation succeeds). *)
Definition question_bank_init : QuestionBank :=
  {| questions := []; capacity := 10 |}.

(** [question_bank_add] (reallocation succeeds): the capacity doubles
    when the bank is full, the question is stored at index [count]. *)
Definition question_bank_add (bank : QuestionBank) (q : Question)
    : QuestionBank :=
  let capacity' := if count bank >=? capacity bank
                   then capacity bank * 2 else capacity bank in
  {| questions := questions bank ++ [q]; capacity := capacity' |}.

(** The locals of [question_bank_load_from_json] (the loader that reads
    the file character by character and follows the braces) together with
    the bank; [buffer] is [buffer[0 .. buffer_pos)]. *)
Record LoadState : Type := mkLoad {
  buffer : string;
  loaded : Z;
  in_object : bool;
  brace_count : Z;
  bank : QuestionBank
}.

Definition buffer_pos (st : LoadState) : Z :=
  Z.of_nat (String.length (buffer st)).

(** One turn of the [while ((c = fgetc(file)) != EOF)] loop. *)
Definition load_char (st : LoadState) (c : ascii) : LoadState :=
  if buffer_pos st >=? 8192 - 1 then
    {| buffer := EmptyString; loaded := loaded st; in_object := false;
       brace_count := 0; bank := bank st |}
  else
    let buf := (buffer st ++ String c EmptyString)%string in
    if Ascii.eqb c "{"%char then
      if negb (in_object st) then
        {| buffer := "{"%string; loaded := loaded st; in_object := true;
           brace_count := 1; bank := bank st |}
      else
        {| buffer := buf; loaded := loaded st; in_object := true;
           brace_count := CInt.add (brace_count st) 1; bank := bank st |}
    else if Ascii.eqb c "}"%char then
      let braces := CInt.add (brace_count st) (-1) in
      if in_object st && (braces =? 0) then
        match parse_json_question (c_str buf) with
        | Some q =>
            {| buffer := EmptyString; loaded := CInt.add (loaded st) 1;
               in_object := false; brace_count := 0;
               bank := question_bank_add (bank st) q |}
        | None =>
            {| buffer := EmptyString; loaded := loaded st;
               in_object := false; brace_count := 0; bank := bank st |}
        end
      else
        {| buffer := buf; loaded := loaded st; in_object := in_object st;
           brace_count := braces; bank := bank st |}
    else
      {| buffer := buf; loaded := loaded st; in_object := in_object st;
         brace_count := brace_count st; bank := bank st |}.

Fixpoint load_chars (st : LoadState) (file : string) : LoadState :=
  match file with
  | EmptyString => st
  | String c rest => load_chars (load_char st c) rest
  end.

Definition load_start (b : QuestionBank) : LoadState :=
  {| buffer := EmptyString; loaded := 0; in_object := false; brace_count := 0;
     bank := b |}.

(** [question_bank_load_from_json]; [file] is the content of the file,
    [None] when it cannot be opened.  Returns the bank and the result. *)
Definition question_bank_load_from_json
    (b : QuestionBank) (file : option string) : QuestionBank * Z :=
  match file with
  | None => (b, -1)
  | Some content =>
      let st := load_chars (load_start b) content in
      (bank st, loaded st)
  end.

(** The indices [i] with [questions[i].difficulty == difficulty]. *)
Fixpoint valid_indices_from (i : Z) (qs : list Question)
    (d : Difficulty) : list Z :=
  match qs with
  | [] => []
  | q :: qs' =>
      if difficulty q =? d then i :: valid_indices_from (i + 1) qs' d
      else valid_indices_from (i + 1) qs' d
  end.

(** [question_bank_get_random]; [r] is the value [rand()] returns. *)
Definition question_bank_get_random
    (b : QuestionBank) (d : Z) (r : Z) : option Question :=
  if count b =? 0 then None
  else if (d >=? 0) && (d <? DIFFICULTY_COUNT) then
    let valid_indices := valid_indices_from 0 (questions b) d in
    let valid_count := Z.of_nat (length valid_indices) in
    if valid_count =? 0 then None
    else
      let random_idx := CInt.rem r valid_count in
      actual_idx ← valid_indices !! Z.to_nat random_idx;
      questions b !! Z.to_nat actual_idx
  else
    let valid_count := CInt.wrap (count b) in
    let random_idx := CInt.rem r valid_count in
    questions b !! Z.to_nat random_idx.

(** [(size_t)used_count]: the conversion of an [int] to a 64-bit
    unsigned integer. *)
Definition to_size_t (z : Z) : Z := z mod 2 ^ 64.

(** [used_questions == NULL || i >= (size_t)used_count ||
    !used_questions[i]], from left to right; [used] holds the entries of
    the array [used_questions], [None] standing for NULL.  The outer
    [None] of the result is a read behind the last entry. *)
Definition is_unused (used : option (list bool)) (used_count : Z) (i : Z)
    : option bool :=
  match used with
  | None => Some true
  | Some entries =>
      if i >=? to_size_t used_count then Some true
      else u ← entries !! Z.to_nat i; Some (negb u)
  end.

(** The two loops of [question_bank_get_random_unused] that fill
    [valid_indices]: with a difficulty to match ([Some d]) and
    without. *)
Fixpoint unused_indices_from (i : Z) (qs : list Question)
    (d : option Difficulty) (used : option (list bool)) (used_count : Z)
    : option (list Z) :=
  match qs with
  | [] => Some []
  | q :: qs' =>
      keep ← (match d with
              | Some d' =>
                  if difficulty q =? d' then is_unused used used_count i
                  else Some false
              | None => is_unused used used_count i
              end);
      rest ← unused_indices_from (i + 1) qs' d used used_count;
      Some (if keep : bool then i :: rest else rest)
  end.

(** [question_bank_get_random_unused]; [r] is the value [rand()]
    returns.  The outer [None] is a read behind the end of
    [used_questions], the inner one the result NULL. *)
Definition question_bank_get_random_unused
    (b : QuestionBank) (d : Z) (used : option (list bool)) (used_count : Z)
    (r : Z) : option (option Question) :=
  if count b =? 0 then Some None
  else
    let wanted := if (d >=? 0) && (d <? DIFFICULTY_COUNT)
                  then Some d else None in
    valid_indices ← unused_indices_from 0 (questions b) wanted
                      used used_count;
    let valid_count := Z.of_nat (length valid_indices) in
    if valid_count =? 0 then Some None
    else
      let random_idx := CInt.rem r valid_count in
      Some (actual_idx ← valid_indices !! Z.to_nat random_idx;
            questions b !! Z.to_nat actual_idx).

(** *** The loader that reads the file line by line

    questions.c holds a second listing of [question_bank_load_from_json],
    which reads the file with [fgets] into [char line[2048]]. *)

(** [line[0] == '\n' || line[0] == '#']. *)
Definition skipped_line (line : string) : bool :=
  match line with
  | String c _ => Ascii.eqb c "010"%char || Ascii.eqb c "#"%char
  | EmptyString => false
  end.

(** [p != NULL] for the result [p] of a search. *)
Definition found (p : option string) : bool :=
  match p with
  | Some _ => true
  | None => false
  end.

(** The [while (fgets(line, sizeof(line), file) != NULL)] loop, with
    [stream] the part of the file still to be read; [fuel] bounds the
    number of lines read. *)
Fixpoint load_lines (fuel : nat) (stream : string) (in_array : bool)
    (loaded : Z) (b : QuestionBank) : QuestionBank * Z :=
  match fuel with
  | O => (b, loaded)
  | S fuel' =>
      match fgets 2048 stream with
      | None => (b, loaded)
      | Some (chars, rest) =>
          let line := c_str chars in
          if skipped_line line then load_lines fuel' rest in_array loaded b
          else if found (strstr line "["%string) then
            load_lines fuel' rest true loaded b
          else if negb in_array then load_lines fuel' rest in_array loaded b
          else if found (strstr line "]"%string) then (b, loaded)
          else
            match parse_json_question line with
            | Some q =>
                load_lines fuel' rest in_array (CInt.add loaded 1)
                  (question_bank_add b q)
            | None => load_lines fuel' rest in_array loaded b
            end
      end
  end.

(** The line-reading [question_bank_load_from_json]; every line read
    takes at least one character of the file. *)
Definition question_bank_load_from_json_lines
    (b : QuestionBank) (file : option string) : QuestionBank * Z :=
  match file with
  | None => (b, -1)
  | Some content =>
      load_lines (S (String.length content)) content false 0 b
  end.

End Questions.

(** ** timer.h and timer.c

    [struct Timer] holds the four data fields; the mutex only makes each
    critical section atomic, and the thread handle is represented by the
    control point the countdown thread has reached. *)
Module Timer.

Record Timer : Type := mkTimer {
  seconds : Z;
  remaining : Z;
  running : bool;
  expired : bool
}.

(** Control points of [timer_thread_func]: before the first critical
    section, at the test of the [while], before the critical section of
    the loop body (after [sleep(1)]), before the last critical section,
    and after [return NULL]. *)
Inductive ThreadPC : Type := AtInit | AtCheck | AtTick | AtFinish | Done.

(** A timer with the thread [timer->thread] designates, if one was
    created. *)
Record Countdown : Type := mkCountdown {
  timer : Timer;
  thread : option ThreadPC
}.

(** One atomic step of [timer_thread_func]. *)
Definition thread_step (t : Timer) (pc : ThreadPC) : Timer * ThreadPC :=
  match pc with
  | AtInit =>
      ({| seconds := seconds t; remaining := seconds t;
          running := true; expired := false |}, AtCheck)
  | AtCheck =>
      if remaining t >? 0 then (t, AtTick) else (t, AtFinish)
  | AtTick =>
      if negb (running t) then (t, AtFinish)
      else ({| seconds := seconds t;
               remaining := CInt.add (remaining t) (-1);
               running := running t; expired := expired t |}, AtCheck)
  | AtFinish =>
      ({| seconds := seconds t; remaining := remaining t;
          running := false;
          expired := if remaining t =? 0 then true else expired t |}, Done)
  | Done => (t, Done)
  end.

Definition step_thread (cd : Countdown) : Countdown :=
  match thread cd with
  | None => cd
  | Some pc =>
      let '(t, pc') := thread_step (timer cd) pc in
      {| timer := t; thread := Some pc' |}
  end.

(** [n] steps of the countdown thread, the caller standing still. *)
Fixpoint run_thread (n : nat) (cd : Countdown) : Countdown :=
  match n with
  | O => cd
  | S n' => run_thread n' (step_thread cd)
  end.

(** Steps that are enough for the thread to return: two per second
    left to count, and the first and last critical sections. *)
Definition join_fuel (cd : Countdown) : nat :=
  4 + 2 * Z.to_nat (Z.max (seconds (timer cd)) (remaining (timer cd))).

(** [pthread_join]: the caller waits until the thread has returned. *)
Definition join (cd : Countdown) : Countdown :=
  run_thread (join_fuel cd) cd.

(** [timer_init]: [None] for the result -1. *)
Definition timer_init (secs : Z) : option Countdown :=
  if secs <=? 0 then None
  else Some {| timer := {| seconds := secs; remaining := secs;
                           running := false; expired := false |};
               thread := None |}.

(** [timer_start] (thread creation succeeds). *)
Definition timer_start (cd : Countdown) : Countdown * Z :=
  if running (timer cd) then (cd, -1)
  else ({| timer := timer cd; thread := Some AtInit |}, 0).

(** [timer_stop]: clear [running], then join. *)
Definition timer_stop (cd : Countdown) : Countdown * Z :=
  let t := timer cd in
  let t' := {| seconds := seconds t; remaining := remaining t;
               running := false; expired := expired t |} in
  (join {| timer := t'; thread := thread cd |}, 0).

Definition timer_get_remaining (cd : Countdown) : Z := remaining (timer cd).

Definition timer_is_expired (cd : Countdown) : bool := expired (timer cd).

(** [timer_reset]. *)
Definition timer_reset (cd : Countdown) (secs : Z) : Countdown * Z :=
  if secs <=? 0 then (cd, -1)
  else
    let cd1 := if running (timer cd) then fst (timer_stop cd) else cd in
    let t := timer cd1 in
    ({| timer := {| seconds := secs; remaining := secs;
                    running := running t; expired := false |};
        thread := thread cd1 |}, 0).

(** How the countdown is driven: the thread takes a step, or the owner
    calls [timer_start] on a timer it has just initialised or reset (no
    thread at work), [timer_stop] on a timer that was started, or
    [timer_reset]. *)
Inductive Action : Type :=
| Tick
| Start
| Stop
| Reset (secs : Z).

Definition idle (cd : Countdown) : Prop :=
  thread cd = None \/ thread cd = Some Done.

Definition fresh (cd : Countdown) : Prop :=
  idle cd /\ running (timer cd) = false /\ expired (timer cd) = false
  /\ remaining (timer cd) = seconds (timer cd).

Definition enabled (a : Action) (cd : Countdown) : Prop :=
  match a with
  | Tick => exists pc, thread cd = Some pc /\ pc <> Done
  | Start => fresh cd
  | Stop => exists pc, thread cd = Some pc
  | Reset secs => CInt.in_int secs
  end.

Definition perform (a : Action) (cd : Countdown) : Countdown :=
  match a with
  | Tick => step_thread cd
  | Start => fst (timer_start cd)
  | Stop => fst (timer_stop cd)
  | Reset secs => fst (timer_reset cd secs)
  end.


Inductive reachable (secs : Z) : Countdown -> Prop :=
| reach_init cd :
    CInt.in_int secs -> timer_init secs = Some cd -> reachable secs cd
| reach_step cd a :
    reachable secs cd -> enabled a cd -> reachable secs (perform a cd).

(** [timer_cleanup]: the timer is stopped if it is running; the mutex,
    which is not represented, is destroyed. *)
Definition timer_cleanup (cd : Countdown) : Countdown :=
  if running (timer cd) then fst (timer_stop cd) else cd.

End Timer.

(** ** game.h and game.c *)
Module Game.
Import CString Utils Questions Timer.

Record GameConfig : Type := mkConfig {
  questions_per_game : Z;
  time_per_question : Z;
  difficulty : Z;
  use_timer : bool;
  num_players : Z
}.

(** [struct Player]; its fields share their names with [GameStats]. *)
Module Player.
Record Player : Type := mk {
  name : string;
  score : Z;
  correct_answers : Z;
  wrong_answers : Z;
  timeouts : Z
}.
End Player.
Abbreviation Player := Player.Player.

Record GameStats : Type := mkStats {
  total_questions : Z;
  correct_answers : Z;
  wrong_answers : Z;
  timeouts : Z;
  score : Z
}.

(** [struct GameState]; [question_bank = None] and [players = []] stand
    for the NULL pointers. *)
Record GameState : Type := mkState {
  question_bank : option QuestionBank;
  config : GameConfig;
  stats : GameStats;
  players : list Player;
  current_player : Z;
  timer : Countdown;
  game_active : bool
}.

Definition set_stats (st : GameState) (s : GameStats) : GameState :=
  {| question_bank := question_bank st; config := config st; stats := s;
     players := players st; current_player := current_player st;
     timer := timer st; game_active := game_active st |}.

Definition set_players (st : GameState) (ps : list Player) : GameState :=
  {| question_bank := question_bank st; config := config st;
     stats := stats st; players := ps;
     current_player := current_player st;
     timer := timer st; game_active := game_active st |}.

Definition set_current_player (st : GameState) (i : Z) : GameState :=
  {| question_bank := question_bank st; config := config st;
     stats := stats st; players := players st; current_player := i;
     timer := timer st; game_active := game_active st |}.

Definition set_timer (st : GameState) (cd : Countdown) : GameState :=
  {| question_bank := question_bank st; config := config st;
     stats := stats st; players := players st;
     current_player := current_player st;
     timer := cd; game_active := game_active st |}.

Definition set_game_active (st : GameState) (b : bool) : GameState :=
  {| question_bank := question_bank st; config := config st;
     stats := stats st; players := players st;
     current_player := current_player st;
     timer := timer st; game_active := b |}.

(** *** What the game prints *)

Inductive Verdict : Type :=
| Winner (winner_idx : Z) (winner : string) (max_score : Z)
| Tie.

(** One block of the final scores; [accuracy] carries the operands of
    the division when the block has an accuracy line. *)
Record PlayerLine : Type := mkLine {
  line_name : string;
  line_score : Z;
  line_correct : Z;
  line_wrong : Z;
  line_timeouts : Z;
  line_accuracy : option (Z * Z)
}.

Inductive Report : Type :=
| MultiReport (lines : list PlayerLine) (v : Verdict)
| SingleReport (s : GameStats) (accuracy : option (Z * Z)).

Inductive Output : Type :=
| OutWelcome (cfg : GameConfig)
| OutQuestion (player : option string) (q : Question)
| OutTimeRemaining (r : Z)
| OutPrompt
| OutTimesUp
| OutInvalid
| OutNoQuestions
| OutQuit
| OutTimeout (q : Question)
| OutCorrect (points : Z)
| OutWrong (q : Question)
| OutScores (scores : list (string * Z))
| OutStats (r : Report).

(** *** What the game reads *)

(** The outcome of [select] followed by [read_input]: nothing to read,
    a read that fails, or a line (as [read_input] leaves it). *)
Inductive Select : Type :=
| NoInput
| ReadFailed
| Line (s : string).

(** One turn of the polling loop as the scheduler lets it happen: how
    many steps the countdown thread takes before the loop test, before
    the expiry test, while [select] waits, and before the display is
    refreshed; and what [select] finds. *)
Record Poll : Type := mkPoll {
  ticks_cond : nat;
  ticks_expired : nat;
  ticks_select : nat;
  select : Select;
  ticks_display : nat
}.

(** What one round meets: the value of [rand()], the turns of the
    polling loop (with the timer), what stdin holds, up to the end of the
    input, once the polling loop is over (without the timer: at the
    prompt), and the steps of the countdown thread before the remaining
    time is read for the score.  After the last listed turn of the
    polling loop no input arrives and the countdown runs on alone. *)
Record RoundInput : Type := mkRound {
  rand_value : Z;
  polls : list Poll;
  stdin : string;
  ticks_score : nat
}.

(** The blocking [read_input(input, sizeof(input))] of a round without
    the timer: the line it leaves in [input], [None] when it fails, and
    what it leaves on stdin. *)
Definition blocking_read (inp : RoundInput) : option string :=
  match read_input true MAX_INPUT_LEN (stdin inp) with
  | (UTILS_SUCCESS, Some raw, _) => Some raw
  | _ => None
  end.

Definition unread (inp : RoundInput) : string :=
  snd (read_input true MAX_INPUT_LEN (stdin inp)).

(** What stdin holds when the question has been asked: what the blocking
    read left of it in a round without the timer. *)
Definition pending (cfg : GameConfig) (inp : RoundInput) : string :=
  if use_timer cfg then stdin inp else unread inp.

(** *** game.c *)

Definition blank_player : Player :=
  {| Player.name := EmptyString; Player.score := 0;
     Player.correct_answers := 0; Player.wrong_answers := 0;
     Player.timeouts := 0 |}.

(** [game_init_players] (allocation succeeds): [None] for -1. *)
Definition game_init_players (st : GameState) : option GameState :=
  if num_players (config st) <? 2 then None
  else Some (set_players st
               (replicate (Z.to_nat (num_players (config st))) blank_player)).

(** [game_init]; [state] is the memory the caller hands over, [None]
    the result -1. *)
Definition game_init (state : GameState) (bank : option QuestionBank)
    (cfg : GameConfig) : option GameState :=
  match bank with
  | None => None
  | Some b =>
      let st := {| question_bank := Some b; config := cfg;
                   stats := {| total_questions := 0; correct_answers := 0;
                               wrong_answers := 0; timeouts := 0;
                               score := 0 |};
                   players := []; current_player := 0;
                   timer := timer state; game_active := false |} in
      st ← (if num_players cfg >? 1 then game_init_players st else Some st);
      if use_timer cfg then
        cd ← timer_init (time_per_question cfg);
        Some (set_timer st cd)
      else Some st
  end.

(** [game_get_current_player]: the index of the player pointed at. *)
Definition game_get_current_player (st : GameState) : option nat :=
  if num_players (config st) <=? 1 then None
  else if (current_player st >=? 0)
          && (current_player st <? num_players (config st))
  then Some (Z.to_nat (current_player st))
  else None.

(** [game_next_player]. *)
Definition game_next_player (st : GameState) : GameState :=
  if num_players (config st) <=? 1 then st
  else set_current_player st
         (CInt.rem (CInt.add (current_player st) 1)
                   (num_players (config st))).

(** [game_calculate_score]: the [switch] with its [default] branch. *)
Definition base_points (difficulty : Difficulty) : Z :=
  if difficulty =? DIFFICULTY_EASY then 10
  else if difficulty =? DIFFICULTY_MEDIUM then 20
  else if difficulty =? DIFFICULTY_HARD then 30
  else 10.

Definition game_calculate_score
    (correct : bool) (time_remaining : Z) (difficulty : Difficulty) : Z :=
  if negb correct then 0
  else
    let base_points := base_points difficulty in
    let time_bonus := CInt.div time_remaining 2 in
    CInt.add base_points time_bonus.

(** The name shown for [players[i]]. *)
Definition display_name (i : Z) (p : Player) : string :=
  match Player.name p with
  | EmptyString =>
      if i =? 0 then "Player 1"%string
      else if i =? 1 then "Player 2"%string else "Player"%string
  | n => n
  end.

(** [input[0] == 'q' || input[0] == 'Q']. *)
Definition is_quit (input : string) : bool :=
  match input with
  | String c _ => Ascii.eqb c "q"%char || Ascii.eqb c "Q"%char
  | EmptyString => false
  end.

(** What the loops of [game_ask_question] make of a line that was read:
    leave with a result, or go on. *)
Inductive Reading : Type :=
| ReadQuit
| ReadAnswer (answer : Z)
| ReadOther.

Definition read_line (raw : string) : Reading :=
  let input := sanitize_input raw in
  if is_quit input then ReadQuit
  else match is_valid_integer input with
       | Some answer =>
           if (answer >=? 1) && (answer <=? MAX_OPTIONS)
           then ReadAnswer answer else ReadOther
       | None => ReadOther
       end.

(** The polling loop of [game_ask_question]; the result is the timer,
    the value returned and what was printed, [None] when the loop
    would never end. *)
Fixpoint ask_loop (cd : Countdown) (ps : list Poll)
    : option (Countdown * Z * list Output) :=
  match ps with
  | [] =>
      let cd := join cd in
      if timer_get_remaining cd >? 0 then None else Some (cd, 0, [])
  | p :: ps' =>
      let cd := run_thread (ticks_cond p) cd in
      if timer_get_remaining cd >? 0 then
        let cd := run_thread (ticks_expired p) cd in
        if timer_is_expired cd then
          Some (fst (timer_stop cd), 0, [OutTimesUp])
        else
          let cd := run_thread (ticks_select p) cd in
          let go_on (out : list Output) :=
            let cd := run_thread (ticks_display p) cd in
            '(cd', r, out') ← ask_loop cd ps';
            Some (cd', r,
                  out ++ OutTimeRemaining (timer_get_remaining cd) :: out')
          in
          match select p with
          | Line raw =>
              match read_line raw with
              | ReadQuit => Some (fst (timer_stop cd), -1, [])
              | ReadAnswer answer => Some (fst (timer_stop cd), answer, [])
              | ReadOther => go_on [OutInvalid]
              end
          | _ => go_on []
          end
      else Some (cd, 0, [])
  end.

(** [game_ask_question]. *)
Definition game_ask_question (st : GameState) (q : Question)
    (inp : RoundInput) : option (GameState * Z * list Output) :=
  let player :=
    if num_players (config st) >? 1 then
      i ← game_get_current_player st;
      p ← players st !! i;
      Some (display_name (Z.of_nat i) p)
    else None in
  let shown := [OutQuestion player q] in
  if use_timer (config st) then
    let cd := fst (timer_reset (timer st) (time_per_question (config st))) in
    let cd := fst (timer_start cd) in
    '(cd, r, out) ← ask_loop cd (polls inp);
    Some (set_timer st cd, r,
          shown ++ [OutTimeRemaining (time_per_question (config st));
                    OutPrompt] ++ out)
  else
    let r :=
      match blocking_read inp with
      | Some raw =>
          match read_line raw with
          | ReadQuit => -1
          | ReadAnswer answer => answer
          | ReadOther => 0
          end
      | None => 0
      end in
    Some (st, r, shown ++ [OutPrompt]).

(** The scores shown after a round in a game of several players. *)
Fixpoint score_lines (i : Z) (ps : list Player) : list (string * Z) :=
  match ps with
  | [] => []
  | p :: ps' => (display_name i p, Player.score p) :: score_lines (i + 1) ps'
  end.

(** The update of the current player's record after a round. *)
Definition update_player (p : Player) (q : Question)
    (user_answer : Z) (correct : bool) (time_remaining : Z)
    : Player * Output :=
  if user_answer =? 0 then
    ({| Player.name := Player.name p; Player.score := Player.score p;
        Player.correct_answers := Player.correct_answers p;
        Player.wrong_answers := Player.wrong_answers p;
        Player.timeouts := CInt.add (Player.timeouts p) 1 |},
     OutTimeout q)
  else if correct then
    let points := game_calculate_score true time_remaining
                    (Questions.difficulty q) in
    ({| Player.name := Player.name p;
        Player.score := CInt.add (Player.score p) points;
        Player.correct_answers := CInt.add (Player.correct_answers p) 1;
        Player.wrong_answers := Player.wrong_answers p;
        Player.timeouts := Player.timeouts p |},
     OutCorrect points)
  else
    ({| Player.name := Player.name p; Player.score := Player.score p;
        Player.correct_answers := Player.correct_answers p;
        Player.wrong_answers := CInt.add (Player.wrong_answers p) 1;
        Player.timeouts := Player.timeouts p |},
     OutWrong q).

(** The update of the single player's statistics after a round. *)
Definition update_stats (s : GameStats) (q : Question)
    (user_answer : Z) (correct : bool) (time_remaining : Z)
    : GameStats * Output :=
  let total := CInt.add (total_questions s) 1 in
  if user_answer =? 0 then
    ({| total_questions := total; correct_answers := correct_answers s;
        wrong_answers := wrong_answers s;
        timeouts := CInt.add (timeouts s) 1; score := score s |},
     OutTimeout q)
  else if correct then
    let points := game_calculate_score true time_remaining
                    (Questions.difficulty q) in
    ({| total_questions := total;
        correct_answers := CInt.add (correct_answers s) 1;
        wrong_answers := wrong_answers s; timeouts := timeouts s;
        score := CInt.add (score s) points |},
     OutCorrect points)
  else
    ({| total_questions := total; correct_answers := correct_answers s;
        wrong_answers := CInt.add (wrong_answers s) 1;
        timeouts := timeouts s; score := score s |},
     OutWrong q).

(** How one turn of the game loop ends: the polling loop never ends;
    the round is played and the turn then waits for ever in
    [wait_for_enter]; the loop is left; the loop goes on. *)
Inductive RoundEnd : Type :=
| Endless
| Waiting (st : GameState) (out : list Output)
| Break (st : GameState) (out : list Output)
| Next (st : GameState) (out : list Output).

(** [difficulty_filter] in the loop of [game_run]. *)
Definition difficulty_filter (cfg : GameConfig) : Z :=
  if difficulty cfg >=? 0 then difficulty cfg else -1.

(** The body of the [for] loop of [game_run]; its [wait_for_enter]
    reads what the question left on stdin. *)
Definition game_round (bank : QuestionBank) (st : GameState)
    (inp : RoundInput) : RoundEnd :=
  let cfg := config st in
  match question_bank_get_random bank (difficulty_filter cfg)
          (rand_value inp) with
  | None => Break st [OutNoQuestions]
  | Some q =>
      match game_ask_question st q inp with
      | None => Endless
      | Some (st, user_answer, out) =>
          if user_answer =? -1 then Break st (out ++ [OutQuit])
          else
            let correct :=
              user_answer =? CInt.add (correct_answer q) 1 in
            let st := set_timer st (run_thread (ticks_score inp) (timer st)) in
            let time_remaining :=
              if use_timer cfg then timer_get_remaining (timer st)
              else time_per_question cfg in
            let '(st, out1) :=
              if num_players cfg >? 1 then
                match game_get_current_player st with
                | Some i =>
                    match players st !! i with
                    | Some p =>
                        let '(p', o) := update_player p q user_answer
                                          correct time_remaining in
                        (set_players st (<[i := p']> (players st)), [o])
                    | None => (st, [])
                    end
                | None => (st, [])
                end
              else
                let '(s', o) := update_stats (stats st) q user_answer
                                  correct time_remaining in
                (set_stats st s', [o]) in
            let out2 :=
              if num_players cfg >? 1 then
                [OutScores (score_lines 0
                   (take (Z.to_nat (num_players cfg)) (players st)))]
              else [] in
            match wait_for_enter (pending cfg inp) with
            | None => Waiting st (out ++ out1 ++ out2)
            | Some _ =>
                let st :=
                  if num_players cfg >? 1 then game_next_player st
                  else st in
                Next st (out ++ out1 ++ out2)
            end
      end
  end.

(** The [for (int i = 0; i < total_rounds; i++)] loop; [fuel] is
    [total_rounds - i], [script i] what round [i] meets.  The result
    carries the value of [i] when the loop is left; it is [None] when
    the loop is never left. *)
Fixpoint game_loop (fuel : nat) (i : Z) (bank : QuestionBank)
    (st : GameState) (script : nat -> RoundInput)
    : option (GameState * Z * list Output) :=
  match fuel with
  | O => Some (st, i, [])
  | S fuel' =>
      match game_round bank st (script (Z.to_nat i)) with
      | Endless | Waiting _ _ => None
      | Break st' out => Some (st', i, out)
      | Next st' out =>
          '(st'', i', out') ← game_loop fuel' (i + 1) bank st' script;
          Some (st'', i', out ++ out')
      end
  end.

(** The first [k] turns of the loop from [i] on, when each of them runs
    to its end (no quit, no missing question, the Enter key found). *)
Fixpoint play (k : nat) (i : Z) (bank : QuestionBank)
    (st : GameState) (script : nat -> RoundInput)
    : option (GameState * list Output) :=
  match k with
  | O => Some (st, [])
  | S k' =>
      match game_round bank st (script (Z.to_nat i)) with
      | Next st' out =>
          '(st'', out') ← play k' (i + 1) bank st' script;
          Some (st'', out ++ out')
      | _ => None
      end
  end.

(** [total_rounds] of [game_run]. *)
Definition total_rounds (cfg : GameConfig) : Z :=
  if num_players cfg >? 1
  then CInt.mul (questions_per_game cfg) (num_players cfg)
  else questions_per_game cfg.

(** The loop that looks for the winner in [game_display_stats], from
    index [i] on. *)
Fixpoint find_winner (ps : list Player) (i : Z)
    (max_score winner_idx : Z) (tie : bool) : Z * Z * bool :=
  match ps with
  | [] => (max_score, winner_idx, tie)
  | p :: ps' =>
      if Player.score p >? max_score then
        find_winner ps' (i + 1) (Player.score p) i false
      else if Player.score p =? max_score then
        find_winner ps' (i + 1) max_score winner_idx true
      else find_winner ps' (i + 1) max_score winner_idx tie
  end.

Definition player_line (i : Z) (p : Player) : PlayerLine :=
  let total_answered :=
    CInt.add (Player.correct_answers p) (Player.wrong_answers p) in
  {| line_name := display_name i p;
     line_score := Player.score p;
     line_correct := Player.correct_answers p;
     line_wrong := Player.wrong_answers p;
     line_timeouts := Player.timeouts p;
     line_accuracy := if total_answered >? 0
                      then Some (Player.correct_answers p, total_answered)
                      else None |}.

Fixpoint player_lines (i : Z) (ps : list Player) : list PlayerLine :=
  match ps with
  | [] => []
  | p :: ps' => player_line i p :: player_lines (i + 1) ps'
  end.

(** The verdict on the players [ps = players[0 .. num_players)]. *)
Definition verdict (ps : list Player) : option Verdict :=
  match ps with
  | [] => None
  | p0 :: rest =>
      let '(max_score, winner_idx, tie) :=
        find_winner rest 1 (Player.score p0) 0 false in
      if negb tie then
        w ← ps !! Z.to_nat winner_idx;
        Some (Winner winner_idx (display_name winner_idx w) max_score)
      else Some Tie
  end.

(** [game_display_stats]: the report printed ([None]: the array of
    players is missing). *)
Definition game_display_stats (st : GameState) : option Report :=
  if num_players (config st) >? 1 then
    let ps := take (Z.to_nat (num_players (config st))) (players st) in
    v ← verdict ps;
    Some (MultiReport (player_lines 0 ps) v)
  else
    Some (SingleReport (stats st)
            (if total_questions (stats st) >? 0
             then Some (correct_answers (stats st),
                        total_questions (stats st))
             else None)).

(** [game_run]: the final state, the value returned and what was
    printed; [None] when the game never ends.  [start] is what stdin
    holds when the welcome screen waits for Enter. *)
Definition game_run (st : GameState) (start : string)
    (script : nat -> RoundInput) : option (GameState * Z * list Output) :=
  match question_bank st with
  | None => Some (st, -1, [])
  | Some bank =>
      let st := set_game_active st true in
      let cfg := config st in
      _ ← wait_for_enter start;
      let total_rounds := total_rounds cfg in
      '(st, _, out) ← game_loop (Z.to_nat total_rounds) 0 bank st script;
      let st := set_game_active st false in
      report ← game_display_stats st;
      Some (st, score (stats st), OutWelcome cfg :: out ++ [OutStats report])
  end.

(** [game_cleanup]. *)
Definition game_cleanup (st : GameState) : GameState :=
  let st := if use_timer (config st)
            then set_timer st (timer_cleanup (timer st)) else st in
  set_game_active (set_players st []) false.

End Game.

(** ** main.c *)
Module Main.
Import CString Utils Questions Timer Game.

(** What [printf("%d")] writes. *)
Definition print_int (z : Z) : string :=
  NilZero.string_of_int (Z.to_int z).

(** [get_num_players]; [input] is the line [read_input] left in the
    buffer, [None] when it failed. *)
Definition get_num_players (input : option string) : Z :=
  match input with
  | Some raw =>
      match is_valid_integer (sanitize_input raw) with
      | Some choice =>
          if (choice >=? 1) && (choice <=? 4) then choice else 0
      | None => 0
      end
  | None => 0
  end.

(** [display_menu]. *)
Definition display_menu (input : option string) : Z :=
  match input with
  | Some raw =>
      match is_valid_integer (sanitize_input raw) with
      | Some choice => choice
      | None => 0
      end
  | None => 0
  end.

(** [snprintf(name, sizeof(name), "Player %d", i + 1)] with
    [char name[64]]. *)
Definition default_name (i : Z) : string :=
  strncpy 63 ("Player " ++ print_int (CInt.add i 1)).

(** The name [get_player_names] gives to [players[i]]. *)
Definition name_for (i : Z) (input : option string) : string :=
  match input with
  | Some raw =>
      let input := sanitize_input raw in
      if (0 <? String.length input)%nat then strncpy 63 input
      else default_name i
  | None => default_name i
  end.

Definition set_name (n : string) (p : Player) : Player :=
  {| Player.name := n; Player.score := Player.score p;
     Player.correct_answers := Player.correct_answers p;
     Player.wrong_answers := Player.wrong_answers p;
     Player.timeouts := Player.timeouts p |}.

(** The [for] loop of [get_player_names]; [fuel] is [num_players - i],
    [inputs i] the line read for [players[i]]. *)
Fixpoint name_players (fuel : nat) (i : Z) (ps : list Player)
    (inputs : nat -> option string) : list Player :=
  match fuel with
  | O => ps
  | S fuel' =>
      name_players fuel' (i + 1)
        (alter (set_name (name_for i (inputs (Z.to_nat i)))) (Z.to_nat i) ps)
        inputs
  end.

(** [get_player_names]. *)
Definition get_player_names (st : GameState)
    (inputs : nat -> option string) : GameState :=
  if num_players (config st) <=? 1 then st
  else set_players st
         (name_players (Z.to_nat (num_players (config st))) 0 (players st)
            inputs).

(** One turn of the [while (running)] loop of [main], up to the point
    where the game is configured. *)
Inductive MenuTurn : Type :=
| Leave
| InvalidChoice
| InvalidPlayers
| Configured (cfg : GameConfig).

Definition menu_turn (choice_input players_input : option string)
    : MenuTurn :=
  let choice := display_menu choice_input in
  if choice =? 5 then Leave
  else if (choice <? 1) || (choice >? 4) then InvalidChoice
  else
    let num_players := get_num_players players_input in
    if num_players =? 0 then InvalidPlayers
    else
      Configured
        {| questions_per_game := 5;
           time_per_question := 30;
           use_timer := true;
           num_players := num_players;
           difficulty :=
             if choice =? 1 then DIFFICULTY_EASY
             else if choice =? 2 then DIFFICULTY_MEDIUM
             else if choice =? 3 then DIFFICULTY_HARD
             else -1 |}.

End Main.

(** ** Sample data

    Concrete records, questions, states and schedules on which the
    definitions are run. *)
Module Samples.
Import CString Questions Timer Game.
Open Scope string_scope.

(** Sample records are written with apostrophes where the file has
    double quotes; [json] puts the double quotes back. *)
Fixpoint json (s : string) : string :=
  match s with
  | EmptyString => EmptyString
  | String c r => String (if Ascii.eqb c "'"%char then dquote else c) (json r)
  end.

Definition sample_record : string :=
  json "{'question': 'What is the capital of France?', 'options': ['London', 'Berlin', 'Paris', 'Madrid'], 'correct': 2, 'difficulty': 'easy'}".

(** What [parse_json_question] makes of [sample_record]. *)
Definition sample_question : Question :=
  {| question := "What is the capital of France?";
     options := ["London"; "Berlin"; "Paris"; "Madrid"];
     correct_answer := 2;
     Questions.difficulty := DIFFICULTY_EASY;
     category := CATEGORY_GENERAL |}.

(** A record whose index of the right answer is 5, with four options:
    what stands between its braces, and the record. *)
Definition body_index_5 : string :=
  json "'question': 'Which ocean is the largest?', 'options': ['Atlantic', 'Indian', 'Arctic', 'Pacific'], 'correct': 5, 'difficulty': 'medium'".

Definition record_index_5 : string :=
  String "{" (body_index_5 ++ String "}" EmptyString).

(** A file of two records, the first of which is [record_index_5]. *)
Definition two_records : string :=
  String "{" (body_index_5 ++ String "}" ("," ++ sample_record ++ "]")).

(** A record with a given difficulty text. *)
Definition record_of_difficulty (d : string) : string :=
  (json "{'question': 'Q?', 'options': ['a', 'b'], 'correct': 0, 'difficulty': '"
   ++ d ++ json "'}")%string.

(** A record with two options whose closing bracket stands apart from
    the last of them, and with 2 as the index of the right answer. *)
Definition record_spaced : string :=
  json "{'question': 'Q?', 'options': ['a', 'b' ], 'correct': 2}".

Definition file_spaced : string :=
  ("[" ++ record_spaced ++ "]")%string.

(** A record without a difficulty field. *)
Definition record_plain : string :=
  json "{'question': 'Q?', 'options': ['a', 'b'], 'correct': 1}".

(** Two records with an option named [difficulty]: one without a
    difficulty field and with a key [hard], one with the field [hard]. *)
Definition record_hard_key : string :=
  json "{'question': 'Q?', 'options': ['difficulty', 'b'], 'correct': 0, 'hard': 1}".

Definition record_shadowed : string :=
  json "{'question': 'Q?', 'options': ['difficulty', 'b'], 'correct': 0, 'difficulty': 'hard'}".

(** A question with three options, the third being the right one. *)
Definition three_options : Question :=
  {| question := "Which planet is known as the Red Planet?";
     options := ["Venus"; "Jupiter"; "Mars"];
     correct_answer := 2;
     Questions.difficulty := DIFFICULTY_MEDIUM;
     category := CATEGORY_GENERAL |}.

Definition small_bank : QuestionBank :=
  question_bank_add question_bank_init three_options.

Definition config_of (players : Z) (timed : bool) : GameConfig :=
  {| questions_per_game := 2; time_per_question := 5;
     difficulty := -1; use_timer := timed; num_players := players |}.

(** The memory handed to [game_init]: whatever was there before. *)
Definition stale_state : GameState :=
  {| question_bank := None; config := config_of 0 false;
     stats := mkStats 7 7 7 7 7; players := []; current_player := 9;
     timer := mkCountdown (mkTimer 0 0 false false) None;
     game_active := true |}.

(** The state [game_init] builds for [small_bank]. *)
Definition start_state (players : Z) (timed : bool) : GameState :=
  default stale_state
    (game_init stale_state (Some small_bank) (config_of players timed)).

(** A turn of the polling loop in which a line arrives after the
    countdown thread has taken [n] steps. *)
Definition line_after (n : nat) (raw : string) : Poll :=
  {| ticks_cond := n; ticks_expired := 0; ticks_select := 0;
     select := Line raw; ticks_display := 0 |}.

(** A player with a given final score. *)
Definition scoring (n : Z) : Player :=
  {| Player.name := EmptyString; Player.score := n;
     Player.correct_answers := 0; Player.wrong_answers := 0;
     Player.timeouts := 0 |}.

(** The Enter key. *)
Definition enter : string := String "010" EmptyString.

(** A round with the timer, closed by Enter. *)
Definition round_with (ps : list Poll) : RoundInput :=
  {| rand_value := 17; polls := ps; stdin := enter; ticks_score := 0 |}.

(** The countdown of [start_state 1 true] once [game_ask_question] has
    reset and started it. *)
Definition started_timer : Countdown :=
  fst (timer_start (fst (timer_reset (timer (start_state 1 true)) 5))).

(** A round in which the line "4" arrives after three steps of the
    countdown. *)
Definition answer_four : RoundInput := round_with [line_after 3 "4"].

(** A timer of three seconds after [timer_init], and after [timer_start]
    and three steps of its thread. *)
Definition timer_3 : Countdown :=
  {| Timer.timer := mkTimer 3 3 false false; thread := None |}.

Definition timer_3_ticking : Countdown :=
  perform Tick (perform Tick (perform Tick (perform Start timer_3))).

(** Every round answers "3" after three steps of the countdown. *)
Definition answer_three : nat -> RoundInput :=
  fun _ => round_with [line_after 3 "3"].

(** As [answer_three], but round [k] is quit. *)
Definition quit_at (k : nat) : nat -> RoundInput :=
  fun i => if (i =? k)%nat then round_with [line_after 1 "quit"]
           else round_with [line_after 3 "3"].

(** A round that finds stdin at its end. *)
Definition end_of_input : RoundInput :=
  {| rand_value := 17; polls := []; stdin := EmptyString;
     ticks_score := 0 |}.

(** A line typed at the prompt of a game without timer, and Enter. *)
Definition typed (raw : string) : RoundInput :=
  {| rand_value := 17; polls := []; stdin := raw ++ enter ++ enter;
     ticks_score := 0 |}.

(** The state of a game of several players with given final scores. *)
Definition final_state (scores : list Z) : GameState :=
  {| question_bank := Some small_bank;
     config := config_of (Z.of_nat (length scores)) true;
     stats := mkStats 0 0 0 0 0;
     players := map scoring scores;
     current_player := 0;
     timer := mkCountdown (mkTimer 5 5 false false) None;
     game_active := false |}.

Close Scope string_scope.
End Samples.

(** ** Vocabulary of the specification

    The tiers and the base table, the winner of a score vector, the options
    a record lists and the points a game credits, as the specification
    words them; the theorems compare the code against these. *)
Module Spec.
Import Questions.

Inductive Tier : Type := Easy | Medium | Hard.

Definition tier_value (t : Tier) : Difficulty :=
  match t with
  | Easy => DIFFICULTY_EASY
  | Medium => DIFFICULTY_MEDIUM
  | Hard => DIFFICULTY_HARD
  end.

Definition base (t : Tier) : Z :=
  match t with Easy => 10 | Medium => 20 | Hard => 30 end.

(** The points the output of a game credits, added up from [acc] the
    way the code adds them. *)
Definition credited (acc : Z) (out : list Game.Output) : Z :=
  fold_left (fun a o => match o with
                        | Game.OutCorrect points => CInt.add a points
                        | _ => a
                        end) out acc.

(** Player [i] attains the maximum of the final scores. *)
Definition attains_max (ps : list Game.Player) (i : nat) : Prop :=
  exists p, ps !! i = Some p
            /\ forall j q, ps !! j = Some q ->
                           Game.Player.score q <= Game.Player.score p.

(** Exactly one player attains the maximum, and it is player [w]. *)
Definition sole_winner (ps : list Game.Player) (w : nat) : Prop :=
  attains_max ps w /\ forall j, attains_max ps j -> j = w.

(** Two or more players share the maximum. *)
Definition shared_max (ps : list Game.Player) : Prop :=
  exists i j, i <> j /\ attains_max ps i /\ attains_max ps j.

(** The strings a list of the file holds: [s] starts after the opening
    bracket, [cur] is the string being read, if any. *)
Fixpoint listed (s : string) (cur : option string) : list string :=
  match s with
  | EmptyString => []
  | String c r =>
      match cur with
      | None =>
          if Ascii.eqb c CString.dquote then listed r (Some EmptyString)
          else if Ascii.eqb c "]"%char then []
          else listed r None
      | Some acc =>
          if Ascii.eqb c CString.dquote then acc :: listed r None
          else listed r (Some (acc ++ String c EmptyString)%string)
      end
  end.

(** The list of options of a record, as the file format has it: the
    strings between the brackets of its [options] field. *)
Definition listed_options (record : string) : list string :=
  match CString.strstr record (CString.quoted "options") with
  | None => []
  | Some p =>
      match CString.strchr p "["%char with
      | None => []
      | Some p' => listed (Questions.next p') None
      end
  end.

(** The score as the specification states it, with a floor. *)
Definition spec_score (correct : bool) (time_remaining : Z) (t : Tier) : Z :=
  if correct then base t + time_remaining / 2 else 0.

End Spec.

(** ** Invariants

    What the proofs maintain about the countdown, the game state and the
    search for the winner. *)
Module Invariants.
Import CInt Timer.

(** The invariant of the countdown: the timer is within its bounds, and
    the flags agree with the control point of the thread. *)
Definition flags_ok (t : Timer) (th : option ThreadPC) : Prop :=
  match th with
  | None => running t = false /\ expired t = false
  | Some AtInit =>
      running t = false /\ expired t = false /\ remaining t = seconds t
  | Some AtCheck => running t = true /\ expired t = false
  | Some AtTick => running t = true /\ expired t = false /\ 0 < remaining t
  | Some AtFinish =>
      running t = true /\ expired t = false /\ remaining t = 0
  | Some Done => running t = false /\ (expired t = true -> remaining t = 0)
  end.

Definition countdown_ok (cd : Countdown) : Prop :=
  0 < seconds (timer cd) <= INT_MAX
  /\ 0 <= remaining (timer cd) <= seconds (timer cd)
  /\ flags_ok (timer cd) (thread cd).

(** Between two questions: the invariant holds and no thread is waiting
    to start. *)
Definition settled (cd : Countdown) : Prop :=
  countdown_ok cd /\ thread cd <> Some AtInit.

(** While the polling loop runs: a thread exists, and if it has
    returned it has counted down to zero. *)
Definition polling (cd : Countdown) : Prop :=
  countdown_ok cd
  /\ exists pc, thread cd = Some pc
                /\ (pc = Done -> remaining (timer cd) = 0).

(** What holds of the game state between two rounds. *)
Definition state_ok (st : Game.GameState) : Prop :=
  (Game.use_timer (Game.config st) = true ->
     settled (Game.timer st)
     /\ 0 < Game.time_per_question (Game.config st) <= INT_MAX)
  /\ (Game.num_players (Game.config st) > 1 ->
      length (Game.players st)
      = Z.to_nat (Game.num_players (Game.config st))).

(** Every round of the script finds on stdin the Enter key that
    [wait_for_enter] waits for after it. *)
Definition entered (cfg : Game.GameConfig)
    (script : nat -> Game.RoundInput) : Prop :=
  forall n, Utils.wait_for_enter (Game.pending cfg (script n)) <> None.

(** The remaining time a round is scored with: [time_remaining] of
    [game_run], read from the timer [game_ask_question] left in [st1]
    after [ticks_score] more steps of its thread. *)
Definition scored_time (st : Game.GameState) (inp : Game.RoundInput)
    (st1 : Game.GameState) : Z :=
  if Game.use_timer (Game.config st)
  then timer_get_remaining
         (run_thread (Game.ticks_score inp) (Game.timer st1))
  else Game.time_per_question (Game.config st).

(** The statistics of the single player after [i] rounds: every round
    was booked once, as a right answer, a wrong answer or a timeout. *)
Definition counts_ok (i : Z) (s : Game.GameStats) : Prop :=
  Game.total_questions s = i
  /\ 0 <= Game.correct_answers s /\ 0 <= Game.wrong_answers s
  /\ 0 <= Game.timeouts s
  /\ Game.correct_answers s + Game.wrong_answers s + Game.timeouts s = i.

(** The score lies between the least and the most the right answers can
    have earned with [T] seconds for a question. *)
Definition score_ok (T : Z) (s : Game.GameStats) : Prop :=
  10 * Game.correct_answers s <= Game.score s
  <= (30 + T / 2) * Game.correct_answers s.

(** What the loop of [find_winner] knows after the players [l]. *)
Definition winner_inv (l : list Game.Player) (m : Z) (w : nat) (t : bool)
    : Prop :=
  (exists p, l !! w = Some p /\ Game.Player.score p = m)
  /\ (forall j q, l !! j = Some q -> Game.Player.score q <= m)
  /\ (t = true <->
      exists j q, j <> w /\ l !! j = Some q /\ Game.Player.score q = m).

(** The index of the right answer points at one of the options. *)
Definition well_indexed (q : Questions.Question) : Prop :=
  0 <= Questions.correct_answer q
       < Z.of_nat (length (Questions.options q)).

(** The scanner between two records: nothing buffered, no object open. *)
Definition between (b : Questions.QuestionBank) (n : Z)
    : Questions.LoadState :=
  {| Questions.buffer := EmptyString; Questions.loaded := n;
     Questions.in_object := false; Questions.brace_count := 0;
     Questions.bank := b |}.

(** No brace among the characters of [s]. *)
Fixpoint brace_free (s : string) : bool :=
  match s with
  | EmptyString => true
  | String c r =>
      negb (Ascii.eqb c "{"%char) && negb (Ascii.eqb c "}"%char)
      && brace_free r
  end.

End Invariants.

(** ** Shapes of strings

    What the statements about the input functions and the parser say of
    a string: which characters it is made of, what number its digits
    denote, what occurs in it. *)
Module Shapes.
Import CString.

Fixpoint all_space (s : string) : bool :=
  match s with
  | EmptyString => true
  | String c r => isspace c && all_space r
  end.

Fixpoint all_digits (s : string) : bool :=
  match s with
  | EmptyString => true
  | String c r => isdigit c && all_digits r
  end.

(** The number a string of decimal digits denotes, digit by digit with
    the weight of its position. *)
Fixpoint decimal (ds : string) : Z :=
  match ds with
  | EmptyString => 0
  | String c r => digit_value c * 10 ^ Z.of_nat (String.length r) + decimal r
  end.

(** The first, and the last, character of [s] satisfies [f]. *)
Definition first_is (f : ascii -> bool) (s : string) : bool :=
  match s with
  | String c _ => f c
  | EmptyString => false
  end.

Fixpoint last_is (f : ascii -> bool) (s : string) : bool :=
  match s with
  | EmptyString => false
  | String c EmptyString => f c
  | String _ r => last_is f r
  end.

(** The character [c] is among those of [s]. *)
Fixpoint has_char (c : ascii) (s : string) : bool :=
  match s with
  | EmptyString => false
  | String a r => Ascii.eqb a c || has_char c r
  end.

(** [needle] occurs in [s]. *)
Definition occurs (needle s : string) : Prop :=
  exists l r, s = (l ++ needle ++ r)%string.

(** How many of the rounds [0 .. k) are the turn of player [j] when
    [n] players take turns. *)
Definition turns_of (j n k : nat) : nat :=
  length (List.filter (fun i => (i mod n =? j)%nat) (seq 0 k)).

(** The number of questions a player was asked. *)
Definition answered (p : Game.Player) : Z :=
  Game.Player.correct_answers p + Game.Player.wrong_answers p
  + Game.Player.timeouts p.

(** After [i] rounds of a game of [N] players, each player was asked a
    question in each of the rounds that were that player's turn. *)
Definition turns_ok (N i : Z) (ps : list Game.Player) : Prop :=
  length ps = Z.to_nat N
  /\ forall j p,
       ps !! j = Some p ->
       0 <= Game.Player.correct_answers p
       /\ 0 <= Game.Player.wrong_answers p
       /\ 0 <= Game.Player.timeouts p
       /\ answered p = Z.of_nat (turns_of j (Z.to_nat N) (Z.to_nat i)).

(** The question [q] has the difficulty asked for, if one is. *)
Definition matches_filter (wanted : option Questions.Difficulty)
    (q : Questions.Question) : Prop :=
  match wanted with
  | Some d => Questions.difficulty q = d
  | None => True
  end.

End Shapes.

(* ===================================================================== *)
(** * Part II: properties                                                 *)
(* ===================================================================== *)

Section IntFacts.
Import CInt.

Lemma wrap_id z : in_int z -> wrap z = z.
Proof.
  unfold in_int, INT_MIN, INT_MAX, wrap. intros H.
  rewrite Z.mod_small; lia.
Qed.

Lemma wrap_in_int z : in_int (wrap z).
Proof.
  unfold in_int, INT_MIN, INT_MAX, wrap.
  pose proof (Z.mod_pos_bound (z + 2 ^ 31) (2 ^ 32) ltac:(lia)). lia.
Qed.

Lemma quot2_bounds z : in_int z -> - 2 ^ 30 <= Z.quot z 2 <= 2 ^ 30 - 1.
Proof.
  unfold in_int, INT_MIN, INT_MAX. intros H.
  pose proof (Z.quot_le_mono (- 2 ^ 31) z 2 ltac:(lia) ltac:(lia)) as Hlo.
  pose proof (Z.quot_le_mono z (2 ^ 31 - 1) 2 ltac:(lia) ltac:(lia)) as Hhi.
  change (Z.quot (- 2 ^ 31) 2) with (- 2 ^ 30) in Hlo.
  change (Z.quot (2 ^ 31 - 1) 2) with (2 ^ 30 - 1) in Hhi.
  lia.
Qed.

Lemma div2_exact z : in_int z -> div z 2 = Z.quot z 2.
Proof.
  intros H. unfold div. apply wrap_id.
  pose proof (quot2_bounds z H). unfold in_int, INT_MIN, INT_MAX. lia.
Qed.

End IntFacts.

Section Score.
Import CInt Questions Game Spec.

Lemma base_points_tier t : base_points (tier_value t) = base t.
Proof. destruct t; reflexivity. Qed.

Lemma base_points_bounds d : 10 <= base_points d <= 30.
Proof.
  unfold base_points.
  destruct (d =? DIFFICULTY_EASY), (d =? DIFFICULTY_MEDIUM),
    (d =? DIFFICULTY_HARD); lia.
Qed.

(** The score of a correct answer, without wrap-around. *)
Lemma score_correct_exact t d :
  in_int t -> game_calculate_score true t d = base_points d + Z.quot t 2.
Proof.
  intros H. unfold game_calculate_score. simpl.
  rewrite div2_exact by assumption.
  unfold add. apply wrap_id.
  pose proof (quot2_bounds t H). pose proof (base_points_bounds d).
  unfold in_int, INT_MIN, INT_MAX. lia.
Qed.

(** C1, as the claim words it, fails for a negative odd time: C's [/]
    truncates toward zero, so [-1 / 2] is [0] where the floor is [-1]. *)
Lemma score_floor_fails_negative :
  in_int (-1)
  /\ game_calculate_score true (-1) (tier_value Easy) = 10
  /\ spec_score true (-1) Easy = 9
  /\ game_calculate_score true (-1) (tier_value Easy)
     <> spec_score true (-1) Easy.
Proof. repeat split; try reflexivity; vm_compute; congruence. Qed.

(** C1 (amended): a wrong answer scores 0; a correct one scores the base
    of its tier plus half the remaining time, the quotient truncated
    toward zero, which is the floor whenever the time is not negative;
    the three sample values of the specification hold. *)
Theorem score_spec :
  forall (correct : bool) (time_remaining : Z) (t : Tier),
    in_int time_remaining ->
    game_calculate_score correct time_remaining (tier_value t)
      = (if correct then base t + Z.quot time_remaining 2 else 0)
    /\ (0 <= time_remaining ->
        game_calculate_score correct time_remaining (tier_value t)
          = spec_score correct time_remaining t)
    /\ game_calculate_score true 10 (tier_value Medium) = 25
    /\ game_calculate_score true 0 (tier_value Easy) = 10
    /\ game_calculate_score false 29 (tier_value Hard) = 0.
Proof.
  intros correct t tier Hin.
  assert (Hcode : game_calculate_score correct t (tier_value tier)
                  = if correct then base tier + Z.quot t 2 else 0).
  { destruct correct; [| reflexivity].
    rewrite score_correct_exact by assumption.
    now rewrite base_points_tier. }
  split; [exact Hcode |].
  split; [| repeat split; reflexivity].
  intros Hnonneg. rewrite Hcode. unfold spec_score.
  destruct correct; [| reflexivity].
  rewrite Z.quot_div_nonneg by lia. reflexivity.
Qed.

Lemma score_spec_witness :
  in_int 7
  /\ game_calculate_score true 7 (tier_value Hard) = 30 + Z.quot 7 2.
Proof.
  assert (H : in_int 7) by (unfold in_int, INT_MIN, INT_MAX; lia).
  split; [exact H |].
  exact (proj1 (score_spec true 7 Hard H)).
Defined.

(** C9: for a correct answer and a fixed difficulty the score does not
    decrease when the remaining time grows. *)
Theorem score_monotone :
  forall (t1 t2 : Z) (d : Difficulty),
    in_int t1 -> in_int t2 -> t1 <= t2 ->
    game_calculate_score true t1 d <= game_calculate_score true t2 d.
Proof.
  intros t1 t2 d H1 H2 Hle.
  rewrite !score_correct_exact by assumption.
  pose proof (Z.quot_le_mono t1 t2 2 ltac:(lia) Hle). lia.
Qed.

Lemma score_monotone_witness :
  game_calculate_score true 3 DIFFICULTY_MEDIUM
    <= game_calculate_score true 28 DIFFICULTY_MEDIUM.
Proof.
  apply (score_monotone 3 28 DIFFICULTY_MEDIUM);
    unfold in_int, INT_MIN, INT_MAX; lia.
Defined.

End Score.

Section UtilsChecks.
Import CString Utils.
Open Scope string_scope.

(** The cases of tests/test_utils.c. *)
Example sanitize_hello : sanitize_input "  hello world  " = "hello world".
Proof. reflexivity. Qed.
Example sanitize_plain : sanitize_input "no_whitespace" = "no_whitespace".
Proof. reflexivity. Qed.
Example valid_123 : is_valid_integer "123" = Some 123.
Proof. reflexivity. Qed.
Example valid_neg456 : is_valid_integer "-456" = Some (-456).
Proof. reflexivity. Qed.
Example invalid_abc : is_valid_integer "abc" = None.
Proof. reflexivity. Qed.
Example invalid_float : is_valid_integer "12.34" = None.
Proof. reflexivity. Qed.
Example invalid_big : is_valid_integer "2147483648" = None.
Proof. reflexivity. Qed.
Example invalid_empty : is_valid_integer "" = None.
Proof. reflexivity. Qed.

End UtilsChecks.

Section ParserChecks.
Import CString Questions Samples.
Open Scope string_scope.

Example parse_sample :
  parse_json_question sample_record
  = Some {| question := "What is the capital of France?";
            options := ["London"; "Berlin"; "Paris"; "Madrid"];
            correct_answer := 2;
            difficulty := DIFFICULTY_EASY;
            category := CATEGORY_GENERAL |}.
Proof. vm_compute. reflexivity. Qed.

End ParserChecks.

(** ** The countdown (timer.c) *)
Section Countdown.
Import CInt Timer Invariants.

Lemma run_thread_add a b cd :
  run_thread (a + b) cd = run_thread b (run_thread a cd).
Proof.
  revert cd. induction a as [| a IH]; intros cd; simpl; [reflexivity |].
  apply IH.
Qed.

Lemma run_thread_done n t :
  run_thread n {| timer := t; thread := Some Done |}
  = {| timer := t; thread := Some Done |}.
Proof. induction n as [| n IH]; simpl; [reflexivity | exact IH]. Qed.

Lemma run_thread_none n t :
  run_thread n {| timer := t; thread := None |}
  = {| timer := t; thread := None |}.
Proof. induction n as [| n IH]; simpl; [reflexivity | exact IH]. Qed.

(** While [running] holds, the loop of the thread counts [remaining]
    down to zero, two steps for each second. *)
Lemma run_thread_countdown n :
  forall s r e,
    r = Z.of_nat n -> r <= INT_MAX ->
    run_thread (2 * n)
      {| timer := mkTimer s r true e; thread := Some AtCheck |}
    = {| timer := mkTimer s 0 true e; thread := Some AtCheck |}.
Proof.
  induction n as [| n IH]; intros s r e Hr Hmax.
  - simpl. subst r. reflexivity.
  - replace (2 * S n)%nat with (S (S (2 * n)))%nat by lia.
    simpl run_thread at 1. unfold step_thread at 2. simpl.
    replace (r >? 0) with true by (symmetry; apply Z.gtb_lt; lia).
    unfold step_thread at 1. simpl.
    apply IH; unfold add.
    + rewrite wrap_id; [lia |]. unfold in_int, INT_MIN, INT_MAX in *. lia.
    + rewrite wrap_id; unfold in_int, INT_MIN, INT_MAX in *; lia.
Qed.

Lemma init_ok secs cd :
  in_int secs -> timer_init secs = Some cd -> countdown_ok cd.
Proof.
  unfold timer_init, in_int. intros Hin H.
  destruct (secs <=? 0) eqn:E; [discriminate |].
  apply Z.leb_gt in E. injection H as <-.
  unfold countdown_ok; simpl. repeat split; lia.
Qed.

Lemma tick_ok cd : countdown_ok cd -> countdown_ok (step_thread cd).
Proof.
  destruct cd as [[s r run e] [pc |]]; [| intros H; exact H].
  unfold countdown_ok, step_thread; simpl.
  intros (Hs & Hr & Hf).
  destruct pc; simpl in *.
  - repeat split; lia.
  - destruct (r >? 0) eqn:E; simpl.
    + apply Z.gtb_lt in E. repeat split; tauto || lia.
    + assert (r <= 0) by (destruct (Z.gtb_spec r 0); [discriminate | lia]).
      repeat split; tauto || lia.
  - destruct Hf as (-> & -> & Hpos). simpl.
    unfold add. rewrite wrap_id by (unfold in_int, INT_MIN, INT_MAX in *; lia).
    repeat split; lia.
  - destruct Hf as (-> & -> & ->). simpl. repeat split; lia.
  - repeat split; tauto || lia.
Qed.

Lemma tick_remaining cd :
  countdown_ok cd ->
  remaining (timer (step_thread cd)) <= remaining (timer cd).
Proof.
  destruct cd as [[s r run e] [pc |]]; [| intros _; simpl; lia].
  unfold countdown_ok, step_thread; simpl.
  intros (Hs & Hr & Hf).
  destruct pc; simpl in *; try lia.
  - destruct (r >? 0); simpl; lia.
  - destruct Hf as (-> & -> & Hpos). simpl.
    unfold add. rewrite wrap_id by (unfold in_int, INT_MIN, INT_MAX in *; lia).
    lia.
Qed.

(** What [join] makes of each control point once [running] is clear. *)
Lemma join_at_init s n :
  0 < s <= INT_MAX -> n = Z.to_nat s ->
  run_thread (4 + 2 * n)
    {| timer := mkTimer s s false false; thread := Some AtInit |}
  = {| timer := mkTimer s 0 false true; thread := Some Done |}.
Proof.
  intros Hs Hn.
  replace (4 + 2 * n)%nat with (1 + (2 * n + 3))%nat by lia.
  rewrite (run_thread_add 1).
  change (run_thread 1 ?c) with (step_thread c).
  unfold step_thread at 1. cbn [timer thread thread_step seconds].
  rewrite run_thread_add.
  rewrite (run_thread_countdown n s s false) by lia.
  reflexivity.
Qed.

Lemma join_at_check s r e n :
  run_thread (4 + 2 * n)
    {| timer := mkTimer s r false e; thread := Some AtCheck |}
  = {| timer := mkTimer s r false (if r =? 0 then true else e);
       thread := Some Done |}.
Proof.
  change (4 + 2 * n)%nat with (S (S (S (S (2 * n))))).
  cbn [run_thread]. unfold step_thread. cbn.
  destruct (r >? 0); cbn; apply run_thread_done.
Qed.

Lemma join_at_tick s r e n :
  run_thread (4 + 2 * n)
    {| timer := mkTimer s r false e; thread := Some AtTick |}
  = {| timer := mkTimer s r false (if r =? 0 then true else e);
       thread := Some Done |}.
Proof.
  change (4 + 2 * n)%nat with (S (S (S (S (2 * n))))).
  cbn [run_thread]. unfold step_thread. cbn. apply run_thread_done.
Qed.

Lemma join_at_finish s r e n :
  run_thread (4 + 2 * n)
    {| timer := mkTimer s r false e; thread := Some AtFinish |}
  = {| timer := mkTimer s r false (if r =? 0 then true else e);
       thread := Some Done |}.
Proof.
  change (4 + 2 * n)%nat with (S (S (S (S (2 * n))))).
  cbn [run_thread]. unfold step_thread. cbn. apply run_thread_done.
Qed.

(** [timer_stop] on a countdown that satisfies the invariant: the thread
    has returned, the remaining time has not grown, and the expiry flag
    is raised only with the count at zero. *)
Lemma stop_ok cd pc :
  countdown_ok cd -> thread cd = Some pc ->
  let cd' := fst (timer_stop cd) in
  countdown_ok cd'
  /\ thread cd' = Some Done
  /\ seconds (timer cd') = seconds (timer cd)
  /\ remaining (timer cd') <= remaining (timer cd)
  /\ (expired (timer cd) = true -> expired (timer cd') = true)
  /\ (expired (timer cd') = true -> remaining (timer cd') = 0).
Proof.
  destruct cd as [[s r run e] th]. intros (Hs & Hr & Hf) Hth.
  cbn [timer thread seconds remaining] in Hs, Hr, Hf, Hth. subst th.
  cbv zeta. unfold timer_stop, join, join_fuel.
  cbn [timer thread seconds remaining running expired fst].
  set (n := Z.to_nat (Z.max s r)).
  destruct pc; cbn [flags_ok running expired remaining seconds] in Hf.
  - destruct Hf as (_ & -> & ->).
    rewrite join_at_init by (unfold n; lia).
    unfold countdown_ok; cbn. repeat split; lia || discriminate.
  - destruct Hf as (_ & ->). rewrite join_at_check.
    unfold countdown_ok; cbn.
    destruct (Z.eqb_spec r 0); repeat split; lia || discriminate.
  - destruct Hf as (_ & -> & Hpos). rewrite join_at_tick.
    unfold countdown_ok; cbn.
    destruct (Z.eqb_spec r 0); repeat split; lia || discriminate.
  - destruct Hf as (_ & -> & ->). rewrite join_at_finish.
    unfold countdown_ok; cbn. repeat split; lia.
  - destruct Hf as (_ & He). rewrite run_thread_done.
    unfold countdown_ok; cbn. repeat split; lia || tauto.
Qed.


Lemma start_ok cd : countdown_ok cd -> fresh cd ->
  countdown_ok (fst (timer_start cd))
  /\ timer (fst (timer_start cd)) = timer cd.
Proof.
  destruct cd as [[s r run e] th].
  unfold countdown_ok, fresh, idle, timer_start; cbn.
  intros (Hs & Hr & _) (_ & -> & -> & ->). cbn. repeat split; lia.
Qed.

Lemma reset_ok cd secs :
  countdown_ok cd -> in_int secs ->
  let cd' := fst (timer_reset cd secs) in
  countdown_ok cd'
  /\ (secs <= 0 -> cd' = cd)
  /\ (0 < secs ->
      seconds (timer cd') = secs /\ remaining (timer cd') = secs
      /\ expired (timer cd') = false /\ running (timer cd') = false
      /\ thread cd' <> Some AtCheck /\ thread cd' <> Some AtTick
      /\ thread cd' <> Some AtFinish).
Proof.
  intros Hok Hin. cbv zeta. unfold timer_reset.
  destruct (Z.leb_spec secs 0) as [Hle | Hpos]; cbn [fst].
  - split; [exact Hok | split; [reflexivity | lia]].
  - split; [| split; [lia |]].
    + destruct (running (timer cd)) eqn:Hrun.
      * destruct cd as [[s r run e] [pc |]];
          [| destruct Hok as (_ & _ & Hf); cbn in Hf, Hrun; intuition congruence].
        destruct (stop_ok _ pc Hok eq_refl) as (Hok' & Hth & _).
        destruct (fst (timer_stop _)) as [[s' r' run' e'] th'].
        cbn in Hth. subst th'.
        destruct Hok' as (_ & _ & Hf'). unfold countdown_ok; cbn in *.
        unfold in_int, INT_MIN, INT_MAX in *.
        repeat split; lia || tauto || discriminate.
      * destruct cd as [[s r run e] [[] |]];
          destruct Hok as (_ & _ & Hf); cbn in Hf, Hrun;
          unfold countdown_ok; cbn;
          unfold in_int, INT_MIN, INT_MAX in *;
          intuition (lia || congruence).
    + intros _.
      destruct (running (timer cd)) eqn:Hrun.
      * destruct cd as [[s r run e] [pc |]];
          [| destruct Hok as (_ & _ & Hf); cbn in Hf, Hrun; intuition congruence].
        destruct (stop_ok _ pc Hok eq_refl) as (Hok' & Hth & _).
        destruct (fst (timer_stop _)) as [[s' r' run' e'] th'].
        cbn in Hth. subst th'.
        destruct Hok' as (_ & _ & Hf'). cbn in *.
        repeat split; tauto || discriminate.
      * destruct cd as [[s r run e] [[] |]];
          destruct Hok as (_ & _ & Hf); cbn in Hf, Hrun; cbn;
          intuition (lia || congruence).
Qed.





(** *** The countdown as [game_ask_question] uses it *)

Lemma run_thread_ok n cd : countdown_ok cd -> countdown_ok (run_thread n cd).
Proof.
  revert cd. induction n as [| n IH]; intros cd H; [exact H |].
  cbn. apply IH, tick_ok, H.
Qed.

Lemma run_thread_remaining n cd :
  countdown_ok cd ->
  remaining (timer (run_thread n cd)) <= remaining (timer cd).
Proof.
  revert cd. induction n as [| n IH]; intros cd H; cbn; [lia |].
  pose proof (IH _ (tick_ok cd H)). pose proof (tick_remaining cd H). lia.
Qed.

Lemma tick_polling cd : polling cd -> polling (step_thread cd).
Proof.
  intros (Hok & pc & Hpc & Hdone). split; [apply tick_ok, Hok |].
  destruct cd as [[s r run e] th]. cbn in Hpc. subst th.
  destruct Hok as (_ & Hr & Hf). cbn in Hr, Hf, Hdone.
  unfold step_thread. cbn.
  destruct pc; cbn in *.
  - eexists; split; [reflexivity | discriminate].
  - destruct (r >? 0); cbn; eexists; (split; [reflexivity | discriminate]).
  - destruct Hf as (-> & _). cbn.
    eexists; split; [reflexivity | discriminate].
  - eexists; split; [reflexivity |]. intros _. tauto.
  - eexists; split; [reflexivity |]. exact Hdone.
Qed.

Lemma run_thread_polling n cd : polling cd -> polling (run_thread n cd).
Proof.
  revert cd. induction n as [| n IH]; intros cd H; [exact H |].
  cbn. apply IH, tick_polling, H.
Qed.

Lemma polling_settled cd :
  polling cd -> remaining (timer cd) <= 0 -> settled cd.
Proof.
  intros (Hok & _) Hr. split; [exact Hok |].
  destruct cd as [[s r run e] [[] |]]; try discriminate.
  destruct Hok as (Hs & _ & Hf). cbn in *. lia.
Qed.

Lemma countdown_to_done s r e k :
  0 <= r <= INT_MAX ->
  run_thread (2 * Z.to_nat r + (2 + k))
    {| timer := mkTimer s r true e; thread := Some AtCheck |}
  = {| timer := mkTimer s 0 false true; thread := Some Done |}.
Proof.
  intros Hr. rewrite run_thread_add.
  rewrite (run_thread_countdown (Z.to_nat r) s r e) by lia.
  cbn [run_thread Nat.add]. unfold step_thread. cbn.
  apply run_thread_done.
Qed.

(** Left alone, the thread of a polling countdown counts down to 0. *)
Lemma join_polling cd :
  polling cd ->
  countdown_ok (join cd) /\ thread (join cd) = Some Done
  /\ remaining (timer (join cd)) = 0.
Proof.
  intros Hp. split; [apply run_thread_ok, Hp |].
  destruct Hp as (Hok & pc & Hpc & Hdone).
  destruct cd as [[s r run e] th]. cbn in Hpc. subst th.
  destruct Hok as (Hs & Hr & Hf). cbn in Hs, Hr, Hf, Hdone.
  unfold join, join_fuel. cbn [timer thread seconds remaining].
  assert (Hn : Z.to_nat (Z.max s r) = Z.to_nat s) by (f_equal; lia).
  rewrite Hn.
  enough (exists run' e',
            run_thread (4 + 2 * Z.to_nat s)
              {| timer := mkTimer s r run e; thread := Some pc |}
            = {| timer := mkTimer s 0 run' e'; thread := Some Done |})
    as (run' & e' & ->) by (cbn; tauto).
  destruct pc; cbn in Hf.
  - destruct Hf as (-> & -> & ->).
    rewrite join_at_init by lia. eauto.
  - destruct Hf as (-> & ->).
    replace (4 + 2 * Z.to_nat s)%nat
      with (2 * Z.to_nat r + (2 + (2 + 2 * (Z.to_nat s - Z.to_nat r))))%nat
      by lia.
    rewrite countdown_to_done by lia. eauto.
  - destruct Hf as (-> & -> & Hpos).
    replace (4 + 2 * Z.to_nat s)%nat
      with (1 + (2 * Z.to_nat (r - 1)
                 + (2 + (3 + 2 * (Z.to_nat s - Z.to_nat r)))))%nat
      by lia.
    rewrite (run_thread_add 1).
    change (run_thread 1 ?c) with (step_thread c).
    unfold step_thread at 1. cbn [timer thread thread_step running negb].
    cbn [seconds remaining expired].
    unfold add. rewrite wrap_id by (unfold in_int, INT_MIN, INT_MAX in *; lia).
    replace (r + -1) with (r - 1) by lia.
    rewrite countdown_to_done by lia. eauto.
  - destruct Hf as (-> & -> & ->).
    change (4 + 2 * Z.to_nat s)%nat with (S (3 + 2 * Z.to_nat s)).
    cbn [run_thread]. unfold step_thread at 1. cbn.
    rewrite run_thread_done. eauto.
  - rewrite run_thread_done. rewrite Hdone by reflexivity. eauto.
Qed.

(** [timer_reset] followed by [timer_start], as at the head of
    [game_ask_question]: the reset leaves a fresh timer, on which the
    start is a step the countdown is allowed to take. *)
Lemma reset_start_polling cd secs :
  settled cd -> 0 < secs <= INT_MAX ->
  let cd1 := fst (timer_reset cd secs) in
  fresh cd1 /\ countdown_ok cd1 /\ polling (fst (timer_start cd1)).
Proof.
  intros (Hok & Hni) Hsecs. cbv zeta.
  assert (Hin : in_int secs) by (unfold in_int, INT_MIN, INT_MAX in *; lia).
  destruct (reset_ok cd secs Hok Hin) as (Hok1 & _ & Hset).
  destruct (Hset (proj1 Hsecs)) as (Hs & Hr & He & Hrun & H1 & H2 & H3).
  assert (Hni1 : thread (fst (timer_reset cd secs)) <> Some AtInit).
  { unfold timer_reset.
    replace (secs <=? 0) with false by (symmetry; apply Z.leb_gt; lia).
    cbn [fst thread].
    destruct (running (timer cd)) eqn:E; [| exact Hni].
    destruct cd as [t [pc |]].
    - rewrite (proj1 (proj2 (stop_ok _ pc Hok eq_refl))). discriminate.
    - destruct Hok as (_ & _ & Hf). cbn in Hf, E. intuition congruence. }
  set (cd1 := fst (timer_reset cd secs)) in *.
  assert (Hfresh : fresh cd1).
  { repeat split; try assumption; [| congruence].
    unfold idle. destruct (thread cd1) as [[] |]; tauto. }
  split; [exact Hfresh |]. split; [exact Hok1 |].
  split; [apply start_ok; assumption |].
  unfold timer_start. rewrite Hrun. cbn.
  eexists; split; [reflexivity | discriminate].
Qed.

(** Steps of the thread, and a stop while the thread exists, are steps
    the countdown is allowed to take. *)
Lemma step_thread_reachable secs cd :
  reachable secs cd -> reachable secs (step_thread cd).
Proof.
  intros H. destruct cd as [t [pc |]]; [| exact H].
  destruct pc; try exact H;
    apply (reach_step secs _ Tick H); eexists;
    (split; [reflexivity | discriminate]).
Qed.

Lemma run_thread_reachable secs n cd :
  reachable secs cd -> reachable secs (run_thread n cd).
Proof.
  revert cd. induction n as [| n IH]; intros cd H; [exact H |].
  cbn [run_thread]. apply IH, step_thread_reachable, H.
Qed.

Lemma stop_reachable secs cd :
  reachable secs cd -> polling cd -> reachable secs (fst (timer_stop cd)).
Proof.
  intros H (_ & pc & Hpc & _). apply (reach_step secs _ Stop H).
  exists pc. exact Hpc.
Qed.

Lemma reset_start_reachable secs cd s :
  reachable secs cd -> settled cd -> 0 < s <= INT_MAX ->
  reachable secs (fst (timer_start (fst (timer_reset cd s)))).
Proof.
  intros H Hset Hs.
  destruct (reset_start_polling cd s Hset Hs) as (Hfresh & _ & _).
  apply (reach_step secs _ Start); [| exact Hfresh].
  apply (reach_step secs _ (Reset s) H).
  cbn [enabled]. unfold in_int, INT_MIN, INT_MAX in *. lia.
Qed.

End Countdown.

(** ** Reading an answer (game.c, utils.c) *)
Section Reading.
Import CString Utils Questions Timer Game.

Lemma valid_integer_not_quit s n :
  is_valid_integer s = Some n -> is_quit s = false.
Proof.
  destruct s as [| c s']; [reflexivity |]. intros H.
  unfold is_quit. apply orb_false_intro.
  - destruct (Ascii.eqb_spec c "q"%char) as [-> |]; [| reflexivity].
    cbn in H. discriminate.
  - destruct (Ascii.eqb_spec c "Q"%char) as [-> |]; [| reflexivity].
    cbn in H. discriminate.
Qed.

Lemma read_line_quit raw :
  is_quit (sanitize_input raw) = true -> read_line raw = ReadQuit.
Proof. unfold read_line. intros ->. reflexivity. Qed.

Lemma read_line_integer raw n :
  is_valid_integer (sanitize_input raw) = Some n ->
  read_line raw
  = if (n >=? 1) && (n <=? MAX_OPTIONS) then ReadAnswer n else ReadOther.
Proof.
  intros H. unfold read_line.
  rewrite (valid_integer_not_quit _ _ H), H. reflexivity.
Qed.

(** The turn of the polling loop in which a line is read. *)
Lemma ask_loop_line cd p ps raw :
  timer_get_remaining (run_thread (ticks_cond p) cd) > 0 ->
  timer_is_expired
    (run_thread (ticks_expired p) (run_thread (ticks_cond p) cd)) = false ->
  select p = Line raw ->
  let cd3 := run_thread (ticks_select p)
               (run_thread (ticks_expired p)
                  (run_thread (ticks_cond p) cd)) in
  ask_loop cd (p :: ps)
  = match read_line raw with
    | ReadQuit => Some (fst (timer_stop cd3), -1, [])
    | ReadAnswer answer => Some (fst (timer_stop cd3), answer, [])
    | ReadOther =>
        '(cd', r, out) ← ask_loop (run_thread (ticks_display p) cd3) ps;
        Some (cd', r,
              OutInvalid
                :: OutTimeRemaining
                     (timer_get_remaining (run_thread (ticks_display p) cd3))
                :: out)
    end.
Proof.
  intros Hrem Hexp Hsel. cbv zeta. cbn [ask_loop].
  replace (timer_get_remaining (run_thread (ticks_cond p) cd) >? 0)
    with true by (symmetry; apply Z.gtb_lt; lia).
  rewrite Hexp, Hsel. reflexivity.
Qed.

(** [game_ask_question] touches nothing but the timer. *)
Lemma ask_question_frame st q inp st' r out :
  game_ask_question st q inp = Some (st', r, out) ->
  stats st' = stats st /\ players st' = players st
  /\ current_player st' = current_player st /\ config st' = config st
  /\ question_bank st' = question_bank st
  /\ game_active st' = game_active st.
Proof.
  unfold game_ask_question.
  destruct (use_timer (config st)).
  - destruct (ask_loop _ _) as [[[cd r'] out'] |]; [| discriminate].
    cbn. intros [= <- <- <-]. cbn. tauto.
  - intros [= <- <- <-]. tauto.
Qed.

End Reading.

(** ** Rounds and turns (game.c) *)
Section Rounds.
Import CInt CString Utils Questions Timer Game Spec Invariants.

Lemma credited_app acc out1 out2 :
  credited acc (out1 ++ out2) = credited (credited acc out1) out2.
Proof. unfold credited. apply fold_left_app. Qed.

Lemma timer_init_settled secs cd :
  timer_init secs = Some cd -> in_int secs ->
  settled cd /\ 0 < secs <= INT_MAX.
Proof.
  intros EI Hin. split; [split |].
  - exact (init_ok _ _ Hin EI).
  - unfold timer_init in EI. destruct (secs <=? 0); [discriminate |].
    injection EI as <-. discriminate.
  - unfold timer_init in EI.
    destruct (Z.leb_spec secs 0); [discriminate |].
    unfold in_int in Hin. lia.
Qed.

Lemma init_state_ok mem bank cfg st :
  game_init mem bank cfg = Some st ->
  in_int (time_per_question cfg) ->
  state_ok st /\ config st = cfg /\ question_bank st = bank
  /\ stats st = mkStats 0 0 0 0 0 /\ current_player st = 0
  /\ game_active st = false.
Proof.
  unfold game_init. destruct bank as [b |]; [| discriminate].
  intros H Hin.
  set (st0 := {| question_bank := Some b; config := cfg;
                 stats := mkStats 0 0 0 0 0; players := [];
                 current_player := 0; timer := timer mem;
                 game_active := false |}) in *.
  assert (Hpl : exists ps,
             (if num_players cfg >? 1 then game_init_players st0
              else Some st0) = Some (set_players st0 ps)
             /\ (num_players cfg > 1 ->
                 length ps = Z.to_nat (num_players cfg))).
  { destruct (Z.gtb_spec (num_players cfg) 1) as [HN | HN].
    - unfold game_init_players. cbn [config st0].
      replace (num_players cfg <? 2) with false
        by (symmetry; apply Z.ltb_ge; lia).
      eexists. split; [reflexivity |]. intros _. apply length_replicate.
    - exists []. split; [reflexivity | lia]. }
  destruct Hpl as (ps & Hps & Hlen). rewrite Hps in H. cbn [mbind option_bind] in H.
  destruct (use_timer cfg) eqn:ET.
  - destruct (timer_init (time_per_question cfg)) as [cd |] eqn:EI;
      [| discriminate].
    cbn in H. injection H as <-.
    destruct (timer_init_settled _ _ EI Hin) as (Hset & Hsecs).
    unfold state_ok. cbn. tauto.
  - injection H as <-. unfold state_ok. cbn. rewrite ET.
    split; [split; [discriminate | exact Hlen] | tauto].
Qed.

(** The polling loop always ends, it leaves the countdown settled, and
    it credits no points. *)
Lemma ask_loop_total ps :
  forall cd, polling cd ->
    exists cd' r out,
      ask_loop cd ps = Some (cd', r, out)
      /\ settled cd' /\ (forall acc, credited acc out = acc).
Proof.
  induction ps as [| p ps IH]; intros cd Hp.
  - cbn [ask_loop]. destruct (join_polling cd Hp) as (Hok & Hth & Hr).
    set (cdj := join cd) in *.
    unfold timer_get_remaining. rewrite Hr.
    change (0 >? 0) with false. cbv iota.
    eexists _, _, _. split; [reflexivity |]. split; [| reflexivity].
    split; [exact Hok | congruence].
  - cbn [ask_loop].
    pose proof (run_thread_polling (ticks_cond p) cd Hp) as Hp1.
    set (cd1 := run_thread (ticks_cond p) cd) in *.
    destruct (timer_get_remaining cd1 >? 0) eqn:Erem.
    2:{ eexists _, _, _. split; [reflexivity |]. split; [| reflexivity].
        apply polling_settled; [exact Hp1 |].
        unfold timer_get_remaining in Erem.
        destruct (Z.gtb_spec (remaining (Timer.timer cd1)) 0); [discriminate | lia]. }
    pose proof (run_thread_polling (ticks_expired p) cd1 Hp1) as Hp2.
    set (cd2 := run_thread (ticks_expired p) cd1) in *.
    assert (Hstop : forall c, polling c -> settled (fst (timer_stop c))).
    { intros c (Hokc & pc & Hpc & _).
      destruct (stop_ok c pc Hokc Hpc) as (Hok' & Hth' & _).
      split; [exact Hok' | congruence]. }
    destruct (timer_is_expired cd2) eqn:Eexp.
    { eexists _, _, _. split; [reflexivity |].
      split; [apply Hstop, Hp2 | reflexivity]. }
    pose proof (run_thread_polling (ticks_select p) cd2 Hp2) as Hp3.
    set (cd3 := run_thread (ticks_select p) cd2) in *.
    pose proof (run_thread_polling (ticks_display p) cd3 Hp3) as Hp4.
    destruct (IH _ Hp4) as (cd' & r & out & Heq & Hset & Hcr).
    assert (Hgo : forall o, (forall acc, credited acc o = acc) ->
              exists cd' r out,
                ('(cd', r, out') ← ask_loop (run_thread (ticks_display p) cd3) ps;
                 Some (cd', r,
                       o ++ OutTimeRemaining
                              (timer_get_remaining
                                 (run_thread (ticks_display p) cd3)) :: out'))
                = Some (cd', r, out)
                /\ settled cd' /\ (forall acc, credited acc out = acc)).
    { intros o Ho. rewrite Heq. cbn.
      eexists _, _, _. split; [reflexivity |]. split; [exact Hset |].
      intros acc. rewrite credited_app, Ho. cbn. apply Hcr. }
    destruct (select p) as [| | raw].
    + apply (Hgo []). reflexivity.
    + apply (Hgo []). reflexivity.
    + destruct (read_line raw).
      * eexists _, _, _. split; [reflexivity |].
        split; [apply Hstop, Hp3 | reflexivity].
      * eexists _, _, _. split; [reflexivity |].
        split; [apply Hstop, Hp3 | reflexivity].
      * apply (Hgo [OutInvalid]). reflexivity.
Qed.

Lemma ask_question_total st q inp :
  state_ok st ->
  exists st' r out,
    game_ask_question st q inp = Some (st', r, out)
    /\ state_ok st' /\ (forall acc, credited acc out = acc).
Proof.
  intros (Ht & Hpl). unfold game_ask_question.
  destruct (use_timer (config st)) eqn:ET.
  - destruct (Ht eq_refl) as (Hset & Hsecs).
    destruct (reset_start_polling _ _ Hset Hsecs) as (_ & _ & Hpoll).
    destruct (ask_loop_total (polls inp) _ Hpoll)
      as (cd' & r & out & -> & Hset' & Hcr).
    cbn. eexists _, _, _. split; [reflexivity |]. split.
    + unfold state_ok. cbn. split; [intros _; tauto | exact Hpl].
    + intros acc. exact (Hcr acc).
  - eexists _, _, _. split; [reflexivity |]. split.
    + unfold state_ok. rewrite ET. split; [discriminate | exact Hpl].
    + intros acc. reflexivity.
Qed.

Lemma run_thread_settled n cd : settled cd -> settled (run_thread n cd).
Proof.
  revert cd. induction n as [| n IH]; intros cd H; [exact H |].
  cbn [run_thread]. apply IH. destruct H as (Hok & Hni).
  split; [apply tick_ok, Hok |].
  destruct cd as [t [pc |]]; [| exact Hni].
  unfold step_thread. cbn. destruct pc; cbn; try discriminate.
  - destruct (remaining t >? 0); discriminate.
  - destruct (negb (running t)); discriminate.
Qed.

Lemma update_stats_spec s q r c t :
  let '(s', o) := update_stats s q r c t in
  score s' = credited (score s) [o].
Proof.
  unfold update_stats.
  destruct (r =? 0); [reflexivity |]. destruct c; reflexivity.
Qed.

Lemma update_player_name p q r c t :
  Player.name (fst (update_player p q r c t)) = Player.name p.
Proof.
  unfold update_player.
  destruct (r =? 0); [reflexivity |]. destruct c; reflexivity.
Qed.

Lemma next_player_facts st :
  config (game_next_player st) = config st
  /\ stats (game_next_player st) = stats st
  /\ players (game_next_player st) = players st
  /\ timer (game_next_player st) = timer st
  /\ question_bank (game_next_player st) = question_bank st
  /\ game_active (game_next_player st) = game_active st.
Proof.
  unfold game_next_player.
  destruct (num_players (config st) <=? 1); cbn; tauto.
Qed.

(** The body of the game loop: the question is always asked to its end;
    a round that is left early changes nothing but the timer; a round
    that is played stays in [wait_for_enter] exactly when no Enter
    arrives; otherwise it passes the turn, and credits its points to the
    statistics of the single player or to nobody's statistics at all. *)
Lemma game_round_spec bank st inp :
  state_ok st ->
  match game_round bank st inp with
  | Endless => False
  | Waiting st' out => wait_for_enter (pending (config st) inp) = None
  | Break st' out =>
      state_ok st' /\ config st' = config st /\ stats st' = stats st
      /\ players st' = players st
      /\ current_player st' = current_player st
      /\ game_active st' = game_active st
      /\ (forall acc, credited acc out = acc)
  | Next st' out =>
      state_ok st' /\ config st' = config st
      /\ game_active st' = game_active st
      /\ current_player st' = current_player (game_next_player st)
      /\ (num_players (config st) > 1 -> stats st' = stats st)
      /\ (num_players (config st) <= 1 ->
          players st' = players st
          /\ score (stats st') = credited (score (stats st)) out)
      /\ wait_for_enter (pending (config st) inp) <> None
  end.
Proof.
  intros Hok. unfold game_round.
  destruct (question_bank_get_random _ _ _) as [q |].
  2:{ split; [exact Hok | repeat split; reflexivity]. }
  destruct (ask_question_total st q inp Hok)
    as (st1 & r & out & Heq & Hok1 & Hcr).
  rewrite Heq.
  destruct (ask_question_frame _ _ _ _ _ _ Heq)
    as (Hst & Hpl & Hcur & Hcfg & Hbank & Hact).
  destruct (r =? -1).
  { split; [exact Hok1 |]. do 5 (split; [assumption |]).
    intros acc. rewrite credited_app, Hcr. reflexivity. }
  set (st2 := set_timer st1 (run_thread (ticks_score inp) (timer st1))).
  assert (Hok2 : state_ok st2).
  { destruct Hok1 as (Ht & Hlen). split; [| exact Hlen].
    intros Hu. destruct (Ht Hu) as (Hset & Hsecs).
    split; [apply run_thread_settled, Hset | exact Hsecs]. }
  set (correct := r =? add (correct_answer q) 1).
  set (time_remaining := if use_timer (config st) then _ else _).
  destruct (wait_for_enter (pending (config st) inp)) as [rest |] eqn:Ew.
  2:{ match goal with
      | |- context [let '(a, b) := ?X in _] => destruct X
      end.
      reflexivity. }
  destruct (Z.gtb_spec (num_players (config st)) 1) as [HN | HN].
  - (* several players *)
    assert (Hnext : forall st3 out1,
               state_ok st3 -> config st3 = config st ->
               stats st3 = stats st -> game_active st3 = game_active st ->
               current_player st3 = current_player st ->
               match Next (game_next_player st3) out1 with
               | Next st' out' =>
                   state_ok st' /\ config st' = config st
                   /\ game_active st' = game_active st
                   /\ current_player st'
                      = current_player (game_next_player st)
                   /\ (num_players (config st) > 1 -> stats st' = stats st)
                   /\ (num_players (config st) <= 1 ->
                       players st' = players st
                       /\ score (stats st')
                          = credited (score (stats st)) out')
                   /\ Some rest <> None
               | _ => False
               end).
    { intros st3 out1 Hok3 Hc3 Hs3 Ha3 Hcur3.
      destruct (next_player_facts st3) as (E1 & E2 & E3 & E4 & E5 & E6).
      split; [unfold state_ok; rewrite E1, E3, E4; exact Hok3 |].
      split; [congruence |]. split; [congruence |].
      split;
        [| split; [intros _; congruence | split; [intros; lia | discriminate]]].
      unfold game_next_player. rewrite Hc3.
      destruct (num_players (config st) <=? 1); cbn; congruence. }
    destruct (game_get_current_player st2) as [i |].
    + destruct (players st2 !! i) as [pl |].
      * destruct (update_player pl q r correct time_remaining) as [p' o].
        apply Hnext; try (cbn; congruence).
        destruct Hok2 as (Ht & Hlen). split; [exact Ht |].
        cbn. rewrite length_insert. exact Hlen.
      * apply Hnext; solve [exact Hok2 | cbn; congruence].
    + apply Hnext; solve [exact Hok2 | cbn; congruence].
  - (* one player *)
    pose proof (update_stats_spec (stats st2) q r correct time_remaining) as Hup.
    destruct (update_stats (stats st2) q r correct time_remaining) as [s' o].
    split; [exact Hok2 |].
    split; [cbn; congruence |]. split; [cbn; congruence |].
    split; [| split; [intros; lia | split; [intros _; split | discriminate]]].
    + cbn. unfold game_next_player.
      replace (num_players (config st) <=? 1) with true
        by (symmetry; apply Z.leb_le; lia).
      congruence.
    + cbn. congruence.
    + cbn [stats set_stats]. rewrite app_nil_r, !credited_app, Hcr, Hup.
      cbn. rewrite Hst. reflexivity.
Qed.

(** [game_next_player] moves the turn from [i mod N] to [(i+1) mod N]. *)
Lemma next_player_mod st i :
  1 < num_players (config st) <= INT_MAX -> 0 <= i ->
  current_player st = i mod num_players (config st) ->
  current_player (game_next_player st)
  = (i + 1) mod num_players (config st).
Proof.
  intros HN Hi Hcur. unfold game_next_player.
  replace (num_players (config st) <=? 1) with false
    by (symmetry; apply Z.leb_gt; lia).
  cbn [current_player set_current_player].
  set (N := num_players (config st)) in *.
  pose proof (Z.mod_pos_bound i N ltac:(lia)) as Hb.
  unfold rem, add. rewrite Hcur.
  rewrite (wrap_id (i mod N + 1))
    by (unfold in_int, INT_MIN, INT_MAX in *; lia).
  rewrite Z.rem_mod_nonneg by lia.
  rewrite Z.add_mod_idemp_l by lia.
  pose proof (Z.mod_pos_bound (i + 1) N ltac:(lia)).
  apply wrap_id. unfold in_int, INT_MIN, INT_MAX in *. lia.
Qed.

(** The game loop, when it is left, has kept the configuration; with
    several players it leaves the statistics of the single player alone
    and the turn at [i mod N] for the value [i] of its counter; with one
    player it leaves the turn alone and adds the points it credits to
    the score. *)
Lemma game_loop_inv bank script fuel :
  forall i st st' i' out,
    state_ok st -> 0 <= i ->
    game_loop fuel i bank st script = Some (st', i', out) ->
    state_ok st' /\ config st' = config st
    /\ game_active st' = game_active st
    /\ i <= i' <= i + Z.of_nat fuel
    /\ (num_players (config st) > 1 -> stats st' = stats st)
    /\ (1 < num_players (config st) <= INT_MAX ->
        current_player st = i mod num_players (config st) ->
        current_player st' = i' mod num_players (config st))
    /\ (num_players (config st) <= 1 ->
        current_player st' = current_player st
        /\ players st' = players st
        /\ score (stats st') = credited (score (stats st)) out).
Proof.
  induction fuel as [| fuel IH]; intros i st st' i' out Hok Hi.
  - cbn [game_loop]. intros [= <- <- <-]. split; [exact Hok |].
    do 2 (split; [reflexivity |]). split; [lia |].
    do 2 (split; [auto |]). intros _. cbn. auto.
  - cbn [game_loop].
    pose proof (game_round_spec bank st (script (Z.to_nat i)) Hok) as Hr.
    destruct (game_round bank st (script (Z.to_nat i)))
      as [| st1 out1 | st1 out1 | st1 out1]; try discriminate.
    + destruct Hr as (Hok1 & Hcfg & Hst & Hpl & Hcur & Hact & Hcr).
      intros [= <- <- <-]. split; [exact Hok1 |].
      split; [exact Hcfg |]. split; [exact Hact |]. split; [lia |].
      split; [auto |]. split; [intros; congruence |].
      intros _. rewrite Hcr, Hst. auto.
    + destruct Hr as (Hok1 & Hcfg & Hact & Hcur & Hst & Hone & _).
      destruct (game_loop fuel (i + 1) bank st1 script)
        as [[[st2 i2] out2] |] eqn:Heq; [| discriminate].
      cbn. intros [= <- <- <-].
      destruct (IH (i + 1) st1 st2 i2 out2 Hok1 ltac:(lia) Heq)
        as (Hok2 & Hcfg2 & Hact2 & Hi2 & Hst2 & Hcur2 & Hone2).
      split; [exact Hok2 |]. split; [congruence |]. split; [congruence |].
      split; [lia |]. rewrite Hcfg in *.
      split; [intros HN; rewrite Hst2, Hst by exact HN; reflexivity |].
      split.
      * intros HN Hc. apply Hcur2; [exact HN |].
        rewrite Hcur. apply next_player_mod; assumption.
      * intros HN. destruct (Hone HN) as (Hpl1 & Hsc1).
        destruct (Hone2 HN) as (Hc2 & Hpl2 & Hsc2).
        split; [| split; [congruence |]].
        -- rewrite Hc2, Hcur. unfold game_next_player.
           replace (num_players (config st) <=? 1) with true
             by (symmetry; apply Z.leb_le; lia).
           reflexivity.
        -- rewrite credited_app, <- Hsc1. exact Hsc2.
Qed.

(** The game loop is left whenever every round finds its Enter key. *)
Lemma game_loop_total bank script fuel :
  forall i st,
    state_ok st -> entered (config st) script ->
    exists res, game_loop fuel i bank st script = Some res.
Proof.
  induction fuel as [| fuel IH]; intros i st Hok Hent; [cbn; eauto |].
  cbn [game_loop].
  pose proof (game_round_spec bank st (script (Z.to_nat i)) Hok) as Hr.
  destruct (game_round bank st (script (Z.to_nat i)))
    as [| st1 out1 | st1 out1 | st1 out1].
  - destruct Hr.
  - destruct (Hent (Z.to_nat i) Hr).
  - eauto.
  - destruct Hr as (Hok1 & Hcfg & _).
    destruct (IH (i + 1) st1 Hok1 ltac:(rewrite Hcfg; exact Hent))
      as ([[st2 i2] out2] & ->).
    cbn. eauto.
Qed.

Lemma game_loop_spec bank script fuel :
  forall i st,
    state_ok st -> 0 <= i -> entered (config st) script ->
    exists st' i' out,
      game_loop fuel i bank st script = Some (st', i', out)
      /\ state_ok st' /\ config st' = config st
      /\ game_active st' = game_active st
      /\ i <= i' <= i + Z.of_nat fuel
      /\ (num_players (config st) > 1 -> stats st' = stats st)
      /\ (1 < num_players (config st) <= INT_MAX ->
          current_player st = i mod num_players (config st) ->
          current_player st' = i' mod num_players (config st))
      /\ (num_players (config st) <= 1 ->
          current_player st' = current_player st
          /\ players st' = players st
          /\ score (stats st') = credited (score (stats st)) out).
Proof.
  intros i st Hok Hi Hent.
  destruct (game_loop_total bank script fuel i st Hok Hent)
    as ([[st' i'] out] & Heq).
  exists st', i', out. split; [exact Heq |].
  exact (game_loop_inv bank script fuel i st st' i' out Hok Hi Heq).
Qed.

(** When the first [k] rounds run to their end, the loop goes on from
    the state they leave. *)
Lemma game_loop_play bank script fuel k :
  forall i st st_k out_k,
    play k i bank st script = Some (st_k, out_k) ->
    game_loop (k + fuel) i bank st script
    = ('(st', i', out) ← game_loop fuel (i + Z.of_nat k) bank st_k script;
       Some (st', i', out_k ++ out)).
Proof.
  induction k as [| k IH]; intros i st st_k out_k Hplay.
  - cbn in Hplay. injection Hplay as <- <-. cbn [Nat.add Z.of_nat].
    rewrite Z.add_0_r.
    destruct (game_loop fuel i bank st script) as [[[? ?] ?] |]; reflexivity.
  - cbn [play] in Hplay. cbn [Nat.add game_loop].
    destruct (game_round bank st (script (Z.to_nat i)))
      as [| ? ? | ? ? | st1 out1]; try discriminate.
    destruct (play k (i + 1) bank st1 script) as [[st2 out2] |] eqn:E;
      [| discriminate].
    cbn in Hplay. injection Hplay as <- <-.
    rewrite (IH _ _ _ _ E).
    replace (i + 1 + Z.of_nat k) with (i + Z.of_nat (S k)) by lia.
    destruct (game_loop fuel _ bank st2 script) as [[[? ?] ?] |]; cbn;
      [| reflexivity].
    now rewrite app_assoc.
Qed.

Lemma play_loop bank script k i st st_k out_k :
  play k i bank st script = Some (st_k, out_k) ->
  game_loop k i bank st script = Some (st_k, i + Z.of_nat k, out_k).
Proof.
  intros H. pose proof (game_loop_play bank script 0 k i st st_k out_k H) as E.
  rewrite Nat.add_0_r in E. rewrite E. cbn. now rewrite app_nil_r.
Qed.

(** *** The game drives the countdown by the steps of [reachable] *)

Lemma ask_loop_reachable secs ps :
  forall cd cd' r out,
    reachable secs cd -> polling cd ->
    ask_loop cd ps = Some (cd', r, out) -> reachable secs cd'.
Proof.
  induction ps as [| p ps IH]; intros cd cd' r out Hre Hp; cbn [ask_loop].
  - destruct (timer_get_remaining (join cd) >? 0); [discriminate |].
    intros [= <- _ _]. apply run_thread_reachable, Hre.
  - pose proof (run_thread_polling (ticks_cond p) cd Hp) as Hp1.
    pose proof (run_thread_reachable secs (ticks_cond p) cd Hre) as Hre1.
    set (cd1 := run_thread (ticks_cond p) cd) in *.
    destruct (timer_get_remaining cd1 >? 0).
    2:{ intros [= <- _ _]. exact Hre1. }
    pose proof (run_thread_polling (ticks_expired p) cd1 Hp1) as Hp2.
    pose proof (run_thread_reachable secs (ticks_expired p) cd1 Hre1) as Hre2.
    set (cd2 := run_thread (ticks_expired p) cd1) in *.
    destruct (timer_is_expired cd2).
    { intros [= <- _ _]. apply stop_reachable; assumption. }
    pose proof (run_thread_polling (ticks_select p) cd2 Hp2) as Hp3.
    pose proof (run_thread_reachable secs (ticks_select p) cd2 Hre2) as Hre3.
    set (cd3 := run_thread (ticks_select p) cd2) in *.
    pose proof (run_thread_polling (ticks_display p) cd3 Hp3) as Hp4.
    pose proof (run_thread_reachable secs (ticks_display p) cd3 Hre3) as Hre4.
    assert (Hgo : forall o,
              ('(c, r', out') ← ask_loop (run_thread (ticks_display p) cd3) ps;
               Some (c, r',
                     o ++ OutTimeRemaining
                            (timer_get_remaining
                               (run_thread (ticks_display p) cd3)) :: out'))
              = Some (cd', r, out) -> reachable secs cd').
    { intros o.
      destruct (ask_loop (run_thread (ticks_display p) cd3) ps)
        as [[[c r'] out'] |] eqn:E; [| discriminate].
      cbn. intros [= <- _ _]. exact (IH _ _ _ _ Hre4 Hp4 E). }
    destruct (select p) as [| | raw]; [apply Hgo | apply Hgo |].
    destruct (read_line raw); [| | apply Hgo];
      intros [= <- _ _]; apply stop_reachable; assumption.
Qed.

Lemma ask_question_reachable secs st q inp st' r out :
  state_ok st -> reachable secs (timer st) ->
  game_ask_question st q inp = Some (st', r, out) ->
  reachable secs (timer st').
Proof.
  intros (Ht & _) Hre. unfold game_ask_question.
  destruct (use_timer (config st)) eqn:ET.
  - destruct (Ht eq_refl) as (Hset & Hsecs).
    destruct (reset_start_polling _ _ Hset Hsecs) as (_ & _ & Hpoll).
    pose proof (reset_start_reachable secs _ _ Hre Hset Hsecs) as Hre1.
    destruct (ask_loop _ (polls inp)) as [[[cd r'] out'] |] eqn:E;
      [| discriminate].
    cbn. intros [= <- _ _]. cbn.
    exact (ask_loop_reachable secs _ _ _ _ _ Hre1 Hpoll E).
  - intros [= <- _ _]. exact Hre.
Qed.

(** The timer a turn of the game loop leaves behind. *)
Lemma game_round_timer bank st inp :
  match game_round bank st inp with
  | Endless | Waiting _ _ => True
  | Break st' _ =>
      timer st' = timer st
      \/ exists q r out, game_ask_question st q inp = Some (st', r, out)
  | Next st' _ =>
      exists q st1 r out,
        game_ask_question st q inp = Some (st1, r, out)
        /\ timer st' = run_thread (ticks_score inp) (timer st1)
  end.
Proof.
  unfold game_round.
  destruct (question_bank_get_random _ _ _) as [q |]; [| now left].
  destruct (game_ask_question st q inp) as [[[st1 r] out] |] eqn:E;
    [| exact I].
  destruct (r =? -1); [right; eauto |].
  cbv zeta.
  assert (Hnext : forall st3,
            timer (game_next_player st3) = timer st3).
  { intros st3. apply (next_player_facts st3). }
  destruct (wait_for_enter (pending (config st) inp)) as [rest |].
  2:{ match goal with
      | |- context [let '(a, b) := ?X in _] => destruct X
      end.
      exact I. }
  destruct (num_players (config st) >? 1).
  - set (st2 := set_timer st1 _).
    destruct (game_get_current_player st2) as [i |].
    + destruct (players st2 !! i) as [pl |].
      * destruct (update_player _ _ _ _ _) as [p' o].
        exists q, st1, r, out. split; [exact E |].
        now rewrite Hnext.
      * exists q, st1, r, out. split; [exact E |]. now rewrite Hnext.
    + exists q, st1, r, out. split; [exact E |]. now rewrite Hnext.
  - destruct (update_stats _ _ _ _ _) as [s' o].
    exists q, st1, r, out. split; [exact E | reflexivity].
Qed.

Lemma game_round_reachable secs bank st inp :
  state_ok st -> reachable secs (timer st) ->
  match game_round bank st inp with
  | Endless | Waiting _ _ => True
  | Break st' _ | Next st' _ => reachable secs (timer st')
  end.
Proof.
  intros Hok Hre. pose proof (game_round_timer bank st inp) as H.
  destruct (game_round bank st inp) as [| st' out | st' out | st' out];
    [exact I | exact I | |].
  - destruct H as [-> | (q & r & o & E)]; [exact Hre |].
    exact (ask_question_reachable secs _ _ _ _ _ _ Hok Hre E).
  - destruct H as (q & st1 & r & o & E & ->).
    apply run_thread_reachable.
    exact (ask_question_reachable secs _ _ _ _ _ _ Hok Hre E).
Qed.

Lemma game_loop_reachable secs bank script fuel :
  forall i st st' i' out,
    state_ok st -> reachable secs (timer st) ->
    game_loop fuel i bank st script = Some (st', i', out) ->
    reachable secs (timer st').
Proof.
  induction fuel as [| fuel IH]; intros i st st' i' out Hok Hre;
    cbn [game_loop].
  - intros [= <- _ _]. exact Hre.
  - pose proof (game_round_spec bank st (script (Z.to_nat i)) Hok) as Hs.
    pose proof (game_round_reachable secs bank st (script (Z.to_nat i))
                  Hok Hre) as Hr.
    destruct (game_round bank st (script (Z.to_nat i)))
      as [| st1 out1 | st1 out1 | st1 out1]; [discriminate | discriminate | |].
    + intros [= <- _ _]. exact Hr.
    + destruct (game_loop fuel (i + 1) bank st1 script)
        as [[[st2 i2] out2] |] eqn:E; [| discriminate].
      cbn. intros [= <- _ _].
      exact (IH _ _ _ _ _ (proj1 Hs) Hr E).
Qed.

(** From [game_init] to the end of [game_run], the timer of a timed game
    is only ever driven by the steps [reachable] allows: it is
    initialised once, reset and started afresh for each question, left to
    its thread while the player is polled, and stopped when the question
    is over. *)
Lemma game_timer_reachable mem bank cfg st start script st' res out :
  game_init mem bank cfg = Some st ->
  in_int (time_per_question cfg) -> use_timer cfg = true ->
  game_run st start script = Some (st', res, out) ->
  reachable (time_per_question cfg) (timer st').
Proof.
  intros Hinit Hin Hu.
  destruct (init_state_ok _ _ _ _ Hinit Hin) as (Hok & Hcfg & _).
  assert (Hre : reachable (time_per_question cfg) (timer st)).
  { unfold game_init in Hinit. destruct bank as [b |]; [| discriminate].
    destruct (if num_players cfg >? 1 then _ else _) as [st0 |] eqn:E0;
      [| discriminate].
    cbn [mbind option_bind] in Hinit. rewrite Hu in Hinit.
    destruct (timer_init (time_per_question cfg)) as [cd |] eqn:EI;
      [| discriminate].
    cbn in Hinit. injection Hinit as <-. cbn.
    apply reach_init; assumption. }
  unfold game_run. destruct (question_bank st) as [b |].
  2:{ intros [= <- _ _]. exact Hre. }
  destruct (wait_for_enter start) as [rest |]; [| discriminate].
  cbn [mbind option_bind].
  destruct (game_loop _ 0 b (set_game_active st true) script)
    as [[[st1 i1] out1] |] eqn:E; [| discriminate].
  cbn [mbind option_bind].
  destruct (game_display_stats (set_game_active st1 false)); [| discriminate].
  cbn. intros [= <- _ _]. cbn.
  refine (game_loop_reachable _ _ _ _ _ _ _ _ _ _ _ E); [| exact Hre].
  exact Hok.
Qed.

End Rounds.

(** ** The final report (game.c) *)
Section Report.
Import CInt Questions Timer Game Spec Invariants.

Lemma winner_inv_snoc l m w t x :
  winner_inv l m w t ->
  let '(m', w', t') :=
    if Player.score x >? m then (Player.score x, length l, false)
    else if Player.score x =? m then (m, w, true)
    else (m, w, t) in
  winner_inv (l ++ [x]) m' w' t'.
Proof.
  intros ((p & Hp & Hpm) & Hmax & Htie).
  assert (Hw : (w < length l)%nat) by (eapply lookup_lt_Some; eauto).
  destruct (Z.gtb_spec (Player.score x) m) as [Hgt | Hle].
  - split; [| split].
    + exists x. split; [| reflexivity].
      rewrite lookup_app_r by lia. now rewrite Nat.sub_diag.
    + intros j q Hj. apply lookup_app_Some in Hj as [Hj | (_ & Hj)].
      * specialize (Hmax _ _ Hj). lia.
      * apply list_lookup_singleton_Some in Hj as (_ & <-). lia.
    + split; [discriminate |]. intros (j & q & Hne & Hj & Hq).
      apply lookup_app_Some in Hj as [Hj | (Hge & Hj)].
      * specialize (Hmax _ _ Hj). lia.
      * apply list_lookup_singleton_Some in Hj as (Hz & _). lia.
  - destruct (Z.eqb_spec (Player.score x) m) as [Heq | Hne].
    + split; [| split].
      * exists p. split; [| exact Hpm]. now apply lookup_app_l_Some.
      * intros j q Hj. apply lookup_app_Some in Hj as [Hj | (_ & Hj)].
        -- exact (Hmax _ _ Hj).
        -- apply list_lookup_singleton_Some in Hj as (_ & <-). lia.
      * split; [| reflexivity]. intros _.
        exists (length l), x. split; [lia |]. split; [| exact Heq].
        rewrite lookup_app_r by lia. now rewrite Nat.sub_diag.
    + split; [| split].
      * exists p. split; [| exact Hpm]. now apply lookup_app_l_Some.
      * intros j q Hj. apply lookup_app_Some in Hj as [Hj | (_ & Hj)].
        -- exact (Hmax _ _ Hj).
        -- apply list_lookup_singleton_Some in Hj as (_ & <-). lia.
      * rewrite Htie. split.
        -- intros (j & q & Hj1 & Hj2 & Hj3). exists j, q.
           split; [exact Hj1 |]. split; [| exact Hj3].
           now apply lookup_app_l_Some.
        -- intros (j & q & Hj1 & Hj2 & Hj3). exists j, q.
           split; [exact Hj1 |]. split; [| exact Hj3].
           apply lookup_app_Some in Hj2 as [Hj2 | (_ & Hj2)];
             [exact Hj2 |].
           apply list_lookup_singleton_Some in Hj2 as (_ & <-). lia.
Qed.

Lemma find_winner_inv ps :
  forall l m w t,
    winner_inv l m w t ->
    exists m' w' t',
      find_winner ps (Z.of_nat (length l)) m (Z.of_nat w) t
      = (m', Z.of_nat w', t')
      /\ winner_inv (l ++ ps) m' w' t'.
Proof.
  induction ps as [| x ps IH]; intros l m w t Hinv.
  - exists m, w, t. rewrite app_nil_r. split; [reflexivity | exact Hinv].
  - cbn [find_winner].
    pose proof (winner_inv_snoc l m w t x Hinv) as Hstep.
    replace (Z.of_nat (length l) + 1) with (Z.of_nat (length (l ++ [x])))
      by (rewrite length_app; cbn; lia).
    replace (l ++ x :: ps) with ((l ++ [x]) ++ ps)
      by (now rewrite <- app_assoc).
    destruct (Player.score x >? m).
    + apply IH, Hstep.
    + destruct (Player.score x =? m); apply IH, Hstep.
Qed.

Lemma winner_inv_sole l m w :
  winner_inv l m w false -> sole_winner l w.
Proof.
  intros ((p & Hp & Hpm) & Hmax & Htie). split.
  - exists p. split; [exact Hp |]. intros j q Hj.
    specialize (Hmax _ _ Hj). lia.
  - intros j (q & Hq & Hqmax).
    destruct (decide (j = w)) as [-> | Hne]; [reflexivity |].
    assert (Player.score q = m).
    { pose proof (Hmax _ _ Hq). pose proof (Hqmax _ _ Hp). lia. }
    assert (false = true) by (apply Htie; eauto). discriminate.
Qed.

Lemma winner_inv_shared l m w :
  winner_inv l m w true -> shared_max l.
Proof.
  intros ((p & Hp & Hpm) & Hmax & Htie).
  destruct (proj1 Htie eq_refl) as (j & q & Hne & Hq & Hqm).
  exists j, w. split; [exact Hne |]. split.
  - exists q. split; [exact Hq |]. intros k r Hk.
    specialize (Hmax _ _ Hk). lia.
  - exists p. split; [exact Hp |]. intros k r Hk.
    specialize (Hmax _ _ Hk). lia.
Qed.

Lemma sole_not_shared l w : sole_winner l w -> shared_max l -> False.
Proof.
  intros (_ & Huniq) (i & j & Hne & Hi & Hj).
  apply Hne. rewrite (Huniq _ Hi), (Huniq _ Hj). reflexivity.
Qed.

(** The verdict on a non-empty array of players. *)
Lemma verdict_spec p0 rest :
  exists v,
    verdict (p0 :: rest) = Some v
    /\ (v = Tie -> shared_max (p0 :: rest))
    /\ (forall idx name m, v = Winner idx name m ->
          exists w p, idx = Z.of_nat w /\ sole_winner (p0 :: rest) w
                      /\ (p0 :: rest) !! w = Some p
                      /\ m = Player.score p
                      /\ name = display_name idx p).
Proof.
  assert (Hinit : winner_inv [p0] (Player.score p0) 0 false).
  { split; [| split].
    - exists p0. split; reflexivity.
    - intros j q Hj. apply list_lookup_singleton_Some in Hj as (_ & <-). lia.
    - split; [discriminate |]. intros (j & q & Hne & Hj & _).
      apply list_lookup_singleton_Some in Hj as (-> & _). congruence. }
  destruct (find_winner_inv rest _ _ _ _ Hinit) as (m & w & t & Heq & Hinv).
  change ([p0] ++ rest) with (p0 :: rest) in Hinv.
  unfold verdict.
  change (find_winner rest 1 (Player.score p0) 0 false)
    with (find_winner rest (Z.of_nat (length [p0])) (Player.score p0)
            (Z.of_nat 0) false).
  rewrite Heq.
  destruct t; cbn [negb].
  - exists Tie. split; [reflexivity |]. split.
    + intros _. exact (winner_inv_shared _ _ _ Hinv).
    + intros idx name m' Hv. discriminate.
  - destruct Hinv as ((p & Hp & Hpm) & Hrest).
    rewrite Nat2Z.id, Hp. cbn.
    eexists. split; [reflexivity |]. split; [discriminate |].
    intros idx name m' [= <- <- <-]. exists w, p.
    split; [reflexivity |]. split; [| auto].
    apply (winner_inv_sole _ m). split; [eauto | exact Hrest].
Qed.

(** C4: with several players the report names a winner exactly when one
    player alone attains the maximum score, that player being the one
    named, and announces a tie exactly when two or more players share
    the maximum. *)
Theorem tie_detection :
  (forall (st : GameState) (p0 : Player) (rest : list Player),
     num_players (config st) > 1 ->
     take (Z.to_nat (num_players (config st))) (players st) = p0 :: rest ->
     exists lines v,
       game_display_stats st = Some (MultiReport lines v)
       /\ (v = Tie <-> shared_max (p0 :: rest))
       /\ (forall w, (exists name m, v = Winner (Z.of_nat w) name m)
                     <-> sole_winner (p0 :: rest) w)
       /\ (forall idx name m, v = Winner idx name m ->
             exists w p, idx = Z.of_nat w /\ (p0 :: rest) !! w = Some p
                         /\ m = Player.score p
                         /\ name = display_name idx p))
  /\ (exists lines,
        game_display_stats (Samples.final_state [10; 10; 5])
        = Some (MultiReport lines Tie))
  /\ (exists lines,
        game_display_stats (Samples.final_state [10; 5; 5])
        = Some (MultiReport lines (Winner 0 "Player 1"%string 10))).
Proof.
  split; [| split; eexists; vm_compute; reflexivity].
  intros st p0 rest HN Htake.
  destruct (verdict_spec p0 rest) as (v & Hv & Htie & Hwin).
  unfold game_display_stats.
  replace (num_players (config st) >? 1) with true
    by (symmetry; apply Z.gtb_lt; lia).
  rewrite Htake, Hv. cbn.
  eexists _, v. split; [reflexivity |]. split; [| split].
  - split; [exact Htie |]. intros Hsh.
    destruct v as [idx name m |]; [| reflexivity].
    destruct (Hwin _ _ _ eq_refl) as (w & p & _ & Hsole & _).
    destruct (sole_not_shared _ _ Hsole Hsh).
  - intros w. split.
    + intros (name & m & ->).
      destruct (Hwin _ _ _ eq_refl) as (w' & p & Hw & Hsole & _).
      apply Nat2Z.inj in Hw. subst w'. exact Hsole.
    + intros Hsole. destruct v as [idx name m |].
      * destruct (Hwin _ _ _ eq_refl) as (w' & p & -> & Hsole' & _).
        rewrite (proj2 Hsole _ (proj1 Hsole')). eauto.
      * destruct (sole_not_shared _ _ Hsole (Htie eq_refl)).
  - intros idx name m ->.
    destruct (Hwin _ _ _ eq_refl) as (w & p & H1 & _ & H2 & H3 & H4).
    eauto 10.
Qed.

Lemma tie_detection_witness :
  exists lines v,
    game_display_stats (Samples.final_state [10; 10; 5])
    = Some (MultiReport lines v)
    /\ (v = Tie <-> shared_max (map Samples.scoring [10; 10; 5]))
    /\ (forall w, (exists name m, v = Winner (Z.of_nat w) name m)
                  <-> sole_winner (map Samples.scoring [10; 10; 5]) w)
    /\ (forall idx name m, v = Winner idx name m ->
          exists w p, idx = Z.of_nat w
                      /\ map Samples.scoring [10; 10; 5] !! w = Some p
                      /\ m = Player.score p
                      /\ name = display_name idx p).
Proof.
  apply (proj1 tie_detection (Samples.final_state [10; 10; 5])
           (Samples.scoring 10) (map Samples.scoring [10; 5])).
  - cbn. lia.
  - reflexivity.
Defined.

(** The two score vectors of the specification. *)
Example tie_10_10_5 :
  verdict (map Samples.scoring [10; 10; 5]) = Some Tie.
Proof. reflexivity. Qed.

Example winner_10_5_5 :
  verdict (map Samples.scoring [10; 5; 5])
  = Some (Winner 0 "Player 1"%string 10).
Proof. reflexivity. Qed.

End Report.

(** ** Sessions (game.c) *)
Section Session.
Import CInt CString Utils Questions Timer Game Spec Invariants.

Lemma display_stats_total st :
  state_ok st -> exists report, game_display_stats st = Some report.
Proof.
  intros (_ & Hlen). unfold game_display_stats.
  destruct (Z.gtb_spec (num_players (config st)) 1) as [HN | HN];
    [| eauto].
  specialize (Hlen ltac:(lia)).
  rewrite firstn_all2 by lia.
  destruct (players st) as [| p0 rest]; [cbn in Hlen; lia |].
  destruct (verdict_spec p0 rest) as (v & -> & _). cbn. eauto.
Qed.

Lemma active_ok st b : state_ok st -> state_ok (set_game_active st b).
Proof. intros H. exact H. Qed.

(** C5: the turn starts at player 0; with [N > 1] players each call of
    [game_next_player] moves it to [(index + 1) mod N], so that after
    [k] completed rounds, and whenever the game loop is left with its
    counter at [k], it stands at [k mod N]; with one player it is never
    moved and no current player is looked up.  The loop is left whenever
    every round finds the Enter key it waits for. *)
Theorem turn_rotation :
  forall (mem : GameState) (bank : QuestionBank) (cfg : GameConfig)
         (st0 : GameState) (script : nat -> RoundInput),
    game_init mem (Some bank) cfg = Some st0 ->
    in_int (time_per_question cfg) -> in_int (num_players cfg) ->
    current_player st0 = 0
    /\ (num_players cfg > 1 ->
        (forall st, config st = cfg ->
           0 <= current_player st < num_players cfg ->
           current_player (game_next_player st)
           = (current_player st + 1) mod num_players cfg)
        /\ (forall k st_k out_k,
              play k 0 bank st0 script = Some (st_k, out_k) ->
              current_player st_k = Z.of_nat k mod num_players cfg)
        /\ (forall fuel st' k out,
              game_loop fuel 0 bank st0 script = Some (st', k, out) ->
              current_player st' = k mod num_players cfg))
    /\ (num_players cfg <= 1 ->
        (forall st, config st = cfg ->
           game_next_player st = st /\ game_get_current_player st = None)
        /\ (forall fuel st' k out,
              game_loop fuel 0 bank st0 script = Some (st', k, out) ->
              current_player st' = 0))
    /\ (entered cfg script ->
        forall fuel, exists st' k out,
          game_loop fuel 0 bank st0 script = Some (st', k, out)).
Proof.
  intros mem bank cfg st0 script Hinit Htime HNint.
  destruct (init_state_ok _ _ _ _ Hinit Htime)
    as (Hok & Hcfg & _ & _ & Hcur & _).
  split; [exact Hcur |]. split; [| split].
  - intros HN.
    assert (HNr : 1 < num_players (config st0) <= INT_MAX)
      by (rewrite Hcfg; unfold in_int in HNint; lia).
    assert (Hloop : forall fuel st' k out,
               game_loop fuel 0 bank st0 script = Some (st', k, out) ->
               current_player st' = k mod num_players cfg).
    { intros fuel st' k out Heq.
      destruct (game_loop_inv bank script fuel 0 st0 st' k out Hok
                  ltac:(lia) Heq)
        as (_ & _ & _ & _ & _ & Hturn & _).
      rewrite <- Hcfg. apply Hturn; [exact HNr |].
      rewrite Hcur, Z.mod_0_l by lia. reflexivity. }
    split; [| split; [| exact Hloop]].
    + intros st Hc Hrange. rewrite <- Hc in *.
      apply next_player_mod; [unfold in_int in HNint; lia | lia |].
      rewrite Z.mod_small by lia. reflexivity.
    + intros k st_k out_k Hplay.
      exact (Hloop k st_k _ out_k (play_loop _ _ _ _ _ _ _ Hplay)).
  - intros HN. split.
    + intros st Hc. unfold game_next_player, game_get_current_player.
      rewrite Hc.
      replace (num_players cfg <=? 1) with true
        by (symmetry; apply Z.leb_le; lia).
      split; reflexivity.
    + intros fuel st' k out Heq.
      destruct (game_loop_inv bank script fuel 0 st0 st' k out Hok
                  ltac:(lia) Heq)
        as (_ & _ & _ & _ & _ & _ & Hone).
      rewrite Hcfg in Hone. destruct (Hone HN) as (-> & _). exact Hcur.
  - intros Hent fuel. rewrite <- Hcfg in Hent.
    destruct (game_loop_total bank script fuel 0 st0 Hok Hent)
      as ([[st' k] out] & Heq).
    eauto.
Qed.

(** C10: whenever [game_run] returns, it returns the score field of the
    statistics of the single player: with one player the sum of the
    points the game credited, with several players 0.  It returns when
    the Enter key arrives at the welcome screen and after every round,
    and never when none arrives at the welcome screen. *)
Theorem game_run_result :
  forall (mem : GameState) (bank : QuestionBank) (cfg : GameConfig)
         (st0 : GameState) (start : string) (script : nat -> RoundInput),
    game_init mem (Some bank) cfg = Some st0 ->
    in_int (time_per_question cfg) ->
    (forall st' ret out,
       game_run st0 start script = Some (st', ret, out) ->
       ret = score (stats st')
       /\ (num_players cfg > 1 -> ret = 0)
       /\ (num_players cfg <= 1 -> ret = credited 0 out))
    /\ (wait_for_enter start <> None -> entered cfg script ->
        exists st' ret out, game_run st0 start script = Some (st', ret, out))
    /\ (wait_for_enter start = None -> game_run st0 start script = None).
Proof.
  intros mem bank cfg st0 start script Hinit Htime.
  destruct (init_state_ok _ _ _ _ Hinit Htime)
    as (Hok & Hcfg & Hbank & Hstats & _ & _).
  unfold game_run. rewrite Hbank.
  split; [| split].
  - intros st1 ret out1.
    destruct (wait_for_enter start) as [rest |]; [| discriminate].
    cbn [mbind option_bind].
    destruct (game_loop _ 0 bank (set_game_active st0 true) script)
      as [[[st' k] out] |] eqn:Heq; [| discriminate].
    destruct (game_loop_inv bank script _ 0 _ st' k out
                (active_ok _ true Hok) ltac:(lia) Heq)
      as (Hok' & Hcfg' & _ & _ & Hmulti & _ & Hone).
    cbn [mbind option_bind].
    destruct (game_display_stats (set_game_active st' false))
      as [report |]; [| discriminate].
    cbn [mbind option_bind]. intros [= <- <- <-].
    split; [reflexivity |].
    cbn [stats set_game_active config] in *. rewrite Hcfg in *. split.
    + intros HN. rewrite (Hmulti HN), Hstats. reflexivity.
    + intros HN. destruct (Hone HN) as (_ & _ & ->). rewrite Hstats.
      cbn [score]. unfold credited at 2. cbn [fold_left].
      fold (credited 0 (out ++ [OutStats report])).
      rewrite credited_app. reflexivity.
  - intros Hstart Hent.
    destruct (wait_for_enter start) as [rest |]; [| now destruct Hstart].
    cbn [mbind option_bind].
    destruct (game_loop_spec bank script
                (Z.to_nat (total_rounds (config (set_game_active st0 true))))
                0 (set_game_active st0 true) (active_ok _ true Hok)
                ltac:(lia) ltac:(cbn [config set_game_active];
                                 rewrite Hcfg; exact Hent))
      as (st' & k & out & Heq & Hok' & _).
    rewrite Heq. cbn [mbind option_bind].
    destruct (display_stats_total (set_game_active st' false)
                (active_ok _ false Hok')) as (report & Hrep).
    rewrite Hrep. cbn [mbind option_bind]. eauto.
  - intros ->. reflexivity.
Qed.

(** C2 as the claim words it fails: the range is not the number of
    options of the question.  With three options the line "4" is taken
    as the answer 4, and the round counts it as a wrong answer. *)
Lemma choice_beyond_options :
  is_valid_integer (sanitize_input "4") = Some 4
  /\ ~ (1 <= 4 <= Z.of_nat (length (options Samples.three_options)))
  /\ question_bank_get_random Samples.small_bank
       (difficulty_filter (config (Samples.start_state 1 true)))
       (rand_value Samples.answer_four) = Some Samples.three_options
  /\ (exists st1 out,
        game_ask_question (Samples.start_state 1 true)
          Samples.three_options Samples.answer_four
        = Some (st1, 4, out))
  /\ (exists st' out,
        game_round Samples.small_bank (Samples.start_state 1 true)
          Samples.answer_four = Next st' out
        /\ wrong_answers (stats st') = 1
        /\ total_questions (stats st') = 1).
Proof.
  split; [reflexivity |]. split; [cbn; lia |].
  split; [reflexivity |]. split.
  - eexists _, _. vm_compute. reflexivity.
  - eexists _, _. split; [vm_compute; reflexivity | split; reflexivity].
Qed.

(** C2 (amended): in the polling loop a line that is a valid integer [n]
    ends the round with the answer [n] exactly when [1 <= n <= 4]
    ([MAX_OPTIONS], whatever the number of options of the question);
    otherwise the loop prints its reprompt and goes on, the outcome of
    the round being that of the turns that follow; and asking a question
    changes neither the statistics, nor the players, nor the turn. *)
Theorem choice_range :
  forall (cd : Countdown) (p : Poll) (ps : list Poll) (raw : string) (n : Z),
    timer_get_remaining (run_thread (ticks_cond p) cd) > 0 ->
    timer_is_expired
      (run_thread (ticks_expired p) (run_thread (ticks_cond p) cd))
    = false ->
    select p = Line raw ->
    is_valid_integer (sanitize_input raw) = Some n ->
    let cd3 := run_thread (ticks_select p)
                 (run_thread (ticks_expired p)
                    (run_thread (ticks_cond p) cd)) in
    let cd4 := run_thread (ticks_display p) cd3 in
    (1 <= n <= MAX_OPTIONS ->
       ask_loop cd (p :: ps) = Some (fst (timer_stop cd3), n, []))
    /\ (~ (1 <= n <= MAX_OPTIONS) ->
        ask_loop cd (p :: ps)
        = ('(cd', r, out) ← ask_loop cd4 ps;
           Some (cd', r,
                 OutInvalid :: OutTimeRemaining (timer_get_remaining cd4)
                   :: out)))
    /\ (forall st q inp st' r out,
          game_ask_question st q inp = Some (st', r, out) ->
          stats st' = stats st /\ players st' = players st
          /\ current_player st' = current_player st).
Proof.
  intros cd p ps raw n Hrem Hexp Hsel Hint. cbv zeta.
  rewrite (ask_loop_line cd p ps raw Hrem Hexp Hsel).
  rewrite (read_line_integer raw n Hint).
  split; [| split].
  - intros Hn.
    replace ((n >=? 1) && (n <=? MAX_OPTIONS)) with true; [reflexivity |].
    symmetry. apply andb_true_intro.
    split; [apply Z.geb_le | apply Z.leb_le]; lia.
  - intros Hn.
    replace ((n >=? 1) && (n <=? MAX_OPTIONS)) with false; [reflexivity |].
    symmetry. apply andb_false_iff.
    destruct (Z.geb_spec n 1); [| now left]. right.
    apply Z.leb_gt. lia.
  - intros st q inp st' r out H.
    destruct (ask_question_frame _ _ _ _ _ _ H) as (H1 & H2 & H3 & _).
    auto.
Qed.

(** C3: a line whose first character, once sanitised, is [q] or [Q] ends
    the round with the quit value, with the timer and without; and when
    a round is quit after [k] completed rounds the game stops there: the
    statistics, the players and the turn are those the [k] rounds left,
    nothing is printed after the quit notice but the final report, and
    [game_run], which the Enter key let past its welcome screen,
    returns. *)
Theorem quit_ends_session :
  (forall (cd : Countdown) (p : Poll) (ps : list Poll) (raw : string),
     timer_get_remaining (run_thread (ticks_cond p) cd) > 0 ->
     timer_is_expired
       (run_thread (ticks_expired p) (run_thread (ticks_cond p) cd))
     = false ->
     select p = Line raw ->
     is_quit (sanitize_input raw) = true ->
     ask_loop cd (p :: ps)
     = Some (fst (timer_stop
                    (run_thread (ticks_select p)
                       (run_thread (ticks_expired p)
                          (run_thread (ticks_cond p) cd)))), -1, []))
  /\ (forall (st : GameState) (q : Question) (inp : RoundInput)
             (raw : string),
        use_timer (config st) = false ->
        blocking_read inp = Some raw ->
        is_quit (sanitize_input raw) = true ->
        exists out, game_ask_question st q inp = Some (st, -1, out))
  /\ (forall (mem : GameState) (bank : QuestionBank) (cfg : GameConfig)
             (st0 : GameState) (start : string)
             (script : nat -> RoundInput) (k : nat)
             (st_k : GameState) (out_k : list Output) (q : Question)
             (st_q : GameState) (out_q : list Output),
        game_init mem (Some bank) cfg = Some st0 ->
        in_int (time_per_question cfg) ->
        wait_for_enter start <> None ->
        Z.of_nat k < total_rounds cfg ->
        play k 0 bank (set_game_active st0 true) script
        = Some (st_k, out_k) ->
        question_bank_get_random bank (difficulty_filter cfg)
          (rand_value (script k)) = Some q ->
        game_ask_question st_k q (script k) = Some (st_q, -1, out_q) ->
        stats st_q = stats st_k /\ players st_q = players st_k
        /\ current_player st_q = current_player st_k
        /\ exists report,
             game_display_stats (set_game_active st_q false) = Some report
             /\ game_run st0 start script
                = Some (set_game_active st_q false, score (stats st_k),
                        OutWelcome cfg
                          :: (out_k ++ out_q ++ [OutQuit])
                             ++ [OutStats report])).
Proof.
  split; [| split].
  - intros cd p ps raw Hrem Hexp Hsel Hq.
    rewrite (ask_loop_line cd p ps raw Hrem Hexp Hsel).
    rewrite (read_line_quit raw Hq). reflexivity.
  - intros st q inp raw Hu Hb Hq. unfold game_ask_question.
    rewrite Hu, Hb, (read_line_quit raw Hq). eauto.
  - intros mem bank cfg st0 start script k st_k out_k q st_q out_q
      Hinit Htime Hstart Hk Hplay Hdraw Hask.
    destruct (init_state_ok _ _ _ _ Hinit Htime)
      as (Hok & Hcfg & Hbank & _).
    destruct (ask_question_frame _ _ _ _ _ _ Hask)
      as (Hst & Hpl & Hcur & Hcq & _).
    do 3 (split; [assumption |]).
    (* the state the [k] rounds leave *)
    destruct (game_loop_inv bank script k 0 (set_game_active st0 true)
                st_k _ out_k (active_ok _ true Hok) ltac:(lia)
                (play_loop _ _ _ _ _ _ _ Hplay))
      as (Hok_k & Hcfg_k & _).
    cbn [config set_game_active] in Hcfg_k. rewrite Hcfg in Hcfg_k.
    (* the round that is quit *)
    assert (Hround : game_round bank st_k (script k)
                     = Break st_q (out_q ++ [OutQuit])).
    { unfold game_round. rewrite Hcfg_k, Hdraw, Hask. reflexivity. }
    pose proof (game_round_spec bank st_k (script k) Hok_k) as Hspec.
    rewrite Hround in Hspec. destruct Hspec as (Hok_q & _).
    destruct (display_stats_total (set_game_active st_q false)
                (active_ok _ false Hok_q)) as (report & Hrep).
    exists report. split; [exact Hrep |].
    unfold game_run. rewrite Hbank.
    destruct (wait_for_enter start) as [rest |]; [| now destruct Hstart].
    cbn [mbind option_bind].
    cbn [config set_game_active]. rewrite Hcfg.
    replace (Z.to_nat (total_rounds cfg))
      with (k + S (Z.to_nat (total_rounds cfg) - S k))%nat by lia.
    rewrite (game_loop_play _ _ _ _ _ _ _ _ Hplay).
    cbn [game_loop]. rewrite Z.add_0_l, Nat2Z.id, Hround.
    cbn [mbind option_bind]. rewrite Hrep. cbn [mbind option_bind].
    cbn [stats set_game_active]. rewrite Hst. reflexivity.
Qed.

Lemma turn_rotation_witness :
  exists st_k out_k,
    play 4 0 Samples.small_bank (Samples.start_state 3 true)
      Samples.answer_three = Some (st_k, out_k)
    /\ current_player st_k = 4 mod 3.
Proof.
  assert (Hin5 : in_int 5) by (unfold in_int, INT_MIN, INT_MAX; lia).
  assert (Hin3 : in_int 3) by (unfold in_int, INT_MIN, INT_MAX; lia).
  destruct (turn_rotation Samples.stale_state Samples.small_bank
              (Samples.config_of 3 true) (Samples.start_state 3 true)
              Samples.answer_three eq_refl Hin5 Hin3)
    as (_ & Hmulti & _).
  destruct (Hmulti ltac:(cbn; lia)) as (_ & Hplay & _).
  destruct (play 4 0 Samples.small_bank (Samples.start_state 3 true)
              Samples.answer_three) as [[st_k out_k] |] eqn:E.
  - exists st_k, out_k. split; [reflexivity |].
    exact (Hplay 4%nat st_k out_k E).
  - vm_compute in E. discriminate E.
Defined.

Lemma game_run_result_witness :
  exists st' ret out,
    game_run (Samples.start_state 3 true) Samples.enter Samples.answer_three
    = Some (st', ret, out)
    /\ ret = score (stats st')
    /\ (num_players (Samples.config_of 3 true) > 1 -> ret = 0)
    /\ (num_players (Samples.config_of 3 true) <= 1 ->
        ret = credited 0 out).
Proof.
  assert (Hin5 : in_int 5) by (unfold in_int, INT_MIN, INT_MAX; lia).
  destruct (game_run_result Samples.stale_state Samples.small_bank
              (Samples.config_of 3 true) (Samples.start_state 3 true)
              Samples.enter Samples.answer_three eq_refl Hin5)
    as (Hval & Hret & _).
  destruct Hret as (st' & ret & out & Hrun).
  - discriminate.
  - intros n. discriminate.
  - exists st', ret, out. split; [exact Hrun |].
    exact (Hval st' ret out Hrun).
Defined.

Lemma choice_range_witness :
  ask_loop Samples.started_timer [Samples.line_after 3 "2"]
  = Some (fst (timer_stop (run_thread 3 Samples.started_timer)), 2, []).
Proof.
  refine (proj1 (choice_range Samples.started_timer
                   (Samples.line_after 3 "2") [] "2" 2 _ _ _ _) _).
  - reflexivity.
  - reflexivity.
  - reflexivity.
  - reflexivity.
  - unfold MAX_OPTIONS. lia.
Defined.

Lemma quit_ends_session_witness :
  ask_loop Samples.started_timer [Samples.line_after 3 " Quit "]
  = Some (fst (timer_stop (run_thread 3 Samples.started_timer)), -1, [])
  /\ (exists out,
        game_ask_question (Samples.start_state 1 false)
          Samples.three_options (Samples.typed "q")
        = Some (Samples.start_state 1 false, -1, out))
  /\ (exists st_k st_q out,
        stats st_q = stats st_k
        /\ game_run (Samples.start_state 1 true) Samples.enter
             (Samples.quit_at 1)
           = Some (set_game_active st_q false, score (stats st_k), out)).
Proof.
  destruct quit_ends_session as (Htimed & Hblocking & Hsession).
  split; [| split].
  - refine (Htimed Samples.started_timer (Samples.line_after 3 " Quit ")
              [] " Quit "%string _ _ _ _); reflexivity.
  - refine (Hblocking (Samples.start_state 1 false) Samples.three_options
              (Samples.typed "q") "q"%string _ _ _); reflexivity.
  - assert (Hin5 : in_int 5) by (unfold in_int, INT_MIN, INT_MAX; lia).
    edestruct (Hsession Samples.stale_state Samples.small_bank
                 (Samples.config_of 1 true) (Samples.start_state 1 true)
                 Samples.enter (Samples.quit_at 1) 1%nat)
      as (Hst & _ & _ & report & _ & Hrun).
    + reflexivity.
    + exact Hin5.
    + discriminate.
    + cbn. lia.
    + vm_compute. reflexivity.
    + vm_compute. reflexivity.
    + vm_compute. reflexivity.
    + eexists _, _, _. split; [exact Hst | exact Hrun].
Defined.

End Session.

(** ** The question file (questions.c) *)
Section Loader.
Import CInt CString Questions Invariants Spec.

Lemma str_length_app (a b : string) :
  String.length (a ++ b) = (String.length a + String.length b)%nat.
Proof. induction a as [| c a IH]; cbn; [reflexivity | now rewrite IH]. Qed.

Lemma str_app_assoc (a b c : string) :
  ((a ++ b) ++ c = a ++ (b ++ c))%string.
Proof. induction a as [| x a IH]; cbn; [reflexivity | now rewrite IH]. Qed.

Lemma parse_options_length n :
  forall s, (length (parse_options n s) <= n)%nat.
Proof.
  induction n as [| n IH]; intros s0; cbn [parse_options]; [cbn; lia |].
  destruct (strchr s0 dquote) as [p |]; [| cbn; lia].
  destruct (strchr (next p) dquote) as [e |]; [| cbn; lia].
  destruct (next e) as [| c r].
  - cbn [length]. specialize (IH EmptyString). lia.
  - destruct c as [[] [] [] [] [] [] [] []]; cbn [length];
      try match goal with
          | |- context [parse_options n ?x] => specialize (IH x)
          end; lia.
Qed.

(** A record is accepted only with its index among the options parsed. *)
Lemma parse_well_indexed json q :
  parse_json_question json = Some q ->
  well_indexed q /\ (length (options q) <= 4)%nat
  /\ difficulty q = parse_difficulty (local_line json).
Proof.
  unfold parse_json_question.
  destruct (strstr (local_line json) (quoted "question")) as [p1 |];
    [cbn [mbind option_bind] | discriminate].
  destruct (strchr p1 ":") as [p2 |]; [cbn [mbind option_bind] | discriminate].
  destruct (strchr p2 dquote) as [p3 |];
    [cbn [mbind option_bind] | discriminate].
  destruct (strchr (next p3) dquote) as [p4 |];
    [cbn [mbind option_bind] | discriminate].
  destruct (strstr (local_line json) (quoted "options")) as [p5 |];
    [cbn [mbind option_bind] | discriminate].
  destruct (strchr p5 "[") as [p6 |]; [cbn [mbind option_bind] | discriminate].
  destruct (strstr (local_line json) (quoted "correct")) as [p7 |];
    [cbn [mbind option_bind] | discriminate].
  destruct (strchr p7 ":") as [p8 |]; [cbn [mbind option_bind] | discriminate].
  set (opts := parse_options (Z.to_nat MAX_OPTIONS) (next p6)).
  set (c := atoi (skip_space (next p8))).
  destruct (Z.ltb_spec c 0) as [| Hlo]; [discriminate |].
  destruct (Z.geb_spec c (Z.of_nat (length opts))) as [| Hhi]; [discriminate |].
  cbn [orb]. intros [= <-]. unfold well_indexed. cbn.
  split; [lia |]. split; [| reflexivity].
  subst opts. apply (parse_options_length 4).
Qed.

(** One character read: the bank keeps what it had and gains at most one
    question, a well indexed one, counted by [loaded]. *)
Lemma load_char_inv st c b0 added :
  questions (bank st) = questions b0 ++ added ->
  Forall well_indexed added ->
  exists added',
    questions (bank (load_char st c)) = questions b0 ++ added'
    /\ Forall well_indexed added'
    /\ ((added' = added /\ loaded (load_char st c) = loaded st)
        \/ (exists q, added' = added ++ [q]
                      /\ loaded (load_char st c) = add (loaded st) 1)).
Proof.
  intros Hb Hall. unfold load_char.
  destruct (buffer_pos st >=? 8192 - 1); [exists added; cbn; auto |].
  destruct (Ascii.eqb c "{").
  { destruct (negb (in_object st)); exists added; cbn; auto. }
  destruct (Ascii.eqb c "}"); [| exists added; cbn; auto].
  destruct (in_object st && (add (brace_count st) (-1) =? 0));
    [| exists added; cbn; auto].
  destruct (parse_json_question _) as [q |] eqn:E; [| exists added; cbn; auto].
  exists (added ++ [q]). cbn. rewrite Hb, <- app_assoc.
  split; [reflexivity |]. split; [| right; eauto].
  apply Forall_app. split; [exact Hall |].
  constructor; [| constructor]. exact (proj1 (parse_well_indexed _ _ E)).
Qed.

Lemma load_chars_inv b0 file :
  forall st added,
    questions (bank st) = questions b0 ++ added ->
    Forall well_indexed added ->
    loaded st = Z.of_nat (length added) ->
    Z.of_nat (length added) + Z.of_nat (String.length file) <= INT_MAX ->
    exists added',
      questions (bank (load_chars st file)) = questions b0 ++ added'
      /\ Forall well_indexed added'
      /\ loaded (load_chars st file) = Z.of_nat (length added').
Proof.
  induction file as [| c file IH]; intros st added Hb Hall Hn Hmax.
  - exists added. cbn. auto.
  - cbn [load_chars]. cbn [String.length] in Hmax.
    destruct (load_char_inv st c b0 added Hb Hall)
      as (added' & Hb' & Hall' & [(-> & Hl) | (q & -> & Hl)]).
    + apply (IH _ added); [assumption | assumption | congruence | lia].
    + apply (IH _ (added ++ [q])); [assumption | assumption | |].
      * rewrite Hl, Hn, length_app. cbn [length]. unfold add.
        rewrite wrap_id; [lia |]. unfold in_int, INT_MIN, INT_MAX in *. lia.
      * rewrite length_app. cbn [length]. lia.
Qed.

(** Inside a record, characters other than braces are buffered. *)
Lemma scan_body body :
  forall pre n b rest,
    brace_free body = true ->
    Z.of_nat (String.length pre) + Z.of_nat (String.length body) < 8191 ->
    load_chars {| buffer := pre; loaded := n; in_object := true;
                  brace_count := 1; bank := b |} (body ++ rest)
    = load_chars {| buffer := (pre ++ body)%string; loaded := n;
                    in_object := true; brace_count := 1; bank := b |} rest.
Proof.
  induction body as [| c body IH]; intros pre n b rest Hfree Hlen.
  - cbn [append]. replace (pre ++ "")%string with pre; [reflexivity |].
    clear. induction pre as [| x pre IH]; cbn; [reflexivity | now rewrite <- IH].
  - cbn [brace_free] in Hfree.
    apply andb_true_iff in Hfree as (Hc & Hfree).
    apply andb_true_iff in Hc as (Hopen & Hclose).
    apply negb_true_iff in Hopen, Hclose.
    cbn [String.length] in Hlen.
    cbn [append load_chars]. unfold load_char at 1. unfold buffer_pos.
    cbn [buffer loaded in_object brace_count bank].
    replace (Z.of_nat (String.length pre) >=? 8192 - 1) with false
      by (symmetry; rewrite Z.geb_leb; apply Z.leb_gt; lia).
    rewrite Hopen, Hclose.
    rewrite IH; [| exact Hfree | rewrite str_length_app; cbn; lia].
    rewrite str_app_assoc. reflexivity.
Qed.

(** A record between braces, met outside any object, is parsed when its
    closing brace is read; whether it is accepted or not, the scanner is
    between two records afterwards and the load goes on. *)
Lemma load_record st body rest :
  in_object st = false ->
  buffer_pos st < 8191 ->
  brace_free body = true ->
  Z.of_nat (String.length body) + 2 <= 8191 ->
  load_chars st (String "{" (body ++ String "}" rest))
  = load_chars
      (match parse_json_question
               (c_str (String "{" (body ++ String "}" EmptyString))) with
       | Some q => between (question_bank_add (bank st) q) (add (loaded st) 1)
       | None => between (bank st) (loaded st)
       end) rest.
Proof.
  intros Hout Hpos Hfree Hlen.
  cbn [load_chars]. unfold load_char at 1.
  replace (buffer_pos st >=? 8192 - 1) with false
    by (symmetry; rewrite Z.geb_leb; apply Z.leb_gt; lia).
  cbn [Ascii.eqb Bool.eqb]. rewrite Hout. cbn [negb].
  rewrite (scan_body body "{" (loaded st) (bank st) (String "}" rest) Hfree)
    by (cbn; lia).
  cbn [load_chars]. unfold load_char at 1. unfold buffer_pos.
  cbn [buffer loaded in_object brace_count bank].
  replace (Z.of_nat (String.length ("{" ++ body)) >=? 8192 - 1) with false
    by (symmetry; rewrite Z.geb_leb; apply Z.leb_gt; cbn [append String.length]; lia).
  cbn [Ascii.eqb Bool.eqb].
  change (add 1 (-1) =? 0) with true. cbn [andb].
  replace (("{" ++ body) ++ "}")%string
    with (String "{" (body ++ String "}" EmptyString)) by reflexivity.
  destruct (parse_json_question _); reflexivity.
Qed.

(** The value the loader returns is the number of questions it added to
    the bank, each of which has its index among the options the parser
    read for it; a record is accepted only if so, and a record that is not
    accepted is passed over, the load going on behind it as if it had not
    been there. *)
Lemma load_counts_accepted :
  (forall (b : QuestionBank) (file : string),
     Z.of_nat (String.length file) <= INT_MAX ->
     exists added,
       questions (fst (question_bank_load_from_json b (Some file)))
       = questions b ++ added
       /\ snd (question_bank_load_from_json b (Some file))
          = Z.of_nat (length added)
       /\ Forall well_indexed added)
  /\ (forall (json : string) (q : Question),
        parse_json_question json = Some q -> well_indexed q)
  /\ (forall (st : LoadState) (body rest : string),
        in_object st = false ->
        buffer_pos st < 8191 ->
        brace_free body = true ->
        Z.of_nat (String.length body) + 2 <= 8191 ->
        parse_json_question
          (c_str (String "{" (body ++ String "}" EmptyString))) = None ->
        load_chars st (String "{" (body ++ String "}" rest))
        = load_chars (between (bank st) (loaded st)) rest).
Proof.
  split; [| split].
  - intros b file Hlen. unfold question_bank_load_from_json. cbn [fst snd].
    destruct (load_chars_inv b file (load_start b) []) as (added & H1 & H2 & H3).
    + cbn. now rewrite app_nil_r.
    + constructor.
    + reflexivity.
    + cbn [length]. lia.
    + exists added. auto.
  - intros json q H. exact (proj1 (parse_well_indexed json q H)).
  - intros st body rest Hout Hpos Hfree Hlen Hrej.
    rewrite (load_record st body rest Hout Hpos Hfree Hlen), Hrej.
    reflexivity.
Qed.

Example load_two_records :
  question_bank_load_from_json question_bank_init (Some Samples.two_records)
  = ({| questions := [ {| question := "What is the capital of France?";
                          options := ["London"; "Berlin"; "Paris"; "Madrid"]%string;
                          correct_answer := 2;
                          difficulty := DIFFICULTY_EASY;
                          category := CATEGORY_GENERAL |} ];
        capacity := 10 |}, 1).
Proof. vm_compute. reflexivity. Qed.

Example index_5_rejected :
  parse_json_question Samples.record_index_5 = None
  /\ parse_options 4 (next (default EmptyString
         (strchr (default EmptyString
                    (strstr Samples.record_index_5 (quoted "options")))
                 "[")))
     = ["Atlantic"; "Indian"; "Arctic"; "Pacific"]%string.
Proof. split; vm_compute; reflexivity. Qed.

Lemma load_counts_accepted_witness :
  (exists added,
     questions (fst (question_bank_load_from_json question_bank_init
                       (Some Samples.two_records)))
     = questions question_bank_init ++ added
     /\ snd (question_bank_load_from_json question_bank_init
               (Some Samples.two_records))
        = Z.of_nat (length added)
     /\ Forall well_indexed added)
  /\ load_chars (load_start question_bank_init) Samples.two_records
     = load_chars (between question_bank_init 0)
         ("," ++ Samples.sample_record ++ "]")%string.
Proof.
  destruct load_counts_accepted as (Hcount & _ & Hskip).
  split.
  - apply (Hcount question_bank_init Samples.two_records).
    vm_compute. discriminate.
  - apply (Hskip (load_start question_bank_init) Samples.body_index_5).
    + reflexivity.
    + reflexivity.
    + vm_compute. reflexivity.
    + vm_compute. discriminate.
    + vm_compute. reflexivity.
Defined.

(** C6: the loader is run on a file whose only record lists two options
    and gives 2 as the index of the right answer.  The closing bracket
    does not follow the last option directly, the parser goes on and takes
    the key [correct] for a third option, and the record, whose index lies
    outside its options, is added to the bank and counted. *)
Theorem load_accepts_out_of_range :
  listed_options Samples.record_spaced = ["a"; "b"]%string
  /\ atoi "2}" = 2
  /\ ~ (0 <= 2 < Z.of_nat (length (listed_options Samples.record_spaced)))
  /\ parse_json_question Samples.record_spaced
     = Some {| question := "Q?";
               options := ["a"; "b"; "correct"]%string;
               correct_answer := 2;
               difficulty := DIFFICULTY_EASY;
               category := CATEGORY_GENERAL |}
  /\ question_bank_load_from_json question_bank_init
       (Some Samples.file_spaced)
     = ({| questions := [ {| question := "Q?";
                             options := ["a"; "b"; "correct"]%string;
                             correct_answer := 2;
                             difficulty := DIFFICULTY_EASY;
                             category := CATEGORY_GENERAL |} ];
           capacity := 10 |}, 1).
Proof.
  split; [vm_compute; reflexivity |].
  split; [vm_compute; reflexivity |].
  split; [vm_compute; intros [_ H]; discriminate H |].
  split; vm_compute; reflexivity.
Qed.

(** When the closing bracket follows the last option directly the record
    is rejected, as it is with four options wherever the bracket stands. *)
Example rejected_when_bracket_follows :
  parse_json_question
    (Samples.json "{'question': 'Q?', 'options': ['a', 'b'], 'correct': 2}")
  = None
  /\ parse_json_question
       (Samples.json "{'question': 'Q?', 'options': ['a', 'b', 'c', 'd' ], 'correct': 4}")
     = None.
Proof. split; vm_compute; reflexivity. Qed.

(** *** The difficulty field *)

Lemma strchr_skip a b c :
  strchr a c = None -> strchr (a ++ b) c = strchr b c.
Proof.
  induction a as [| x a IH]; cbn; [reflexivity |].
  destruct (Ascii.eqb x c); [discriminate | exact IH].
Qed.

Lemma strchr_next a s c :
  Ascii.eqb a c = false -> strchr (String a s) c = strchr s c.
Proof. cbn. now intros ->. Qed.

Lemma strchr_head c s : strchr (String c s) c = Some (String c s).
Proof. cbn. now rewrite Ascii.eqb_refl. Qed.

(** A literal without the character [c] is a prefix of [d] followed by
    [c] exactly when it is a prefix of [d]. *)
Lemma starts_with_stop lit :
  forall d c rest,
    strchr lit c = None ->
    starts_with lit (d ++ String c rest) = starts_with lit d.
Proof.
  unfold starts_with.
  induction lit as [| a lit IH]; intros d c rest Hc.
  - destruct d; reflexivity.
  - cbn in Hc. destruct (Ascii.eqb_spec a c) as [| Hne]; [discriminate |].
    destruct d as [| b d]; cbn [String.prefix append].
    + destruct (ascii_dec a c); [contradiction | reflexivity].
    + destruct (ascii_dec a b); [apply IH, Hc | reflexivity].
Qed.

Lemma prefix_app needle : forall r, String.prefix needle (needle ++ r) = true.
Proof.
  induction needle as [| c n IH]; intros r; [destruct r; reflexivity |].
  cbn. destruct (ascii_dec c c) as [_ | Hn]; [apply IH | now destruct Hn].
Qed.

Lemma prefix_split needle :
  forall t, String.prefix needle t = true -> exists r, t = (needle ++ r)%string.
Proof.
  induction needle as [| x n IH]; intros t H; [now exists t |].
  destruct t as [| y t]; cbn in H; [discriminate |].
  destruct (ascii_dec x y) as [<- | _]; [| discriminate].
  destruct (IH t H) as (r & ->). now exists r.
Qed.

(** [strstr] returns the text from the first occurrence on. *)
Lemma strstr_first s needle :
  forall tail,
    strstr s needle = Some tail ->
    exists pre after,
      s = (pre ++ needle ++ after)%string
      /\ tail = (needle ++ after)%string
      /\ forall l r, s = (l ++ needle ++ r)%string ->
                     (String.length pre <= String.length l)%nat.
Proof.
  assert (Hhere : forall t, starts_with needle t = true ->
            exists after, t = (needle ++ after)%string)
    by (intros t; apply prefix_split).
  induction s as [| c s IH]; intros tail; cbn [strstr].
  - destruct (starts_with needle "") eqn:Ep; [| discriminate].
    intros [= <-]. destruct (Hhere _ Ep) as (after & E).
    exists EmptyString, after. split; [exact E |]. split; [exact E |].
    intros l r _. cbn. lia.
  - destruct (starts_with needle (String c s)) eqn:Ep.
    + intros [= <-]. destruct (Hhere _ Ep) as (after & E).
      exists EmptyString, after. split; [exact E |]. split; [exact E |].
      intros l r _. cbn. lia.
    + intros E. destruct (IH tail E) as (pre & after & -> & -> & Hfirst).
      exists (String c pre), after. split; [reflexivity |].
      split; [reflexivity |].
      intros l r Hl. destruct l as [| x l].
      * cbn [append] in Hl. unfold starts_with in Ep.
        rewrite Hl, prefix_app in Ep. discriminate.
      * cbn [append] in Hl. injection Hl as _ Hl.
        cbn [String.length]. specialize (Hfirst l r Hl). lia.
Qed.

Lemma easy_is_not_medium_or_hard d :
  starts_with "easy" d = true ->
  starts_with "medium" d = false /\ starts_with "hard" d = false.
Proof.
  unfold starts_with. destruct d as [| c d]; cbn [String.prefix]; [discriminate |].
  destruct (ascii_dec "e" c) as [<- |]; [| discriminate].
  intros _. split; reflexivity.
Qed.

(** C7, as the claim words it, fails: "hardest" is none of the three
    strings, and the record is given the tier Hard, not Easy. *)
Lemma difficulty_hardest :
  "hardest"%string <> "easy"%string
  /\ "hardest"%string <> "medium"%string
  /\ "hardest"%string <> "hard"%string
  /\ difficulty
       <$> parse_json_question (Samples.record_of_difficulty "hardest")
     = Some DIFFICULTY_HARD
  /\ DIFFICULTY_HARD <> DIFFICULTY_EASY.
Proof.
  split; [discriminate |]. split; [discriminate |]. split; [discriminate |].
  split; [vm_compute; reflexivity | discriminate].
Qed.

(** C7 (amended): the parser looks, in the first 1023 characters of the
    record, for the first occurrence of [difficulty] in double quotes,
    wherever it stands, then for the first colon after it and for the
    first double quote after that colon.  The tier is Medium when the
    text after that quote begins with [medium], Hard when it begins with
    [hard] (the comparison is case sensitive and looks at a prefix only),
    and Easy in every other case: when the text begins with anything
    else, and when the quoted word, the colon or the quote is not found.
    So the texts [easy], [medium] and [hard], closed by a double quote
    within those characters, give their tiers when they stand at that
    place. *)
Theorem difficulty_prefix :
  forall (json : string) (q : Question),
    parse_json_question json = Some q ->
    (strstr (local_line json) (quoted "difficulty") = None ->
       difficulty q = DIFFICULTY_EASY)
    /\ (forall tail : string,
          strstr (local_line json) (quoted "difficulty") = Some tail ->
          exists pre after : string,
            local_line json = (pre ++ quoted "difficulty" ++ after)%string
            /\ tail = (quoted "difficulty" ++ after)%string
            /\ (forall l r : string,
                  local_line json = (l ++ quoted "difficulty" ++ r)%string ->
                  (String.length pre <= String.length l)%nat)
            /\ (strchr after ":" = None -> difficulty q = DIFFICULTY_EASY)
            /\ (forall sep1 after2 : string,
                  after = (sep1 ++ String ":" after2)%string ->
                  strchr sep1 ":" = None ->
                  (strchr after2 dquote = None ->
                   difficulty q = DIFFICULTY_EASY)
                  /\ (forall sep2 text : string,
                        after2 = (sep2 ++ String dquote text)%string ->
                        strchr sep2 dquote = None ->
                        difficulty q
                        = (if starts_with "medium" text
                           then DIFFICULTY_MEDIUM
                           else if starts_with "hard" text
                                then DIFFICULTY_HARD
                                else DIFFICULTY_EASY)
                        /\ (forall d rest : string,
                              text = (d ++ String dquote rest)%string ->
                              difficulty q
                              = (if starts_with "medium" d
                                 then DIFFICULTY_MEDIUM
                                 else if starts_with "hard" d
                                      then DIFFICULTY_HARD
                                      else DIFFICULTY_EASY)
                              /\ (d = "easy"%string ->
                                  difficulty q = DIFFICULTY_EASY)
                              /\ (d = "medium"%string ->
                                  difficulty q = DIFFICULTY_MEDIUM)
                              /\ (d = "hard"%string ->
                                  difficulty q = DIFFICULTY_HARD))))).
Proof.
  intros json q Hparse.
  destruct (parse_well_indexed json q Hparse) as (_ & _ & ->).
  split.
  - intros Habs. unfold parse_difficulty. rewrite Habs. reflexivity.
  - intros tail Hkey.
    destruct (strstr_first _ _ _ Hkey) as (pre & after & Hline & -> & Hfirst).
    exists pre, after. do 3 (split; [assumption || reflexivity |]).
    unfold parse_difficulty. rewrite Hkey.
    rewrite (strchr_skip (quoted "difficulty")) by reflexivity.
    split.
    + intros ->. reflexivity.
    + intros sep1 after2 -> Hs1.
      rewrite (strchr_skip sep1 _ ":" Hs1), strchr_head.
      rewrite (strchr_next ":" _ dquote) by reflexivity.
      split.
      * intros ->. reflexivity.
      * intros sep2 text -> Hs2.
        rewrite (strchr_skip sep2 _ dquote Hs2), strchr_head.
        cbn [next].
        assert (Hval : (if starts_with "easy" text then DIFFICULTY_EASY
                        else if starts_with "medium" text
                             then DIFFICULTY_MEDIUM
                             else if starts_with "hard" text
                                  then DIFFICULTY_HARD
                                  else DIFFICULTY_EASY)
                       = (if starts_with "medium" text
                          then DIFFICULTY_MEDIUM
                          else if starts_with "hard" text
                               then DIFFICULTY_HARD
                               else DIFFICULTY_EASY)).
        { destruct (starts_with "easy" text) eqn:E; [| reflexivity].
          destruct (easy_is_not_medium_or_hard text E) as (-> & ->).
          reflexivity. }
        rewrite Hval. split; [reflexivity |].
        intros d rest ->. rewrite !starts_with_stop by reflexivity.
        split; [reflexivity |].
        split; [| split]; intros ->; reflexivity.
Qed.

Lemma difficulty_prefix_witness :
  exists q,
    parse_json_question (Samples.record_of_difficulty "hardest") = Some q
    /\ difficulty q = DIFFICULTY_HARD.
Proof.
  destruct (parse_json_question (Samples.record_of_difficulty "hardest"))
    as [q |] eqn:Hq; [| vm_compute in Hq; discriminate Hq].
  exists q. split; [reflexivity |].
  destruct (difficulty_prefix _ q Hq) as (_ & Hfield).
  destruct (Hfield _ eq_refl)
    as (pre & after & _ & Htail & _ & _ & Hcolon).
  assert (Hafter : after
                   = (String ":" (String " " (String dquote
                        ("hardest" ++ String dquote "}"))))%string).
  { vm_compute in Htail. injection Htail as <-. reflexivity. }
  destruct (Hcolon ""%string _ Hafter eq_refl) as (_ & Hquote).
  destruct (Hquote " "%string _ eq_refl eq_refl) as (_ & Htext).
  exact (proj1 (Htext "hardest"%string "}"%string eq_refl)).
Defined.

(** The first quoted [difficulty] of a record need not be its key: after
    an option of that name a key [hard] makes the question Hard, and the
    field [hard] leaves it Easy. *)
Example difficulty_first_occurrence :
  (difficulty <$> parse_json_question Samples.record_hard_key
   = Some DIFFICULTY_HARD)
  /\ (difficulty <$> parse_json_question Samples.record_shadowed
      = Some DIFFICULTY_EASY).
Proof. split; vm_compute; reflexivity. Qed.

(** The field as the file format documents it, its case variants, other
    texts, and its absence. *)
Example difficulty_samples :
  (difficulty <$> parse_json_question (Samples.record_of_difficulty "easy")
   = Some DIFFICULTY_EASY)
  /\ (difficulty <$> parse_json_question (Samples.record_of_difficulty "medium")
      = Some DIFFICULTY_MEDIUM)
  /\ (difficulty <$> parse_json_question (Samples.record_of_difficulty "hard")
      = Some DIFFICULTY_HARD)
  /\ (difficulty <$> parse_json_question (Samples.record_of_difficulty "Hard")
      = Some DIFFICULTY_EASY)
  /\ (difficulty <$> parse_json_question (Samples.record_of_difficulty "MEDIUM")
      = Some DIFFICULTY_EASY)
  /\ (difficulty <$> parse_json_question (Samples.record_of_difficulty "tricky")
      = Some DIFFICULTY_EASY)
  /\ (difficulty <$> parse_json_question Samples.record_plain
      = Some DIFFICULTY_EASY).
Proof. repeat split; vm_compute; reflexivity. Qed.

End Loader.

Section InputProps.
Import CInt CString Utils Shapes.

Lemma str_app_nil (s : string) : (s ++ "")%string = s.
Proof. induction s as [| c s IH]; cbn; [reflexivity | now rewrite IH]. Qed.

Lemma skip_space_split s :
  exists l, s = (l ++ skip_space s)%string /\ all_space l = true
            /\ first_is isspace (skip_space s) = false.
Proof.
  induction s as [| c s (l & Hs & Hl & Hf)].
  - exists EmptyString. auto.
  - cbn [skip_space]. destruct (isspace c) eqn:E.
    + exists (String c l). cbn. rewrite E, Hl. split; [now rewrite <- Hs | auto].
    + exists EmptyString. cbn. auto.
Qed.

Lemma skip_space_id s : first_is isspace s = false -> skip_space s = s.
Proof. destruct s as [| c s]; cbn; [reflexivity |]. now intros ->. Qed.

Lemma trim_end_split s :
  exists t, s = (trim_end s ++ t)%string /\ all_space t = true
            /\ last_is isspace (trim_end s) = false.
Proof.
  induction s as [| c s (t & Hs & Ht & Hl)].
  - exists EmptyString. auto.
  - cbn [trim_end]. destruct (trim_end s) as [| d r] eqn:E.
    + cbn in Hs. subst t. destruct (isspace c) eqn:Ec.
      * exists (String c s). cbn. rewrite Ec, Ht. auto.
      * exists s. cbn. rewrite Ec. auto.
    + exists t. split; [cbn in Hs |- *; now rewrite <- Hs |].
      split; [exact Ht | exact Hl].
Qed.

Lemma trim_end_id s : last_is isspace s = false -> trim_end s = s.
Proof.
  induction s as [| c s IH]; [reflexivity |]. cbn [last_is trim_end].
  destruct s as [| d r].
  - cbn. now intros ->.
  - intros H. rewrite (IH H). reflexivity.
Qed.

Lemma trim_end_first s :
  first_is isspace s = false -> first_is isspace (trim_end s) = false.
Proof.
  destruct s as [| c s]; [reflexivity |]. cbn [first_is trim_end]. intros Hc.
  destruct (trim_end s); [rewrite Hc |]; cbn; exact Hc.
Qed.

(** X1: [sanitize_input] only removes white space at the two ends.  The
    string given is white space, then the result, then white space, and
    the result neither starts nor ends with a white-space character. *)
Theorem sanitize_input_trims :
  forall str : string,
    exists lead trail,
      str = (lead ++ sanitize_input str ++ trail)%string
      /\ all_space lead = true /\ all_space trail = true
      /\ first_is isspace (sanitize_input str) = false
      /\ last_is isspace (sanitize_input str) = false.
Proof.
  intros str. unfold sanitize_input.
  destruct (skip_space_split str) as (l & Hs & Hl & Hf).
  destruct (trim_end_split (skip_space str)) as (t & Ht & Hts & Hlast).
  exists l, t. split; [| auto using trim_end_first].
  rewrite <- Ht. exact Hs.
Qed.

(** X2: sanitising a sanitised string changes nothing. *)
Theorem sanitize_input_idempotent :
  forall str : string,
    sanitize_input (sanitize_input str) = sanitize_input str.
Proof.
  intros str. unfold sanitize_input.
  destruct (skip_space_split str) as (_ & _ & _ & Hf).
  destruct (trim_end_split (skip_space str)) as (_ & _ & _ & Hl).
  rewrite (skip_space_id (trim_end (skip_space str)))
    by (apply trim_end_first, Hf).
  apply trim_end_id, Hl.
Qed.

(** *** Numerals *)

Lemma isdigit_plain c :
  isdigit c = true ->
  isspace c = false /\ Ascii.eqb c "-" = false /\ Ascii.eqb c "+" = false
  /\ 0 <= digit_value c <= 9.
Proof.
  destruct c as [[] [] [] [] [] [] [] []]; vm_compute; intros H;
    try discriminate H; repeat split; discriminate.
Qed.

Lemma sign_plain :
  isspace "-" = false /\ isspace "+" = false
  /\ isdigit "-" = false /\ isdigit "+" = false.
Proof. repeat split. Qed.

Lemma strtol_unfold s :
  strtol s
  = match skip_space s with
    | String c r =>
        if Ascii.eqb c "-" then
          if first_is isdigit r
          then (clamp_long (- fst (digits 0 r)), snd (digits 0 r))
          else (0, s)
        else if Ascii.eqb c "+" then
          if first_is isdigit r
          then (clamp_long (fst (digits 0 r)), snd (digits 0 r))
          else (0, s)
        else if isdigit c
          then (clamp_long (fst (digits 0 (String c r))),
                snd (digits 0 (String c r)))
          else (0, s)
    | EmptyString => (0, s)
    end.
Proof.
  unfold strtol. destruct (skip_space s) as [| c r]; [reflexivity |].
  assert (Hd : forall (neg : bool) (s2 : string),
            match s2 with
            | String c0 _ =>
                if isdigit c0
                then let '(v, rest) := digits 0 s2 in
                     (clamp_long (if neg then - v else v), rest)
                else (0, s)
            | EmptyString => (0, s)
            end
            = if first_is isdigit s2
              then (clamp_long (if neg then - fst (digits 0 s2)
                                else fst (digits 0 s2)),
                    snd (digits 0 s2))
              else (0, s)).
  { intros neg [| c0 r0]; [reflexivity |]. cbn [first_is].
    destruct (isdigit c0); [| reflexivity].
    destruct (digits 0 (String c0 r0)). reflexivity. }
  destruct (Ascii.eqb_spec c "-") as [-> | Hm]; [exact (Hd true r) |].
  destruct (Ascii.eqb_spec c "+") as [-> | Hp]; [exact (Hd false r) |].
  transitivity (match String c r with
                | String c0 _ =>
                    if isdigit c0
                    then let '(v, rest) := digits 0 (String c r) in
                         (clamp_long (if false then - v else v), rest)
                    else (0, s)
                | EmptyString => (0, s)
                end).
  - destruct c as [[] [] [] [] [] [] [] []]; try reflexivity;
      exfalso; (apply Hm; reflexivity) || (apply Hp; reflexivity).
  - exact (Hd false (String c r)).
Qed.

Lemma digits_spec ds :
  forall rest acc,
    all_digits ds = true -> first_is isdigit rest = false ->
    digits acc (ds ++ rest)
    = (acc * 10 ^ Z.of_nat (String.length ds) + decimal ds, rest).
Proof.
  induction ds as [| c r IH]; intros rest acc Hd Hr.
  - cbn [append String.length decimal]. rewrite Z.pow_0_r, Z.mul_1_r, Z.add_0_r.
    destruct rest as [| x rest]; [reflexivity |]. cbn in Hr |- *.
    now rewrite Hr.
  - cbn [all_digits] in Hd. apply andb_true_iff in Hd as (Hc & Hd).
    cbn [append digits]. rewrite Hc, (IH _ _ Hd Hr). f_equal.
    cbn [String.length decimal]. rewrite Nat2Z.inj_succ, Z.pow_succ_r by lia.
    ring.
Qed.

Lemma digits_split s :
  exists ds rest,
    s = (ds ++ rest)%string /\ all_digits ds = true
    /\ first_is isdigit rest = false.
Proof.
  induction s as [| c s (ds & rest & Hs & Hd & Hr)].
  - exists EmptyString, EmptyString. auto.
  - destruct (isdigit c) eqn:Hc.
    + exists (String c ds), rest. cbn. rewrite Hc, Hd, <- Hs. auto.
    + exists EmptyString, (String c s). cbn. auto.
Qed.

Lemma decimal_nonneg ds : all_digits ds = true -> 0 <= decimal ds.
Proof.
  induction ds as [| c r IH]; cbn [all_digits decimal]; [lia |].
  intros H. apply andb_true_iff in H as (Hc & Hd).
  pose proof (isdigit_plain c Hc) as (_ & _ & _ & Hv).
  specialize (IH Hd).
  assert (0 < 10 ^ Z.of_nat (String.length r)) by (apply Z.pow_pos_nonneg; lia).
  nia.
Qed.

Lemma skip_space_app ws x :
  all_space ws = true -> first_is isspace x = false ->
  skip_space (ws ++ x) = x.
Proof.
  induction ws as [| c ws IH]; cbn [all_space append]; intros Hw Hx.
  - apply skip_space_id, Hx.
  - apply andb_true_iff in Hw as (Hc & Hw). cbn [skip_space]. rewrite Hc.
    apply IH; assumption.
Qed.

Lemma clamp_in_int z :
  (clamp_long z <? INT_MIN) || (clamp_long z >? INT_MAX) = false
  <-> INT_MIN <= z <= INT_MAX.
Proof.
  unfold clamp_long, LONG_MIN, LONG_MAX, INT_MIN, INT_MAX.
  rewrite orb_false_iff, Z.ltb_ge, Z.gtb_ltb, Z.ltb_ge. lia.
Qed.

Lemma clamp_id z : INT_MIN <= z <= INT_MAX -> clamp_long z = z.
Proof. unfold clamp_long, LONG_MIN, LONG_MAX, INT_MIN, INT_MAX. lia. Qed.

(** What [is_valid_integer] makes of a string in terms of [strtol]. *)
Lemma valid_integer_strtol str v :
  is_valid_integer str = Some v
  <-> str <> EmptyString /\ snd (strtol str) = EmptyString
      /\ fst (strtol str) = v /\ INT_MIN <= v <= INT_MAX.
Proof.
  unfold is_valid_integer. destruct str as [| c r].
  - cbn. split; [discriminate | intros (H & _); now destruct H].
  - cbn [String.length Nat.eqb].
    destruct (strtol (String c r)) as [num endptr]. cbn [fst snd].
    destruct endptr as [| x e].
    + destruct ((num <? INT_MIN) || (num >? INT_MAX)) eqn:E.
      * split; [discriminate |]. intros (_ & _ & -> & Hv).
        rewrite orb_true_iff, Z.ltb_lt, Z.gtb_ltb, Z.ltb_lt in E. lia.
      * rewrite orb_false_iff, Z.ltb_ge, Z.gtb_ltb, Z.ltb_ge in E.
        split; [intros [= <-]; repeat split; (discriminate || lia) |].
        intros (_ & _ & -> & _). reflexivity.
    + split; [discriminate | intros (_ & H & _); discriminate H].
Qed.

(** X3: [is_valid_integer] accepts a string with the value [v] exactly
    when the string is white space, then at most one sign, then at least
    one decimal digit and nothing else, [v] is the number written, and
    [v] lies in the range of [int]. *)
Theorem is_valid_integer_spec :
  forall (str : string) (v : Z),
    is_valid_integer str = Some v
    <-> exists ws sign ds,
          str = (ws ++ sign ++ ds)%string
          /\ all_space ws = true
          /\ (sign = EmptyString \/ sign = "+"%string \/ sign = "-"%string)
          /\ ds <> EmptyString /\ all_digits ds = true
          /\ v = (if String.eqb sign "-" then - decimal ds else decimal ds)
          /\ INT_MIN <= v <= INT_MAX.
Proof.
  intros str v. rewrite valid_integer_strtol. split.
  - intros (Hne & Hend & Hval & Hv).
    destruct (skip_space_split str) as (ws & Hs & Hws & Hf).
    rewrite strtol_unfold in Hend, Hval.
    assert (Hnum : forall (neg : bool) (s2 : string),
              first_is isdigit s2 = true ->
              snd (digits 0 s2) = EmptyString ->
              clamp_long (if neg then - fst (digits 0 s2)
                          else fst (digits 0 s2)) = v ->
              s2 <> EmptyString /\ all_digits s2 = true
              /\ v = (if neg then - decimal s2 else decimal s2)).
    { intros neg s2 Hfd He Hc.
      destruct (digits_split s2) as (ds & rest & -> & Hd & Hr).
      rewrite (digits_spec ds rest 0 Hd Hr) in He, Hc. cbn [fst snd] in He, Hc.
      subst rest. rewrite str_app_nil in *.
      split; [intros ->; discriminate Hfd |]. split; [exact Hd |].
      rewrite Z.mul_0_l, Z.add_0_l in Hc.
      assert (Hin : INT_MIN <= (if neg then - decimal ds else decimal ds)
                    <= INT_MAX).
      { apply clamp_in_int. rewrite Hc.
        rewrite orb_false_iff, Z.ltb_ge, Z.gtb_ltb, Z.ltb_ge. lia. }
      rewrite clamp_id in Hc by exact Hin. congruence. }
    destruct (skip_space str) as [| c r] eqn:Esk.
    { cbn in Hend. now destruct Hne. }
    destruct (Ascii.eqb_spec c "-") as [-> | Hm].
    { destruct (first_is isdigit r) eqn:Hfd;
        [| cbn in Hend; now destruct Hne].
      destruct (Hnum true r Hfd Hend Hval) as (H1 & H2 & H3).
      exists ws, "-"%string, r. cbn [String.eqb Ascii.eqb Bool.eqb].
      repeat split; auto; lia. }
    destruct (Ascii.eqb_spec c "+") as [-> | Hp].
    { destruct (first_is isdigit r) eqn:Hfd;
        [| cbn in Hend; now destruct Hne].
      destruct (Hnum false r Hfd Hend Hval) as (H1 & H2 & H3).
      exists ws, "+"%string, r. cbn [String.eqb Ascii.eqb Bool.eqb].
      repeat split; auto; lia. }
    destruct (isdigit c) eqn:Hc; [| cbn in Hend; now destruct Hne].
    destruct (Hnum false (String c r) Hc Hend Hval) as (H1 & H2 & H3).
    exists ws, EmptyString, (String c r). cbn [String.eqb].
    repeat split; auto; lia.
  - intros (ws & sign & ds & -> & Hws & Hsign & Hne & Hd & Hval & Hv).
    destruct ds as [| d r]; [now destruct Hne |].
    pose proof Hd as Hd'. cbn [all_digits] in Hd'.
    apply andb_true_iff in Hd' as (Hdd & _).
    destruct (isdigit_plain d Hdd) as (Hsp & Hnm & Hnp & _).
    pose proof (digits_spec (String d r) EmptyString 0 Hd eq_refl) as Hdg.
    rewrite str_app_nil, Z.mul_0_l, Z.add_0_l in Hdg.
    split.
    { destruct ws; [| discriminate].
      destruct Hsign as [-> | [-> | ->]]; discriminate. }
    rewrite strtol_unfold.
    destruct Hsign as [-> | [-> | ->]].
    + cbn [append]. rewrite (skip_space_app ws (String d r) Hws Hsp).
      rewrite Hnm, Hnp, Hdd, Hdg. cbn [fst snd String.eqb] in *.
      subst v. rewrite clamp_id by exact Hv. auto.
    + rewrite (skip_space_app ws ("+" ++ String d r) Hws eq_refl).
      cbn [append Ascii.eqb Bool.eqb first_is]. rewrite Hdd, Hdg.
      cbn [fst snd] in *. cbn [String.eqb Ascii.eqb Bool.eqb] in Hval.
      subst v. rewrite clamp_id by exact Hv. auto.
    + rewrite (skip_space_app ws ("-" ++ String d r) Hws eq_refl).
      cbn [append Ascii.eqb Bool.eqb first_is]. rewrite Hdd, Hdg.
      cbn [fst snd] in *. cbn [String.eqb Ascii.eqb Bool.eqb] in Hval.
      subst v. rewrite clamp_id by exact Hv. auto.
Qed.


(** *** Lines *)

Lemma fgets_chars_spec k :
  forall s,
    let '(l, rest) := fgets_chars k s in
    s = (l ++ rest)%string /\ (String.length l <= k)%nat
    /\ ((exists l', l = (l' ++ String "010" EmptyString)%string
                    /\ has_char "010" l' = false)
        \/ (has_char "010" l = false
            /\ (String.length l = k \/ rest = EmptyString))).
Proof.
  induction k as [| k IH]; intros s.
  - cbn. split; [reflexivity |]. split; [lia |]. right. auto.
  - destruct s as [| c r]; cbn [fgets_chars].
    + cbn. split; [reflexivity |]. split; [lia |]. right. auto.
    + destruct (Ascii.eqb_spec c "010") as [-> | Hc].
      * cbn. split; [reflexivity |]. split; [lia |]. left.
        exists EmptyString. auto.
      * specialize (IH r). destruct (fgets_chars k r) as [l rest].
        destruct IH as (Hs & Hl & Hn). cbn [append String.length].
        split; [now rewrite <- Hs |]. split; [lia |].
        assert (Hcb : Ascii.eqb c "010" = false)
          by (apply Ascii.eqb_neq, Hc).
        destruct Hn as [(l' & -> & Hl') | (Hl' & Hk)].
        -- left. exists (String c l'). cbn. rewrite Hcb. auto.
        -- right. cbn. rewrite Hcb. split; [exact Hl' |].
           destruct Hk as [<- | ->]; auto.
Qed.

Lemma c_str_length s : (String.length (c_str s) <= String.length s)%nat.
Proof.
  induction s as [| c s IH]; cbn; [lia |].
  destruct (Ascii.eqb c "000"); cbn; lia.
Qed.

Lemma c_str_id s : has_char "000" s = false -> c_str s = s.
Proof.
  induction s as [| c s IH]; cbn; [reflexivity |].
  intros H. apply orb_false_iff in H as (-> & H). now rewrite IH.
Qed.

Lemma chop_newline_length s :
  (String.length (chop_newline s) <= String.length s)%nat.
Proof.
  induction s as [| c s IH]; [cbn; lia |].
  cbn [chop_newline]. destruct s as [| d r].
  - destruct (Ascii.eqb c "010"); cbn; lia.
  - cbn [String.length] in *. lia.
Qed.

Lemma chop_newline_last l :
  chop_newline (l ++ String "010" EmptyString) = l.
Proof.
  induction l as [| c l IH]; [reflexivity |].
  cbn [append chop_newline]. rewrite IH.
  destruct (l ++ String "010" EmptyString)%string eqn:E; [| reflexivity].
  destruct l; discriminate E.
Qed.

Lemma chop_newline_id s : has_char "010" s = false -> chop_newline s = s.
Proof.
  induction s as [| c s IH]; [reflexivity |]. cbn [has_char chop_newline].
  intros H. apply orb_false_iff in H as (Hc & H).
  destruct s as [| d r]; [now rewrite Hc | now rewrite IH].
Qed.

Lemma has_char_app c a b :
  has_char c (a ++ b) = has_char c a || has_char c b.
Proof.
  induction a as [| x a IH]; cbn; [reflexivity |].
  now rewrite IH, orb_assoc.
Qed.

(** Whatever [fgets] stored, the line handed out holds no newline. *)
Lemma line_no_newline k :
  forall s,
    has_char "010" (chop_newline (c_str (fst (fgets_chars k s)))) = false.
Proof.
  induction k as [| k IH]; intros s; [reflexivity |].
  destruct s as [| c r]; [reflexivity |]. cbn [fgets_chars].
  destruct (Ascii.eqb_spec c "010") as [-> | Hc]; [reflexivity |].
  specialize (IH r). destruct (fgets_chars k r) as [l rest]. cbn [fst] in *.
  cbn [c_str]. destruct (Ascii.eqb c "000"); [reflexivity |].
  assert (Hcb : Ascii.eqb c "010" = false) by (apply Ascii.eqb_neq, Hc).
  cbn [chop_newline]. destruct (c_str l) as [| d x].
  - rewrite Hcb. cbn. now rewrite Hcb.
  - cbn [has_char]. rewrite Hcb. exact IH.
Qed.

(** X4: [read_input] with a buffer of [size] characters, [size] at least
    2.  At the end of the input it fails with [UTILS_ERROR_IO_FAILED] and
    nothing is consumed; otherwise it succeeds with a line of at most
    [size - 1] characters that holds no newline.  When the input holds no
    zero character, the line is the input up to its first newline, which
    is consumed with it, or, where no newline comes in time, the first
    [size - 1] characters or the whole of the input. *)
Theorem read_input_line :
  forall (size : Z) (stdin : string),
    2 <= size <= INT_MAX ->
    match read_input true size stdin with
    | (UTILS_SUCCESS, Some line, rest) =>
        stdin <> EmptyString
        /\ Z.of_nat (String.length line) <= size - 1
        /\ has_char "010" line = false
        /\ (has_char "000" stdin = false ->
            stdin = (line ++ String "010" rest)%string
            \/ (stdin = (line ++ rest)%string
                /\ (Z.of_nat (String.length line) = size - 1
                    \/ rest = EmptyString)))
    | (UTILS_ERROR_IO_FAILED, None, rest) =>
        stdin = EmptyString /\ rest = EmptyString
    | _ => False
    end.
Proof.
  intros size stdin Hsize. unfold read_input. cbn [negb].
  replace (size =? 0) with false by (symmetry; apply Z.eqb_neq; lia).
  rewrite wrap_id by (unfold in_int, INT_MIN, INT_MAX in *; lia).
  unfold fgets.
  replace (size <=? 0) with false by (symmetry; apply Z.leb_gt; lia).
  replace (size =? 1) with false by (symmetry; apply Z.eqb_neq; lia).
  destruct stdin as [| c r]; [auto |].
  pose proof (fgets_chars_spec (Z.to_nat (size - 1)) (String c r)) as Hspec.
  pose proof (line_no_newline (Z.to_nat (size - 1)) (String c r)) as Hnl.
  destruct (fgets_chars (Z.to_nat (size - 1)) (String c r)) as [l rest].
  cbn [fst] in Hnl. destruct Hspec as (Hs & Hl & Hshape).
  split; [discriminate |]. split.
  { pose proof (chop_newline_length (c_str l)). pose proof (c_str_length l).
    lia. }
  split; [exact Hnl |]. intros Hnul.
  assert (Hl0 : has_char "000" l = false).
  { rewrite Hs, has_char_app in Hnul. now apply orb_false_iff in Hnul. }
  rewrite (c_str_id l Hl0).
  destruct Hshape as [(l' & -> & Hl') | (Hl' & Hk)].
  - left. rewrite chop_newline_last. rewrite Hs.
    clear. induction l' as [| x l' IH]; cbn; [reflexivity | now rewrite IH].
  - right. rewrite (chop_newline_id l Hl'). split; [exact Hs |].
    destruct Hk as [Hk | ->]; [left; lia | right; reflexivity].
Qed.

Lemma read_input_line_witness :
  read_input true 256 (String "3" (String "010" "rest"))
  = (UTILS_SUCCESS, Some (String "3" EmptyString), "rest"%string)
  /\ has_char "010" (String "3" EmptyString) = false.
Proof.
  pose proof (read_input_line 256 (String "3" (String "010" "rest"))) as H.
  split; [reflexivity |].
  assert (Hsize : 2 <= 256 <= INT_MAX) by (unfold INT_MAX; lia).
  specialize (H Hsize). cbn in H. apply H.
Defined.

(** X5: [wait_for_enter] consumes the input up to and including its first
    newline; when the input holds no newline the loop never ends. *)
Theorem wait_for_enter_spec :
  forall stdin : string,
    match wait_for_enter stdin with
    | Some rest =>
        exists skipped,
          stdin = (skipped ++ String "010" rest)%string
          /\ has_char "010" skipped = false
    | None => has_char "010" stdin = false
    end.
Proof.
  induction stdin as [| c r IH]; [reflexivity |]. cbn [wait_for_enter].
  destruct (Ascii.eqb_spec c "010") as [-> | Hc].
  - exists EmptyString. auto.
  - assert (Hcb : Ascii.eqb c "010" = false) by (apply Ascii.eqb_neq, Hc).
    destruct (wait_for_enter r) as [rest |].
    + destruct IH as (sk & -> & Hsk). exists (String c sk). cbn.
      rewrite Hcb. auto.
    + cbn. now rewrite Hcb.
Qed.

End InputProps.

Section BankProps.
Import CInt CString Questions Invariants Shapes.

Lemma strncpy_length n : forall s, (String.length (strncpy n s) <= n)%nat.
Proof.
  induction n as [| n IH]; intros [| c s]; cbn; try lia.
  specialize (IH s). lia.
Qed.

Lemma strncpy_has_char n c :
  forall s, has_char c s = false -> has_char c (strncpy n s) = false.
Proof.
  induction n as [| n IH]; intros [| x s]; cbn; try reflexivity.
  intros H. apply orb_false_iff in H as (-> & H). now rewrite IH.
Qed.

Lemma before_has_char s c : has_char c (before s c) = false.
Proof.
  induction s as [| x s IH]; cbn; [reflexivity |].
  destruct (Ascii.eqb x c) eqn:E; cbn; [reflexivity |]. now rewrite E.
Qed.

(** Every slot the option loop fills holds at most 255 characters, none
    of them a double quote. *)
Lemma parse_options_slots n :
  forall s,
    Forall (fun o => (String.length o <= 255)%nat
                     /\ has_char dquote o = false)
           (parse_options n s).
Proof.
  induction n as [| n IH]; intros s0; cbn [parse_options]; [constructor |].
  destruct (strchr s0 dquote) as [p |]; [| constructor].
  destruct (strchr (next p) dquote) as [e |]; [| constructor].
  assert (Ho : (String.length (strncpy (Z.to_nat (MAX_ANSWER_LEN - 1))
                                 (before (next p) dquote)) <= 255)%nat
               /\ has_char dquote (strncpy (Z.to_nat (MAX_ANSWER_LEN - 1))
                                     (before (next p) dquote)) = false).
  { split; [apply (strncpy_length 255) |].
    apply strncpy_has_char, before_has_char. }
  destruct (next e) as [| c r]; [constructor; [exact Ho | apply IH] |].
  destruct c as [[] [] [] [] [] [] [] []];
    constructor; solve [exact Ho | apply IH | constructor].
Qed.

Lemma parse_difficulty_range line :
  parse_difficulty line = DIFFICULTY_EASY
  \/ parse_difficulty line = DIFFICULTY_MEDIUM
  \/ parse_difficulty line = DIFFICULTY_HARD.
Proof.
  unfold parse_difficulty.
  destruct (strstr line (quoted "difficulty")) as [p |]; [| auto].
  destruct (strchr p ":") as [p1 |]; [| auto].
  destruct (strchr p1 dquote) as [p2 |]; [| auto].
  destruct (starts_with "easy" (next p2)); [auto |].
  destruct (starts_with "medium" (next p2)); [auto |].
  destruct (starts_with "hard" (next p2)); auto.
Qed.

(** The fields of an accepted record, as [parse_json_question] computes
    them. *)
Lemma parse_fields json q :
  parse_json_question json = Some q ->
  exists q_start opt_start corr,
    question q = strncpy (Z.to_nat (MAX_QUESTION_LEN - 1))
                         (before q_start dquote)
    /\ options q = parse_options (Z.to_nat MAX_OPTIONS) opt_start
    /\ correct_answer q = atoi corr
    /\ 0 <= correct_answer q < Z.of_nat (length (options q))
    /\ difficulty q = parse_difficulty (local_line json)
    /\ category q = CATEGORY_GENERAL.
Proof.
  unfold parse_json_question.
  destruct (strstr (local_line json) (quoted "question")) as [p1 |];
    [cbn [mbind option_bind] | discriminate].
  destruct (strchr p1 ":") as [p2 |]; [cbn [mbind option_bind] | discriminate].
  destruct (strchr p2 dquote) as [p3 |];
    [cbn [mbind option_bind] | discriminate].
  destruct (strchr (next p3) dquote) as [p4 |];
    [cbn [mbind option_bind] | discriminate].
  destruct (strstr (local_line json) (quoted "options")) as [p5 |];
    [cbn [mbind option_bind] | discriminate].
  destruct (strchr p5 "[") as [p6 |]; [cbn [mbind option_bind] | discriminate].
  destruct (strstr (local_line json) (quoted "correct")) as [p7 |];
    [cbn [mbind option_bind] | discriminate].
  destruct (strchr p7 ":") as [p8 |]; [cbn [mbind option_bind] | discriminate].
  set (opts := parse_options (Z.to_nat MAX_OPTIONS) (next p6)).
  set (c := atoi (skip_space (next p8))).
  destruct (Z.ltb_spec c 0) as [| Hlo]; [discriminate |].
  destruct (Z.geb_spec c (Z.of_nat (length opts))) as [| Hhi]; [discriminate |].
  cbn [orb]. intros [= <-]. cbn.
  exists (next p3), (next p6), (skip_space (next p8)).
  repeat split; auto; lia.
Qed.

(** X6: a question accepted by [parse_json_question] has between one and
    four options, the index of its right answer points at one of them,
    its text has at most 511 characters and each option at most 255, none
    of them holds a double quote, its difficulty is one of the three
    levels and its category is [CATEGORY_GENERAL]. *)
Theorem parse_accepted_well_formed :
  forall (json : string) (q : Question),
    parse_json_question json = Some q ->
    (1 <= length (options q) <= 4)%nat
    /\ 0 <= correct_answer q < Z.of_nat (length (options q))
    /\ (String.length (question q) <= 511)%nat
    /\ has_char dquote (question q) = false
    /\ Forall (fun o => (String.length o <= 255)%nat
                        /\ has_char dquote o = false) (options q)
    /\ (difficulty q = DIFFICULTY_EASY \/ difficulty q = DIFFICULTY_MEDIUM
        \/ difficulty q = DIFFICULTY_HARD)
    /\ category q = CATEGORY_GENERAL.
Proof.
  intros json q H.
  destruct (parse_fields json q H)
    as (q_start & opt_start & corr & Hq & Ho & _ & Hc & Hd & Hcat).
  split.
  { split; [lia |]. rewrite Ho. apply (parse_options_length 4). }
  split; [exact Hc |]. rewrite Hq, Ho, Hd.
  split; [apply (strncpy_length 511) |].
  split; [apply strncpy_has_char, before_has_char |].
  split; [apply parse_options_slots |].
  split; [apply parse_difficulty_range | exact Hcat].
Qed.

Lemma parse_accepted_well_formed_witness :
  parse_json_question Samples.sample_record = Some Samples.sample_question
  /\ (1 <= length (options Samples.sample_question) <= 4)%nat
  /\ 0 <= correct_answer Samples.sample_question
       < Z.of_nat (length (options Samples.sample_question)).
Proof.
  assert (H : parse_json_question Samples.sample_record
              = Some Samples.sample_question) by (vm_compute; reflexivity).
  split; [exact H |].
  destruct (parse_accepted_well_formed _ _ H) as (H1 & H2 & _).
  exact (conj H1 H2).
Defined.

Lemma strstr_occurs needle l :
  forall r, strstr (l ++ needle ++ r) needle <> None.
Proof.
  induction l as [| c l IH]; intros r.
  - cbn [append]. destruct (needle ++ r)%string eqn:E;
      cbn [strstr]; unfold starts_with; rewrite <- E, prefix_app; discriminate.
  - cbn [append strstr].
    destruct (starts_with needle (String c (l ++ needle ++ r)));
      [discriminate | apply IH].
Qed.

Lemma strstr_none s needle :
  strstr s needle = None -> ~ occurs needle s.
Proof.
  intros H (l & r & ->). exact (strstr_occurs needle l r H).
Qed.

Lemma strstr_found s needle :
  forall p, strstr s needle = Some p -> occurs needle s.
Proof.
  induction s as [| c s IH]; intros p; cbn [strstr].
  - destruct (starts_with needle "") eqn:Ep; [| discriminate].
    intros _. destruct (prefix_split _ _ Ep) as (r & Hr).
    exists EmptyString, r. exact Hr.
  - destruct (starts_with needle (String c s)) eqn:Ep.
    + intros _. destruct (prefix_split _ _ Ep) as (r & Hr).
      exists EmptyString, r. exact Hr.
    + intros E. destruct (IH p E) as (l & r & ->).
      exists (String c l), r. reflexivity.
Qed.

Lemma not_occurs_strstr s needle :
  ~ occurs needle s -> strstr s needle = None.
Proof.
  intros Hn. destruct (strstr s needle) as [p |] eqn:E; [| reflexivity].
  destruct Hn. exact (strstr_found s needle p E).
Qed.

(** X7: a record is rejected when one of the keys [question], [options]
    and [correct], in double quotes, does not occur in its first 1023
    characters. *)
Theorem parse_rejects_missing_key :
  forall json : string,
    ~ occurs (quoted "question") (local_line json)
    \/ ~ occurs (quoted "options") (local_line json)
    \/ ~ occurs (quoted "correct") (local_line json) ->
    parse_json_question json = None.
Proof.
  intros json H. unfold parse_json_question.
  destruct (strstr (local_line json) (quoted "question")) as [p1 |] eqn:E1.
  2:{ reflexivity. }
  cbn [mbind option_bind].
  destruct (strchr p1 ":") as [p2 |]; [cbn [mbind option_bind] | reflexivity].
  destruct (strchr p2 dquote) as [p3 |];
    [cbn [mbind option_bind] | reflexivity].
  destruct (strchr (next p3) dquote) as [p4 |];
    [cbn [mbind option_bind] | reflexivity].
  destruct (strstr (local_line json) (quoted "options")) as [p5 |] eqn:E2.
  2:{ reflexivity. }
  cbn [mbind option_bind].
  destruct (strchr p5 "[") as [p6 |]; [cbn [mbind option_bind] | reflexivity].
  destruct (strstr (local_line json) (quoted "correct")) as [p7 |] eqn:E3.
  2:{ reflexivity. }
  exfalso. destruct H as [H | [H | H]];
    apply not_occurs_strstr in H; congruence.
Qed.

Lemma parse_rejects_missing_key_witness :
  strstr (local_line (Samples.json "{'question': 'Q?', 'options': ['a', 'b']}"))
         (quoted "correct") = None
  /\ parse_json_question
       (Samples.json "{'question': 'Q?', 'options': ['a', 'b']}") = None.
Proof.
  split; [vm_compute; reflexivity |].
  apply parse_rejects_missing_key. right. right.
  apply strstr_none. vm_compute. reflexivity.
Defined.

(** *** The bank *)

(** X8: [question_bank_add] on a bank that holds no more questions than
    its capacity: the count grows by one, the new question is found at
    the old count, the questions before it are kept, and the capacity is
    unchanged or doubled and still covers the count. *)
Theorem question_bank_add_spec :
  forall (b : QuestionBank) (q : Question),
    0 < capacity b -> count b <= capacity b ->
    let b' := question_bank_add b q in
    count b' = count b + 1
    /\ questions b' !! Z.to_nat (count b) = Some q
    /\ (forall i, (i < length (questions b))%nat ->
                  questions b' !! i = questions b !! i)
    /\ 0 < capacity b' /\ count b' <= capacity b'
    /\ (capacity b' = capacity b \/ capacity b' = 2 * capacity b).
Proof.
  intros b q Hpos Hle. cbv zeta. unfold question_bank_add, count in *.
  cbn [questions capacity]. rewrite length_app. cbn [length].
  split; [lia |]. split.
  { rewrite Nat2Z.id. apply list_lookup_middle. reflexivity. }
  split; [intros i Hi; now apply lookup_app_l |].
  destruct (Z.geb_spec (Z.of_nat (length (questions b))) (capacity b)); lia.
Qed.

Lemma question_bank_add_spec_witness :
  0 < capacity question_bank_init
  /\ count question_bank_init <= capacity question_bank_init
  /\ questions (question_bank_add question_bank_init Samples.three_options)
     !! Z.to_nat (count question_bank_init)
     = Some Samples.three_options.
Proof.
  assert (H1 : 0 < capacity question_bank_init) by reflexivity.
  assert (H2 : count question_bank_init <= capacity question_bank_init)
    by (vm_compute; discriminate).
  split; [exact H1 |]. split; [exact H2 |].
  exact (proj1 (proj2 (question_bank_add_spec question_bank_init
                         Samples.three_options H1 H2))).
Defined.

(** *** The loader *)

(** One character read, [done] being the part of the file read before
    it: the buffer stays a piece of what was read, of at most 8191
    characters, and a question is added only as the parse of such a
    piece. *)
Lemma load_char_step st c done :
  (exists pre, done = (pre ++ buffer st)%string) ->
  (exists pre, (done ++ String c EmptyString)%string
               = (pre ++ buffer (load_char st c))%string)
  /\ buffer_pos (load_char st c) <= 8191
  /\ ((bank (load_char st c) = bank st
       /\ loaded (load_char st c) = loaded st)
      \/ (exists pre piece q,
            (done ++ String c EmptyString)%string = (pre ++ piece)%string
            /\ parse_json_question (c_str piece) = Some q
            /\ bank (load_char st c) = question_bank_add (bank st) q
            /\ loaded (load_char st c) = add (loaded st) 1)).
Proof.
  intros (pre & Hpre). unfold load_char, buffer_pos.
  assert (Hall : exists p, (done ++ String c "")%string = (p ++ "")%string).
  { exists (done ++ String c "")%string. now rewrite str_app_nil. }
  assert (Hbuf : exists p, (done ++ String c "")%string
                           = (p ++ (buffer st ++ String c ""))%string).
  { exists pre. now rewrite Hpre, str_app_assoc. }
  assert (Hlen : Z.of_nat (String.length (buffer st)) < 8191 ->
                 Z.of_nat (String.length (buffer st ++ String c "")) <= 8191).
  { rewrite str_length_app. cbn. lia. }
  destruct (Z.geb_spec (Z.of_nat (String.length (buffer st))) (8192 - 1))
    as [Hfull | Hroom]; cbn [buffer bank loaded].
  { split; [exact Hall |]. split; [cbn; lia | auto]. }
  specialize (Hlen ltac:(lia)).
  destruct (Ascii.eqb_spec c "{") as [-> | Hopen].
  { destruct (negb (in_object st)); cbn [buffer bank loaded].
    - split; [now exists done |]. split; [cbn; lia | auto].
    - split; [exact Hbuf |]. split; [exact Hlen | auto]. }
  destruct (Ascii.eqb c "}");
    [| cbn [buffer bank loaded]; split; [exact Hbuf |];
       split; [exact Hlen | auto]].
  destruct (in_object st && (add (brace_count st) (-1) =? 0));
    [| cbn [buffer bank loaded]; split; [exact Hbuf |];
       split; [exact Hlen | auto]].
  destruct (parse_json_question _) as [q |] eqn:E; cbn [buffer bank loaded].
  - split; [exact Hall |]. split; [cbn; lia |]. right.
    destruct Hbuf as (p & Hp). exists p, (buffer st ++ String c "")%string, q.
    auto.
  - split; [exact Hall |]. split; [cbn; lia | auto].
Qed.

Lemma occurs_suffix pre piece rest :
  occurs piece ((pre ++ piece) ++ rest).
Proof. exists pre, rest. now rewrite str_app_assoc. Qed.

Lemma load_chars_pieces b0 file todo :
  forall done st added,
    file = (done ++ todo)%string ->
    (exists pre, done = (pre ++ buffer st)%string) ->
    questions (bank st) = questions b0 ++ added ->
    Forall (fun q => exists piece,
                       occurs piece file
                       /\ parse_json_question (c_str piece) = Some q) added ->
    loaded st = Z.of_nat (length added) ->
    Z.of_nat (length added) + Z.of_nat (String.length todo) <= INT_MAX ->
    exists added',
      questions (bank (load_chars st todo)) = questions b0 ++ added'
      /\ Forall (fun q => exists piece,
                            occurs piece file
                            /\ parse_json_question (c_str piece) = Some q)
                added'
      /\ loaded (load_chars st todo) = Z.of_nat (length added').
Proof.
  induction todo as [| c todo IH]; intros done st added Hfile Hpre Hb Hall Hn Hmax.
  - exists added. cbn. auto.
  - cbn [load_chars]. cbn [String.length] in Hmax.
    assert (Hfile' : file = ((done ++ String c "") ++ todo)%string)
      by (now rewrite str_app_assoc).
    destruct (load_char_step st c done Hpre)
      as (Hpre' & _ & [(Hbk & Hl) | (pre & piece & q & Hp & Hq & Hbk & Hl)]).
    + apply (IH _ _ added Hfile' Hpre'); [congruence | exact Hall | congruence | lia].
    + apply (IH _ _ (added ++ [q]) Hfile' Hpre').
      * rewrite Hbk. cbn. rewrite Hb. now rewrite <- app_assoc.
      * apply Forall_app. split; [exact Hall |].
        constructor; [| constructor]. exists piece. split; [| exact Hq].
        rewrite Hfile', Hp. apply occurs_suffix.
      * rewrite Hl, Hn, length_app. cbn [length]. unfold add.
        rewrite wrap_id; [lia |]. unfold in_int, INT_MIN, INT_MAX in *. lia.
      * rewrite length_app. cbn [length]. lia.
Qed.

(** X9: [question_bank_load_from_json], on a file of at most [INT_MAX]
    characters, keeps the questions of the bank and appends new ones; the
    number it returns is the number appended, and each question appended
    is the parse of a piece of the file. *)
Theorem loader_appends_pieces :
  forall (b : QuestionBank) (file : string),
    Z.of_nat (String.length file) <= INT_MAX ->
    exists added,
      questions (fst (question_bank_load_from_json b (Some file)))
      = questions b ++ added
      /\ snd (question_bank_load_from_json b (Some file))
         = Z.of_nat (length added)
      /\ Forall (fun q => exists piece,
                            occurs piece file
                            /\ parse_json_question (c_str piece) = Some q)
                added.
Proof.
  intros b file Hlen. unfold question_bank_load_from_json. cbn [fst snd].
  destruct (load_chars_pieces b file file EmptyString (load_start b) [])
    as (added & Hb & Hall & Hn).
  - reflexivity.
  - now exists EmptyString.
  - cbn. now rewrite app_nil_r.
  - constructor.
  - reflexivity.
  - cbn [length]. lia.
  - exists added. auto.
Qed.

Lemma loader_appends_pieces_witness :
  Z.of_nat (String.length Samples.two_records) <= INT_MAX
  /\ exists added,
       questions (fst (question_bank_load_from_json question_bank_init
                         (Some Samples.two_records)))
       = questions question_bank_init ++ added
       /\ snd (question_bank_load_from_json question_bank_init
                 (Some Samples.two_records))
          = Z.of_nat (length added)
       /\ Forall (fun q => exists piece,
                             occurs piece Samples.two_records
                             /\ parse_json_question (c_str piece) = Some q)
                 added.
Proof.
  assert (H : Z.of_nat (String.length Samples.two_records) <= INT_MAX)
    by (vm_compute; discriminate).
  split; [exact H |].
  exact (loader_appends_pieces question_bank_init Samples.two_records H).
Defined.

Lemma bank_add_bounds b q :
  0 < capacity b -> count b <= capacity b ->
  0 < capacity (question_bank_add b q)
  /\ count (question_bank_add b q) <= capacity (question_bank_add b q).
Proof.
  unfold question_bank_add, count. cbn [questions capacity].
  rewrite length_app. cbn [length]. intros Hpos Hle.
  destruct (Z.geb_spec (Z.of_nat (length (questions b))) (capacity b)); lia.
Qed.

Lemma load_chars_bounds file :
  forall st,
    buffer_pos st <= 8191 ->
    0 < capacity (bank st) -> count (bank st) <= capacity (bank st) ->
    buffer_pos (load_chars st file) <= 8191
    /\ 0 < capacity (bank (load_chars st file))
    /\ count (bank (load_chars st file)) <= capacity (bank (load_chars st file)).
Proof.
  induction file as [| c file IH]; intros st Hbuf Hcap Hcnt; [cbn; auto |].
  cbn [load_chars].
  destruct (load_char_step st c (buffer st)) as (_ & Hbuf' & Hcase);
    [now exists EmptyString |].
  assert (Hbank : 0 < capacity (bank (load_char st c))
                  /\ count (bank (load_char st c))
                     <= capacity (bank (load_char st c))).
  { destruct Hcase as [(-> & _) | (_ & _ & q & _ & _ & -> & _)];
      [auto | apply bank_add_bounds; assumption]. }
  apply IH; [exact Hbuf' | apply Hbank | apply Hbank].
Qed.

(** X10: while the loader reads the file its write position never passes
    the last place of the 8192-character buffer, whatever the file, and
    the bank never holds more questions than its capacity. *)
Theorem loader_stays_in_bounds :
  forall (b : QuestionBank) (file : string),
    0 < capacity b -> count b <= capacity b ->
    let st := load_chars (load_start b) file in
    buffer_pos st <= 8191
    /\ 0 < capacity (bank st) /\ count (bank st) <= capacity (bank st).
Proof.
  intros b file Hcap Hcnt. cbv zeta.
  apply load_chars_bounds; [unfold buffer_pos; cbn; lia | exact Hcap | exact Hcnt].
Qed.

Lemma loader_stays_in_bounds_witness :
  0 < capacity question_bank_init
  /\ count question_bank_init <= capacity question_bank_init
  /\ buffer_pos (load_chars (load_start question_bank_init)
                   Samples.two_records) <= 8191.
Proof.
  assert (H1 : 0 < capacity question_bank_init) by reflexivity.
  assert (H2 : count question_bank_init <= capacity question_bank_init)
    by (vm_compute; discriminate).
  split; [exact H1 |]. split; [exact H2 |].
  exact (proj1 (loader_stays_in_bounds question_bank_init
                  Samples.two_records H1 H2)).
Defined.

(** *** The loader that reads lines *)

Lemma strchr_has_char s c :
  forall p, strchr s c = Some p -> has_char c s = true.
Proof.
  induction s as [| a s IH]; intros p; cbn; [discriminate |].
  destruct (Ascii.eqb a c); [reflexivity |]. intros H. exact (IH p H).
Qed.

Lemma has_char_occurs c s :
  has_char c s = true -> occurs (String c EmptyString) s.
Proof.
  induction s as [| a s IH]; cbn; [discriminate |].
  destruct (Ascii.eqb_spec a c) as [-> | _].
  - intros _. now exists EmptyString, s.
  - intros H. destruct (IH H) as (l & r & ->). now exists (String a l), r.
Qed.

(** A record is accepted only if an opening bracket stands in it. *)
Lemma parse_needs_bracket line :
  strstr line "[" = None -> parse_json_question line = None.
Proof.
  intros Hnone.
  destruct (parse_json_question line) as [q |] eqn:E; [| reflexivity].
  exfalso. apply (strstr_none _ _ Hnone). apply has_char_occurs.
  destruct (has_char "[" line) eqn:Hb; [reflexivity |].
  apply (strncpy_has_char 1023) in Hb. fold (local_line line) in Hb.
  revert E. unfold parse_json_question.
  destruct (strstr (local_line line) (quoted "question")) as [p1 |];
    [cbn [mbind option_bind] | discriminate].
  destruct (strchr p1 ":") as [p2 |]; [cbn [mbind option_bind] | discriminate].
  destruct (strchr p2 dquote) as [p3 |];
    [cbn [mbind option_bind] | discriminate].
  destruct (strchr (next p3) dquote) as [p4 |];
    [cbn [mbind option_bind] | discriminate].
  destruct (strstr (local_line line) (quoted "options")) as [p5 |] eqn:E5;
    [cbn [mbind option_bind] | discriminate].
  destruct (strchr p5 "[") as [p6 |] eqn:E6; [| discriminate].
  intros _. apply strchr_has_char in E6.
  destruct (strstr_found _ _ _ E5) as (l & r & Hl).
  assert (Hsuf : exists l', local_line line = (l' ++ p5)%string).
  { clear - E5. revert E5. generalize (local_line line) as t.
    induction t as [| c t IH]; cbn [strstr].
    - destruct (starts_with _ _); [| discriminate].
      intros [= <-]. now exists EmptyString.
    - destruct (starts_with _ _).
      + intros [= <-]. now exists EmptyString.
      + intros H. destruct (IH H) as (l' & ->). now exists (String c l'). }
  destruct Hsuf as (l' & Hl'). rewrite Hl', has_char_app, E6 in Hb.
  now rewrite orb_true_r in Hb.
Qed.

Lemma load_lines_nothing fuel :
  forall stream in_array loaded b,
    load_lines fuel stream in_array loaded b = (b, loaded).
Proof.
  induction fuel as [| fuel IH]; intros stream in_array loaded b;
    cbn [load_lines]; [reflexivity |].
  destruct (fgets 2048 stream) as [[chars rest] |]; [| reflexivity].
  destruct (skipped_line (c_str chars)); [apply IH |].
  destruct (strstr (c_str chars) "[") as [p |] eqn:E; cbn [found];
    [apply IH |].
  destruct (negb in_array); [apply IH |].
  destruct (found (strstr (c_str chars) "]")); [reflexivity |].
  rewrite (parse_needs_bracket _ E). apply IH.
Qed.

(** X11: the loader that reads the file line by line adds no question and
    returns 0, whatever the file.  It skips every line that holds an
    opening bracket, and a record without one has no list of options. *)
Theorem line_loader_loads_nothing :
  forall (b : QuestionBank) (file : string),
    question_bank_load_from_json_lines b (Some file) = (b, 0).
Proof.
  intros b file. unfold question_bank_load_from_json_lines.
  apply load_lines_nothing.
Qed.

(** *** Drawing a question *)

Lemma lookup_In {A : Type} (l : list A) :
  forall k x, l !! k = Some x -> In x l.
Proof.
  induction l as [| a l IH]; intros [| k] x; cbn; try discriminate.
  - intros [= <-]. now left.
  - intros H. right. exact (IH k x H).
Qed.

Lemma In_lookup {A : Type} (l : list A) x :
  In x l -> exists k, l !! k = Some x.
Proof.
  induction l as [| a l IH]; intros []; [exists O; now subst |].
  destruct IH as (k & Hk); [assumption |]. now exists (S k).
Qed.

Lemma valid_indices_spec qs d :
  forall i idx,
    In idx (valid_indices_from i qs d)
    <-> exists k q, idx = i + Z.of_nat k /\ qs !! k = Some q
                    /\ difficulty q = d.
Proof.
  induction qs as [| q0 qs IH]; intros i idx; cbn [valid_indices_from].
  - split; [intros [] | intros (k & q & _ & H & _); discriminate H].
  - assert (Htail : In idx (valid_indices_from (i + 1) qs d)
                    <-> exists k q, idx = i + Z.of_nat (S k)
                                    /\ qs !! k = Some q /\ difficulty q = d).
    { rewrite IH. split; intros (k & q & -> & H); exists k, q;
        (split; [lia | exact H]). }
    destruct (Z.eqb_spec (difficulty q0) d) as [Hd | Hd]; cbn [In];
      rewrite ?Htail; split.
    + intros [<- | (k & q & -> & H)];
        [exists O, q0; cbn; split; [lia | auto] | exists (S k), q; auto].
    + intros ([| k] & q & -> & H & Hq); [left; lia | right; eauto].
    + intros (k & q & -> & H); exists (S k), q; auto.
    + intros ([| k] & q & -> & H & Hq); [| eauto].
      cbn in H. injection H as <-. contradiction.
Qed.

Lemma rem_index r n :
  0 <= r -> 0 < n <= INT_MAX ->
  0 <= rem r n < n.
Proof.
  intros Hr Hn. unfold rem.
  pose proof (Z.rem_bound_pos r n Hr ltac:(lia)).
  rewrite wrap_id; [lia |]. unfold in_int, INT_MIN, INT_MAX in *. lia.
Qed.

Lemma valid_indices_length qs d :
  forall i, (length (valid_indices_from i qs d) <= length qs)%nat.
Proof.
  induction qs as [| q qs IH]; intros i; cbn; [lia |].
  specialize (IH (i + 1)). destruct (difficulty q =? d); cbn; lia.
Qed.

(** X12: [question_bank_get_random], [r] being the value of [rand()],
    returns a question of the bank, of the difficulty asked for when that
    is one of the three levels and of any difficulty otherwise; it
    returns nothing exactly when the bank holds no such question. *)
Theorem get_random_spec :
  forall (b : QuestionBank) (d r : Z),
    0 <= r -> count b <= INT_MAX ->
    let wanted (q : Question) :=
      0 <= d < DIFFICULTY_COUNT -> difficulty q = d in
    (forall q, question_bank_get_random b d r = Some q ->
               In q (questions b) /\ wanted q)
    /\ (question_bank_get_random b d r = None
        <-> forall q, In q (questions b) -> ~ wanted q).
Proof.
  intros b d r Hr Hcount. cbv zeta. unfold question_bank_get_random, count in *.
  destruct (Z.eqb_spec (Z.of_nat (length (questions b))) 0) as [H0 | H0].
  { split; [discriminate |]. split; [| reflexivity].
    intros _ q Hq. destruct (questions b); [destruct Hq | cbn in H0; lia]. }
  destruct (Z.geb_spec d 0) as [Hlo | Hlo]; cbn [andb].
  2:{ (* no filter: d < 0 *)
    rewrite wrap_id by (unfold in_int, INT_MIN, INT_MAX in *; lia).
    pose proof (rem_index r (Z.of_nat (length (questions b))) Hr
                  ltac:(lia)) as Hi.
    destruct (lookup_lt_is_Some_2 (questions b)
                (Z.to_nat (rem r (Z.of_nat (length (questions b))))))
      as (q & Hq); [lia |].
    rewrite Hq. split.
    - intros q' [= <-]. split; [| unfold DIFFICULTY_COUNT; lia].
      exact (lookup_In _ _ _ Hq).
    - split; [discriminate |]. intros H. exfalso.
      apply (H q); [| unfold DIFFICULTY_COUNT; lia].
      exact (lookup_In _ _ _ Hq). }
  destruct (Z.ltb_spec d DIFFICULTY_COUNT) as [Hhi | Hhi].
  2:{ (* no filter: d >= 3 *)
    rewrite wrap_id by (unfold in_int, INT_MIN, INT_MAX in *; lia).
    pose proof (rem_index r (Z.of_nat (length (questions b))) Hr
                  ltac:(lia)) as Hi.
    destruct (lookup_lt_is_Some_2 (questions b)
                (Z.to_nat (rem r (Z.of_nat (length (questions b))))))
      as (q & Hq); [lia |].
    rewrite Hq. split.
    - intros q' [= <-]. split; [| lia].
      exact (lookup_In _ _ _ Hq).
    - split; [discriminate |]. intros H. exfalso.
      apply (H q); [| lia].
      exact (lookup_In _ _ _ Hq). }
  (* a difficulty to match *)
  set (vi := valid_indices_from 0 (questions b) d).
  pose proof (valid_indices_spec (questions b) d 0) as Hvi. fold vi in Hvi.
  pose proof (valid_indices_length (questions b) d 0) as Hlen. fold vi in Hlen.
  destruct (Z.eqb_spec (Z.of_nat (length vi)) 0) as [He | He].
  { split; [discriminate |]. split; [| reflexivity].
    intros _ q Hq Hw. apply In_lookup in Hq as (k & Hk).
    assert (Hin : In (0 + Z.of_nat k) vi)
      by (apply Hvi; exists k, q; auto).
    destruct vi; [destruct Hin | cbn in He; lia]. }
  pose proof (rem_index r (Z.of_nat (length vi)) Hr ltac:(lia)) as Hi.
  destruct (lookup_lt_is_Some_2 vi (Z.to_nat (rem r (Z.of_nat (length vi)))))
    as (idx & Hidx); [lia |].
  rewrite Hidx. cbn [mbind option_bind].
  assert (Hin : In idx vi) by exact (lookup_In _ _ _ Hidx).
  apply Hvi in Hin as (k & q & -> & Hk & Hq).
  replace (Z.to_nat (0 + Z.of_nat k)) with k by lia. rewrite Hk.
  split.
  - intros q' [= <-]. split; [| auto].
    exact (lookup_In _ _ _ Hk).
  - split; [discriminate |]. intros H. exfalso.
    apply (H q); [| auto].
    exact (lookup_In _ _ _ Hk).
Qed.

Lemma get_random_spec_witness :
  0 <= 17 /\ count Samples.small_bank <= INT_MAX
  /\ question_bank_get_random Samples.small_bank 1 17
     = Some Samples.three_options
  /\ In Samples.three_options (questions Samples.small_bank).
Proof.
  assert (Hr : 0 <= 17) by lia.
  assert (Hc : count Samples.small_bank <= INT_MAX)
    by (vm_compute; discriminate).
  split; [exact Hr |]. split; [exact Hc |]. split; [reflexivity |].
  exact (proj1 (proj1 (get_random_spec Samples.small_bank 1 17 Hr Hc)
                  Samples.three_options eq_refl)).
Defined.

(** *** Drawing a question that was not asked yet *)

(** With the entries of [used_questions] in reach, the test of the loops
    reads no entry behind the last one, and keeps an index unless its
    entry, among the first [used_count], is set. *)
Lemma is_unused_spec used used_count i :
  0 <= used_count <= INT_MAX ->
  used_count <= Z.of_nat (length used) -> 0 <= i ->
  exists keep,
    is_unused (Some used) used_count i = Some keep
    /\ (keep = true
        <-> (i < used_count -> used !! Z.to_nat i = Some false)).
Proof.
  intros Huc Hlen Hi. unfold is_unused, to_size_t.
  rewrite Z.mod_small by (unfold INT_MAX in Huc; lia).
  destruct (Z.geb_spec i used_count) as [Hge | Hlt].
  - exists true. split; [reflexivity |]. split; [lia | reflexivity].
  - destruct (lookup_lt_is_Some_2 used (Z.to_nat i)) as (u & Hu); [lia |].
    rewrite Hu. cbn. exists (negb u). split; [reflexivity |].
    destruct u; cbn; split; try discriminate; auto.
    intros H. specialize (H Hlt). discriminate H.
Qed.

Lemma unused_indices_spec used used_count wanted qs :
  0 <= used_count <= INT_MAX ->
  used_count <= Z.of_nat (length used) ->
  forall i, 0 <= i ->
    exists vi,
      unused_indices_from i qs wanted (Some used) used_count = Some vi
      /\ (length vi <= length qs)%nat
      /\ forall idx,
           In idx vi
           <-> exists k q,
                 idx = i + Z.of_nat k /\ qs !! k = Some q
                 /\ matches_filter wanted q
                 /\ (idx < used_count -> used !! Z.to_nat idx = Some false).
Proof.
  intros Huc Hlen.
  induction qs as [| q0 qs IH]; intros i Hi; cbn [unused_indices_from].
  - exists []. split; [reflexivity |]. split; [cbn; lia |]. intros idx.
    split; [intros [] | intros (k & q & _ & H & _); discriminate H].
  - destruct (IH (i + 1) ltac:(lia)) as (vi & -> & Hvl & Hvi).
    destruct (is_unused_spec used used_count i Huc Hlen Hi)
      as (keep0 & Hk0 & Hkeep0).
    assert (Hkeep : exists keep,
               match wanted with
               | Some d' =>
                   if difficulty q0 =? d'
                   then is_unused (Some used) used_count i else Some false
               | None => is_unused (Some used) used_count i
               end = Some keep
               /\ (keep = true
                   <-> matches_filter wanted q0
                       /\ (i < used_count
                           -> used !! Z.to_nat i = Some false))).
    { destruct wanted as [d' |]; cbn [matches_filter].
      - destruct (Z.eqb_spec (difficulty q0) d') as [Hd | Hd].
        + exists keep0. split; [exact Hk0 |]. rewrite Hkeep0. tauto.
        + exists false. split; [reflexivity |]. split; [discriminate | tauto].
      - exists keep0. split; [exact Hk0 |]. rewrite Hkeep0. tauto. }
    destruct Hkeep as (keep & -> & Hkeep). cbn [mbind option_bind].
    assert (Htail : forall idx,
               In idx vi
               <-> exists k q,
                     idx = i + Z.of_nat (S k) /\ qs !! k = Some q
                     /\ matches_filter wanted q
                     /\ (idx < used_count
                         -> used !! Z.to_nat idx = Some false)).
    { intros idx. rewrite Hvi. split; intros (k & q & -> & H);
        exists k, q; (split; [lia | exact H]). }
    exists (if keep then i :: vi else vi). split; [reflexivity |].
    split; [destruct keep; cbn [length]; lia |].
    intros idx. destruct keep; cbn [In]; rewrite ?Htail; split.
    + intros [<- | (k & q & -> & H)].
      * exists O, q0. cbn [lookup list_lookup]. rewrite Z.add_0_r.
        destruct (proj1 Hkeep eq_refl). auto.
      * exists (S k), q. auto.
    + intros ([| k] & q & -> & H); [left; lia |].
      right. exists k, q. auto.
    + intros (k & q & -> & H). exists (S k), q. auto.
    + intros ([| k] & q & -> & H & Hm & Hu); [| exists k, q; auto].
      cbn in H. injection H as <-. rewrite Z.add_0_r in Hu.
      assert (false = true) by (apply Hkeep; auto). discriminate.
Qed.

(** X13: [question_bank_get_random_unused], given a [used] array that
    covers [used_count] places, reads inside the array only.  The
    question it returns is one of the bank, of the difficulty asked for,
    whose place is not marked used or lies at or beyond [used_count]; it
    returns nothing exactly when there is no such question. *)
Theorem get_random_unused_spec :
  forall (b : QuestionBank) (d : Z) (used : list bool) (used_count r : Z),
    0 <= r -> count b <= INT_MAX ->
    0 <= used_count <= INT_MAX -> used_count <= Z.of_nat (length used) ->
    let candidate (i : nat) (q : Question) :=
      questions b !! i = Some q
      /\ (0 <= d < DIFFICULTY_COUNT -> difficulty q = d)
      /\ (Z.of_nat i < used_count -> used !! i = Some false) in
    exists res,
      question_bank_get_random_unused b d (Some used) used_count r = Some res
      /\ (forall q, res = Some q -> exists i, candidate i q)
      /\ (res = None <-> forall i q, ~ candidate i q).
Proof.
  intros b d used used_count r Hr Hcount Huc Hlen. cbv zeta.
  unfold question_bank_get_random_unused, count in *.
  destruct (Z.eqb_spec (Z.of_nat (length (questions b))) 0) as [H0 | H0].
  { exists None. split; [reflexivity |]. split; [discriminate |].
    split; [| reflexivity]. intros _ i q (Hq & _).
    apply lookup_lt_Some in Hq. lia. }
  set (wanted := if (d >=? 0) && (d <? DIFFICULTY_COUNT)
                 then Some d else None).
  assert (Hw : forall q, matches_filter wanted q
                         <-> (0 <= d < DIFFICULTY_COUNT -> difficulty q = d)).
  { intros q. subst wanted.
    destruct (Z.geb_spec d 0); destruct (Z.ltb_spec d DIFFICULTY_COUNT);
      cbn [andb matches_filter]; split; auto; lia. }
  destruct (unused_indices_spec used used_count wanted (questions b)
              Huc Hlen 0 ltac:(lia)) as (vi & -> & Hvl & Hvi).
  cbn [mbind option_bind].
  assert (Hcand : forall idx,
             In idx vi
             <-> exists k q,
                   idx = Z.of_nat k /\ questions b !! k = Some q
                   /\ (0 <= d < DIFFICULTY_COUNT -> difficulty q = d)
                   /\ (Z.of_nat k < used_count -> used !! k = Some false)).
  { intros idx. rewrite Hvi. split.
    - intros (k & q & -> & Hq & Hm & Hu). exists k, q.
      rewrite Z.add_0_l, Nat2Z.id in Hu. rewrite <- Hw. auto.
    - intros (k & q & -> & Hq & Hm & Hu). exists k, q.
      rewrite Z.add_0_l, Nat2Z.id, Hw. auto. }
  destruct (Z.eqb_spec (Z.of_nat (length vi)) 0) as [He | He].
  { exists None. split; [reflexivity |]. split; [discriminate |].
    split; [| reflexivity]. intros _ i q (Hq & Hm & Hu).
    assert (Hin : In (Z.of_nat i) vi) by (apply Hcand; exists i, q; auto).
    destruct vi; [destruct Hin | cbn in He; lia]. }
  pose proof (rem_index r (Z.of_nat (length vi)) Hr ltac:(lia)) as Hi.
  destruct (lookup_lt_is_Some_2 vi (Z.to_nat (rem r (Z.of_nat (length vi)))))
    as (idx & Hidx); [lia |].
  rewrite Hidx. cbn [mbind option_bind].
  assert (Hin : In idx vi) by exact (lookup_In _ _ _ Hidx).
  apply Hcand in Hin as (k & q & -> & Hq & Hm & Hu).
  rewrite Nat2Z.id, Hq. exists (Some q). split; [reflexivity |]. split.
  - intros q' [= <-]. exists k. auto.
  - split; [discriminate |]. intros H. destruct (H k q). auto.
Qed.

Lemma get_random_unused_spec_witness :
  question_bank_get_random_unused Samples.small_bank (-1)
    (Some [true]) 1 17 = Some None
  /\ forall i q,
       ~ (questions Samples.small_bank !! i = Some q
          /\ (0 <= -1 < DIFFICULTY_COUNT -> difficulty q = -1)
          /\ (Z.of_nat i < 1 -> [true] !! i = Some false)).
Proof.
  assert (Hr : 0 <= 17) by lia.
  assert (Hc : count Samples.small_bank <= INT_MAX)
    by (vm_compute; discriminate).
  assert (Hu : 0 <= 1 <= INT_MAX) by (unfold INT_MAX; lia).
  assert (Hl : 1 <= Z.of_nat (length [true])) by (cbn; lia).
  destruct (get_random_unused_spec Samples.small_bank (-1) [true] 1 17
              Hr Hc Hu Hl) as (res & Hres & _ & Hnone).
  split; [reflexivity |].
  apply Hnone. vm_compute in Hres. congruence.
Defined.

Lemma unused_indices_null qs n :
  forall i,
    (forall d, unused_indices_from i qs (Some d) None n
               = Some (valid_indices_from i qs d))
    /\ exists vi,
         unused_indices_from i qs (@None Z) None n = Some vi
         /\ length vi = length qs
         /\ forall k, (k < length qs)%nat -> vi !! k = Some (i + Z.of_nat k).
Proof.
  induction qs as [| q qs IH]; intros i; cbn [unused_indices_from].
  - split; [reflexivity |]. exists []. split; [reflexivity |].
    split; [reflexivity |]. cbn. lia.
  - destruct (IH (i + 1)) as (Hf & vi & Hvi & Hl & Hk). split.
    + intros d. rewrite Hf. cbn [valid_indices_from is_unused].
      destruct (difficulty q =? d); reflexivity.
    + rewrite Hvi. cbn. exists (i :: vi). split; [reflexivity |].
      split; [cbn; lia |]. intros [| k] Hlt; cbn; [f_equal; lia |].
      rewrite Hk by lia. f_equal. lia.
Qed.

(** X14: without a [used] array [question_bank_get_random_unused] selects
    as [question_bank_get_random] does. *)
Theorem get_random_unused_null :
  forall (b : QuestionBank) (d used_count r : Z),
    count b <= INT_MAX ->
    question_bank_get_random_unused b d None used_count r
    = Some (question_bank_get_random b d r).
Proof.
  intros b d n r Hcount.
  unfold question_bank_get_random_unused, question_bank_get_random, count in *.
  destruct (Z.of_nat (length (questions b)) =? 0) eqn:E0; [reflexivity |].
  apply Z.eqb_neq in E0.
  destruct (unused_indices_null (questions b) n 0) as (Hf & vi & Hvi & Hl & Hk).
  destruct ((d >=? 0) && (d <? DIFFICULTY_COUNT)); cbv beta iota zeta.
  - rewrite Hf. cbn [mbind option_bind].
    destruct (Z.of_nat (length (valid_indices_from 0 (questions b) d)) =? 0);
      reflexivity.
  - rewrite Hvi. cbn [mbind option_bind]. rewrite Hl.
    rewrite wrap_id by (unfold in_int, INT_MIN, INT_MAX in *; lia).
    replace (Z.of_nat (length (questions b)) =? 0) with false
      by (symmetry; apply Z.eqb_neq, E0).
    f_equal.
    set (k := Z.to_nat (rem r (Z.of_nat (length (questions b))))).
    destruct (Nat.lt_ge_cases k (length (questions b))) as [Hlt | Hge].
    + rewrite (Hk k Hlt). cbn. now rewrite Z.add_0_l, Nat2Z.id.
    + rewrite (lookup_ge_None_2 vi k) by lia. cbn.
      symmetry. apply lookup_ge_None_2. lia.
Qed.

Lemma get_random_unused_null_witness :
  count Samples.small_bank <= INT_MAX
  /\ question_bank_get_random_unused Samples.small_bank 1 None 0 17
     = Some (Some Samples.three_options).
Proof.
  assert (Hc : count Samples.small_bank <= INT_MAX)
    by (vm_compute; discriminate).
  split; [exact Hc |].
  rewrite (get_random_unused_null Samples.small_bank 1 0 17 Hc). reflexivity.
Defined.
End BankProps.

Section TimerProps.
Import CInt Timer Invariants.

(** While [running] holds, [2 * k] steps of the thread take [k] seconds
    off a count of at least [k]. *)
Lemma run_thread_partial k :
  forall s r e,
    Z.of_nat k <= r <= INT_MAX ->
    run_thread (2 * k)
      {| timer := mkTimer s r true e; thread := Some AtCheck |}
    = {| timer := mkTimer s (r - Z.of_nat k) true e; thread := Some AtCheck |}.
Proof.
  induction k as [| k IH]; intros s r e Hr.
  - cbn. now rewrite Z.sub_0_r.
  - replace (2 * S k)%nat with (S (S (2 * k)))%nat by lia.
    cbn [run_thread]. unfold step_thread at 2. cbn.
    replace (r >? 0) with true by (symmetry; apply Z.gtb_lt; lia).
    unfold step_thread at 1. cbn. unfold add.
    rewrite wrap_id by (unfold in_int, INT_MIN, INT_MAX in *; lia).
    rewrite IH by lia. do 2 f_equal. lia.
Qed.

Lemma fresh_started cd :
  countdown_ok cd -> fresh cd ->
  0 < seconds (timer cd) <= INT_MAX
  /\ fst (timer_start cd)
     = {| timer := mkTimer (seconds (timer cd)) (seconds (timer cd))
                     false false;
          thread := Some AtInit |}.
Proof.
  intros (Hs & _) (_ & Hrun & Hexp & Hrem). split; [exact Hs |].
  unfold timer_start. rewrite Hrun. cbn.
  destruct cd as [[s r run e] th]. cbn in *. now subst.
Qed.

(** X15: a timer started and left alone.  After [k] seconds, [k] at most
    the duration, the remaining time is the duration less [k], and the
    timer is running and not expired; once the time is used up the thread
    ends with the remaining time 0, the timer expired and not running. *)
Theorem countdown_runs_down :
  forall cd : Countdown,
    countdown_ok cd -> fresh cd ->
    let s := seconds (timer cd) in
    (forall k, 0 <= k <= s ->
       let cdk := run_thread (1 + 2 * Z.to_nat k) (fst (timer_start cd)) in
       remaining (timer cdk) = s - k
       /\ running (timer cdk) = true /\ expired (timer cdk) = false)
    /\ (let cde := run_thread (3 + 2 * Z.to_nat s) (fst (timer_start cd)) in
        remaining (timer cde) = 0 /\ expired (timer cde) = true
        /\ running (timer cde) = false /\ thread cde = Some Done).
Proof.
  intros cd Hok Hfresh. cbv zeta.
  destruct (fresh_started cd Hok Hfresh) as (Hs & ->).
  set (s := seconds (timer cd)) in *.
  assert (Hk : forall k, 0 <= k <= s ->
            run_thread (1 + 2 * Z.to_nat k)
              {| timer := mkTimer s s false false; thread := Some AtInit |}
            = {| timer := mkTimer s (s - k) true false;
                 thread := Some AtCheck |}).
  { intros k Hk. rewrite run_thread_add.
    change (run_thread 1 ?c) with (step_thread c).
    unfold step_thread at 1. cbn [timer thread thread_step seconds].
    rewrite run_thread_partial by lia. do 2 f_equal. lia. }
  split.
  - intros k Hk'. rewrite (Hk k Hk'). cbn. auto.
  - replace (3 + 2 * Z.to_nat s)%nat with ((1 + 2 * Z.to_nat s) + 2)%nat by lia.
    rewrite run_thread_add, (Hk s) by lia. rewrite Z.sub_diag. cbn. auto.
Qed.

Lemma countdown_runs_down_witness :
  remaining (timer (run_thread 5 (fst (timer_start Samples.timer_3)))) = 1
  /\ expired (timer (run_thread 9 (fst (timer_start Samples.timer_3)))) = true.
Proof.
  assert (Hok : countdown_ok Samples.timer_3).
  { unfold countdown_ok, INT_MAX. cbn. lia. }
  assert (Hf : fresh Samples.timer_3).
  { unfold fresh, idle. cbn. auto. }
  destruct (countdown_runs_down Samples.timer_3 Hok Hf) as (Hk & He).
  split.
  - exact (proj1 (Hk 2 ltac:(cbn; lia))).
  - exact (proj1 (proj2 He)).
Defined.

(** [timer_stop] straight after [timer_start]: the thread has not run
    yet, it sets [running] anew and counts down to the end. *)
Lemma stop_fresh_started cd :
  countdown_ok cd -> fresh cd ->
  fst (timer_stop (fst (timer_start cd)))
  = {| timer := mkTimer (seconds (timer cd)) 0 false true;
       thread := Some Done |}.
Proof.
  intros Hok Hfresh.
  destruct (fresh_started cd Hok Hfresh) as (Hs & ->).
  unfold timer_stop, join, join_fuel.
  cbn [timer thread seconds remaining running expired fst].
  rewrite Z.max_id.
  apply (join_at_init _ (Z.to_nat (seconds (timer cd)))); [lia | reflexivity].
Qed.

(** [timer_stop] once the thread has taken its first step. *)
Lemma stop_started cd pc :
  countdown_ok cd -> thread cd = Some pc -> pc <> AtInit ->
  fst (timer_stop cd)
  = {| timer := mkTimer (seconds (timer cd)) (remaining (timer cd)) false
                  (match pc with
                   | Done => expired (timer cd)
                   | _ => remaining (timer cd) =? 0
                   end);
       thread := Some Done |}.
Proof.
  destruct cd as [[s r run e] th]. intros (Hs & Hr & Hf) Hth Hpc.
  cbn in Hth. subst th. unfold timer_stop, join, join_fuel.
  cbn [timer thread seconds remaining running expired fst] in *.
  destruct pc; [now destruct Hpc | | | |]; cbn in Hf.
  - destruct Hf as (_ & ->). rewrite join_at_check. now destruct (r =? 0).
  - destruct Hf as (_ & -> & _). rewrite join_at_tick. now destruct (r =? 0).
  - destruct Hf as (_ & -> & _). rewrite join_at_finish. now destruct (r =? 0).
  - now rewrite run_thread_done.
Qed.

(** X16: [timer_stop] called directly after [timer_start], before the
    thread has taken its first step.  The thread raises the running flag
    again when it starts, so that the join waits for the whole countdown:
    the timer is left with no time remaining and expired. *)
Theorem stop_before_first_step :
  forall cd : Countdown,
    countdown_ok cd -> fresh cd ->
    let cd' := fst (timer_stop (fst (timer_start cd))) in
    remaining (timer cd') = 0 /\ expired (timer cd') = true
    /\ running (timer cd') = false /\ thread cd' = Some Done
    /\ seconds (timer cd') = seconds (timer cd).
Proof.
  intros cd Hok Hfresh. cbv zeta.
  rewrite (stop_fresh_started cd Hok Hfresh). cbn. auto.
Qed.

Lemma stop_before_first_step_witness :
  timer_get_remaining (fst (timer_stop (fst (timer_start Samples.timer_3))))
  = 0
  /\ timer_is_expired (fst (timer_stop (fst (timer_start Samples.timer_3))))
     = true.
Proof.
  assert (Hok : countdown_ok Samples.timer_3).
  { unfold countdown_ok, INT_MAX. cbn. lia. }
  assert (Hf : fresh Samples.timer_3).
  { unfold fresh, idle. cbn. auto. }
  destruct (stop_before_first_step Samples.timer_3 Hok Hf) as (H1 & H2 & _).
  exact (conj H1 H2).
Defined.

(** X17: [timer_stop] on a timer whose thread has taken its first step
    keeps the remaining time and the duration, leaves the timer not
    running and its thread ended; where the thread had not ended yet, the
    timer is expired exactly when no time remained. *)
Theorem stop_keeps_remaining :
  forall (cd : Countdown) (pc : ThreadPC),
    countdown_ok cd -> thread cd = Some pc -> pc <> AtInit ->
    let cd' := fst (timer_stop cd) in
    remaining (timer cd') = remaining (timer cd)
    /\ seconds (timer cd') = seconds (timer cd)
    /\ running (timer cd') = false /\ thread cd' = Some Done
    /\ (pc <> Done ->
        expired (timer cd') = (remaining (timer cd) =? 0)).
Proof.
  intros cd pc Hok Hth Hpc. cbv zeta.
  rewrite (stop_started cd pc Hok Hth Hpc). cbn.
  repeat split. intros Hd. destruct pc; congruence.
Qed.

Lemma stop_keeps_remaining_witness :
  remaining (timer Samples.timer_3_ticking) = 2
  /\ remaining (timer (fst (timer_stop Samples.timer_3_ticking))) = 2
  /\ expired (timer (fst (timer_stop Samples.timer_3_ticking))) = false.
Proof.
  assert (Hok : countdown_ok Samples.timer_3_ticking).
  { vm_compute. intuition discriminate. }
  destruct (stop_keeps_remaining Samples.timer_3_ticking AtCheck Hok eq_refl
              ltac:(discriminate)) as (H1 & _ & _ & _ & H2).
  split; [reflexivity |]. split; [exact H1 |].
  exact (H2 ltac:(discriminate)).
Defined.

(** [timer_cleanup] on a countdown that is not waiting for the first
    step of its thread. *)
Lemma cleanup_settled cd :
  settled cd ->
  running (timer (timer_cleanup cd)) = false
  /\ (thread (timer_cleanup cd) = None
      \/ thread (timer_cleanup cd) = Some Done)
  /\ remaining (timer (timer_cleanup cd)) = remaining (timer cd).
Proof.
  intros (Hok & Hni). unfold timer_cleanup.
  destruct (running (timer cd)) eqn:Hrun.
  - destruct (thread cd) as [pc |] eqn:Hth.
    + assert (Hpc : pc <> AtInit) by congruence.
      rewrite (stop_started cd pc Hok Hth Hpc). cbn. auto.
    + destruct Hok as (_ & _ & Hf). rewrite Hth in Hf. cbn in Hf.
      destruct Hf as (Hf & _). congruence.
  - split; [exact Hrun |]. split; [| reflexivity].
    destruct (thread cd) as [[] |] eqn:Hth; auto;
      destruct Hok as (_ & _ & Hf); rewrite Hth in Hf; cbn in Hf;
      destruct Hf as (Hf & _); congruence.
Qed.

(** X18: [timer_cleanup] leaves a timer not running, its thread, if any,
    ended, and the remaining time as it was, unless the thread has not
    taken its first step yet: then the running flag is still down,
    [timer_stop] is not called and the thread is left as it is. *)
Theorem cleanup_joins_started_thread :
  forall cd : Countdown,
    countdown_ok cd ->
    (thread cd <> Some AtInit ->
     running (timer (timer_cleanup cd)) = false
     /\ (thread (timer_cleanup cd) = None
         \/ thread (timer_cleanup cd) = Some Done)
     /\ remaining (timer (timer_cleanup cd)) = remaining (timer cd))
    /\ (thread cd = Some AtInit -> timer_cleanup cd = cd).
Proof.
  intros cd Hok. split.
  - intros Hni. apply cleanup_settled. split; assumption.
  - intros Hth. unfold timer_cleanup.
    destruct Hok as (_ & _ & Hf). rewrite Hth in Hf. cbn in Hf.
    destruct Hf as (-> & _). reflexivity.
Qed.

Lemma cleanup_joins_started_thread_witness :
  thread (timer_cleanup Samples.timer_3_ticking) = Some Done
  /\ timer_cleanup (fst (timer_start Samples.timer_3))
     = fst (timer_start Samples.timer_3).
Proof.
  assert (Hok : countdown_ok (fst (timer_start Samples.timer_3))).
  { vm_compute. intuition discriminate. }
  split; [reflexivity |].
  exact (proj2 (cleanup_joins_started_thread _ Hok) eq_refl).
Defined.
End TimerProps.

Section GameProps.
Import CInt CString Utils Questions Timer Game Spec Invariants Shapes.

Lemma step_thread_seconds cd :
  seconds (Timer.timer (step_thread cd)) = seconds (Timer.timer cd).
Proof.
  destruct cd as [[s r run e] [pc |]]; [| reflexivity].
  unfold step_thread. cbn. destruct pc; cbn; try reflexivity.
  - destruct (r >? 0); reflexivity.
  - destruct (negb run); reflexivity.
Qed.

Lemma run_thread_seconds n :
  forall cd, seconds (Timer.timer (run_thread n cd)) = seconds (Timer.timer cd).
Proof.
  induction n as [| n IH]; intros cd; [reflexivity |].
  cbn [run_thread]. now rewrite IH, step_thread_seconds.
Qed.

Lemma stop_seconds cd :
  seconds (Timer.timer (fst (timer_stop cd))) = seconds (Timer.timer cd).
Proof. unfold timer_stop, join. cbn [fst]. now rewrite run_thread_seconds. Qed.

Lemma ask_loop_seconds ps :
  forall cd cd' r out,
    ask_loop cd ps = Some (cd', r, out) ->
    seconds (Timer.timer cd') = seconds (Timer.timer cd).
Proof.
  induction ps as [| p ps IH]; intros cd cd' r out; cbn [ask_loop].
  - destruct (timer_get_remaining (join cd) >? 0); [discriminate |].
    intros [= <- _ _]. unfold join. apply run_thread_seconds.
  - set (cd1 := run_thread (ticks_cond p) cd).
    assert (H1 : seconds (Timer.timer cd1) = seconds (Timer.timer cd))
      by apply run_thread_seconds.
    destruct (timer_get_remaining cd1 >? 0); [| intros [= <- _ _]; exact H1].
    set (cd2 := run_thread (ticks_expired p) cd1).
    assert (H2 : seconds (Timer.timer cd2) = seconds (Timer.timer cd))
      by (unfold cd2; now rewrite run_thread_seconds).
    destruct (timer_is_expired cd2);
      [intros [= <- _ _]; exact (eq_trans (stop_seconds cd2) H2) |].
    set (cd3 := run_thread (ticks_select p) cd2).
    assert (H3 : seconds (Timer.timer cd3) = seconds (Timer.timer cd))
      by (unfold cd3; now rewrite run_thread_seconds).
    assert (Hgo : forall o,
              ('(c, r', out') ← ask_loop (run_thread (ticks_display p) cd3) ps;
               Some (c, r',
                     o ++ OutTimeRemaining
                            (timer_get_remaining
                               (run_thread (ticks_display p) cd3)) :: out'))
              = Some (cd', r, out) ->
              seconds (Timer.timer cd') = seconds (Timer.timer cd)).
    { intros o.
      destruct (ask_loop (run_thread (ticks_display p) cd3) ps)
        as [[[c r'] out'] |] eqn:E; [| discriminate].
      cbn. intros [= <- _ _]. rewrite (IH _ _ _ _ E).
      now rewrite run_thread_seconds. }
    destruct (select p) as [| | raw]; [apply Hgo | apply Hgo |].
    destruct (read_line raw); [| | apply Hgo];
      intros [= <- _ _]; exact (eq_trans (stop_seconds cd3) H3).
Qed.

(** In a game with the timer, the countdown a question leaves behind
    was set to the time allowed for a question. *)
Lemma ask_question_seconds st q inp st1 r out :
  state_ok st -> use_timer (config st) = true ->
  game_ask_question st q inp = Some (st1, r, out) ->
  seconds (Timer.timer (timer st1)) = time_per_question (config st).
Proof.
  intros (Ht & _) Hu. destruct (Ht Hu) as (Hset & Hsecs).
  unfold game_ask_question. rewrite Hu.
  destruct (ask_loop _ (polls inp)) as [[[cd r'] out'] |] eqn:E;
    [| discriminate].
  cbn. intros [= <- _ _]. cbn. rewrite (ask_loop_seconds _ _ _ _ _ E).
  unfold timer_start.
  destruct (reset_ok (timer st) (time_per_question (config st)))
    as (_ & _ & Hreset);
    [apply Hset | unfold in_int, INT_MIN, INT_MAX in *; lia |].
  destruct (Hreset (proj1 Hsecs)) as (Hs & _).
  destruct (running _); cbn; exact Hs.
Qed.

(** A round that is played to its end. *)
Lemma game_round_next bank st inp st' out :
  game_round bank st inp = Next st' out ->
  exists q st1 r out1,
    question_bank_get_random bank (difficulty_filter (config st))
      (rand_value inp) = Some q
    /\ game_ask_question st q inp = Some (st1, r, out1)
    /\ r <> -1
    /\ timer st' = run_thread (ticks_score inp) (timer st1)
    /\ config st' = config st
    /\ (num_players (config st) > 1 ->
        stats st' = stats st
        /\ players st'
           = match game_get_current_player st with
             | Some i =>
                 match players st !! i with
                 | Some p =>
                     <[i := fst (update_player p q r
                                   (r =? add (correct_answer q) 1)
                                   (scored_time st inp st1))]> (players st)
                 | None => players st
                 end
             | None => players st
             end)
    /\ (num_players (config st) <= 1 ->
        players st' = players st
        /\ current_player st' = current_player st
        /\ stats st' = fst (update_stats (stats st) q r
                              (r =? add (correct_answer q) 1)
                              (scored_time st inp st1))
        /\ out = out1 ++ [snd (update_stats (stats st) q r
                                 (r =? add (correct_answer q) 1)
                                 (scored_time st inp st1))]).
Proof.
  unfold game_round, scored_time.
  destruct (question_bank_get_random _ _ _) as [q |]; [| discriminate].
  destruct (game_ask_question st q inp) as [[[st1 r] out1] |] eqn:E;
    [| discriminate].
  destruct (ask_question_frame _ _ _ _ _ _ E)
    as (Hst & Hpl & Hcur & Hcfg & Hbank & Hact).
  destruct (Z.eqb_spec r (-1)) as [| Hr]; [discriminate |].
  cbv zeta.
  destruct (wait_for_enter (pending (config st) inp)) as [rest |].
  2:{ match goal with
      | |- context [let '(a, b) := ?X in _] => destruct X
      end.
      discriminate. }
  set (st2 := set_timer st1 (run_thread (ticks_score inp) (timer st1))).
  assert (Hget : game_get_current_player st2 = game_get_current_player st).
  { unfold game_get_current_player. cbn. now rewrite Hcfg, Hcur. }
  destruct (Z.gtb_spec (num_players (config st)) 1) as [HN | HN].
  - rewrite Hget. cbn [players st2 set_timer]. rewrite Hpl.
    destruct (game_get_current_player st) as [i |].
    + destruct (players st !! i) as [p |].
      * destruct (update_player p q r _ _) as [p' o] eqn:Eu.
        intros [= <- <-]. exists q, st1, r, out1.
        destruct (next_player_facts
                    (set_players st2 (<[i:=p']> (players st))))
          as (F1 & F2 & F3 & F4 & _).
        rewrite F1, F2, F3, F4.
        split; [reflexivity |]. split; [exact E |]. split; [exact Hr |].
        split; [reflexivity |]. split; [exact Hcfg |].
        split; [intros _; split; [exact Hst |] | intros; lia].
        change p' with (fst (p', o)). rewrite <- Eu. reflexivity.
      * intros [= <- <-]. exists q, st1, r, out1.
        destruct (next_player_facts st2) as (F1 & F2 & F3 & F4 & _).
        rewrite F1, F2, F3, F4.
        split; [reflexivity |]. split; [exact E |]. split; [exact Hr |].
        split; [reflexivity |]. split; [exact Hcfg |].
        split; [intros _; split; [exact Hst | exact Hpl] | intros; lia].
    + intros [= <- <-]. exists q, st1, r, out1.
      destruct (next_player_facts st2) as (F1 & F2 & F3 & F4 & _).
      rewrite F1, F2, F3, F4.
      split; [reflexivity |]. split; [exact E |]. split; [exact Hr |].
      split; [reflexivity |]. split; [exact Hcfg |].
      split; [intros _; split; [exact Hst | exact Hpl] | intros; lia].
  - cbn [stats st2 set_timer]. rewrite Hst.
    destruct (update_stats (stats st) q r _ _) as [s' o] eqn:Eu.
    intros [= <- <-]. exists q, st1, r, out1.
    split; [reflexivity |]. split; [exact E |]. split; [exact Hr |].
    split; [reflexivity |]. split; [exact Hcfg |].
    split; [intros; lia |]. intros _.
    split; [exact Hpl |]. split; [exact Hcur |].
    change (timer_get_remaining (run_thread (ticks_score inp) (timer st1)))
      with (timer_get_remaining (timer st2)).
    rewrite Eu. split; reflexivity.
Qed.

Lemma read_line_answer raw a :
  read_line raw = ReadAnswer a -> 1 <= a <= MAX_OPTIONS.
Proof.
  unfold read_line. destruct (is_quit _); [discriminate |].
  destruct (is_valid_integer _) as [n |]; [| discriminate].
  destruct (Z.geb_spec n 1); destruct (Z.leb_spec n MAX_OPTIONS);
    cbn; try discriminate.
  intros [= <-]. lia.
Qed.

(** X19: [game_init] fails exactly when there is no question bank, or the
    timer is used and the time per question is not positive.  Otherwise
    the game starts with the bank and the configuration given, zeroed
    statistics, the turn at player 0, the game not active, one blank
    record per player when there are several players and none otherwise,
    and, when the timer is used, a timer set to the time per question,
    neither running nor expired. *)
Theorem game_init_spec :
  forall (mem : GameState) (bank : option QuestionBank) (cfg : GameConfig),
    (game_init mem bank cfg = None
     <-> bank = None
         \/ (use_timer cfg = true /\ time_per_question cfg <= 0))
    /\ (forall st,
          game_init mem bank cfg = Some st ->
          question_bank st = bank /\ config st = cfg
          /\ stats st = mkStats 0 0 0 0 0
          /\ current_player st = 0 /\ game_active st = false
          /\ players st
             = (if num_players cfg >? 1
                then replicate (Z.to_nat (num_players cfg)) blank_player
                else [])
          /\ timer st
             = (if use_timer cfg
                then {| Timer.timer :=
                          mkTimer (time_per_question cfg)
                            (time_per_question cfg) false false;
                        thread := None |}
                else timer mem)).
Proof.
  intros mem bank cfg. unfold game_init.
  destruct bank as [b |].
  2:{ split; [split; auto | discriminate]. }
  set (st0 := {| question_bank := Some b; config := cfg;
                 stats := _; players := []; current_player := 0;
                 timer := timer mem; game_active := false |}).
  assert (Hpl : (if num_players cfg >? 1 then game_init_players st0
                 else Some st0)
                = Some (set_players st0
                          (if num_players cfg >? 1
                           then replicate (Z.to_nat (num_players cfg))
                                  blank_player
                           else []))).
  { destruct (Z.gtb_spec (num_players cfg) 1) as [HN | HN]; [| reflexivity].
    unfold game_init_players. cbn [config st0].
    replace (num_players cfg <? 2) with false
      by (symmetry; apply Z.ltb_ge; lia).
    reflexivity. }
  rewrite Hpl. cbn [mbind option_bind].
  destruct (use_timer cfg) eqn:Hu.
  - unfold timer_init.
    destruct (Z.leb_spec (time_per_question cfg) 0) as [Hle | Hgt];
      cbn [mbind option_bind].
    + split; [split; auto | discriminate].
    + split.
      * split; [discriminate |].
        intros [H | (_ & H)]; [discriminate | lia].
      * intros st [= <-]. cbn. repeat split.
  - split.
    + split; [discriminate |].
      intros [H | (H & _)]; discriminate.
    + intros st [= <-]. cbn. repeat split.
Qed.

(** At the end of the input the blocking read fails and leaves nothing
    for [wait_for_enter]. *)
Lemma blocking_read_none inp :
  blocking_read inp = None -> wait_for_enter (unread inp) = None.
Proof.
  unfold blocking_read, unread, read_input, fgets.
  destruct (stdin inp) as [| c r]; [reflexivity |]. cbn.
  destruct (fgets_chars _ _). discriminate.
Qed.

(** X20: a single-player round without the timer.  When no line can be
    read, the input being at its end, the round is booked as a timeout
    and then waits for the Enter key for ever.  When the line is neither
    an answer in range nor a request to quit the round is booked as a
    timeout, and a right answer earns the base points and half the full
    time per question; the round then ends when an Enter key follows
    the line, and waits for ever when none does. *)
Theorem untimed_round :
  forall (bank : QuestionBank) (st : GameState) (inp : RoundInput)
         (q : Question),
    use_timer (config st) = false ->
    num_players (config st) <= 1 ->
    question_bank_get_random bank (difficulty_filter (config st))
      (rand_value inp) = Some q ->
    let finish (st' : GameState) (out : list Output) :=
      match wait_for_enter (unread inp) with
      | Some _ => Next st' out
      | None => Waiting st' out
      end in
    let timeout_booked (st' : GameState) :=
      timeouts (stats st') = add (timeouts (stats st)) 1
      /\ total_questions (stats st') = add (total_questions (stats st)) 1
      /\ correct_answers (stats st') = correct_answers (stats st)
      /\ wrong_answers (stats st') = wrong_answers (stats st)
      /\ score (stats st') = score (stats st) in
    (blocking_read inp = None ->
     exists st',
       game_round bank st inp
       = Waiting st' [OutQuestion None q; OutPrompt; OutTimeout q]
       /\ timeout_booked st')
    /\ (forall raw,
          blocking_read inp = Some raw ->
          read_line raw = ReadOther ->
          exists st',
            game_round bank st inp
            = finish st' [OutQuestion None q; OutPrompt; OutTimeout q]
            /\ timeout_booked st')
    /\ (forall raw,
          blocking_read inp = Some raw ->
          read_line raw = ReadAnswer (add (correct_answer q) 1) ->
          let points :=
            add (base_points (Questions.difficulty q))
                (div (time_per_question (config st)) 2) in
          exists st',
            game_round bank st inp
            = finish st' [OutQuestion None q; OutPrompt; OutCorrect points]
            /\ score (stats st') = add (score (stats st)) points
            /\ correct_answers (stats st')
               = add (correct_answers (stats st)) 1).
Proof.
  intros bank st inp q Hu HN Hq. cbv zeta.
  assert (Hg : (num_players (config st) >? 1) = false)
    by (destruct (Z.gtb_spec (num_players (config st)) 1); [lia | reflexivity]).
  assert (Hp : pending (config st) inp = unread inp)
    by (unfold pending; now rewrite Hu).
  split; [| split].
  - intros Hnone.
    unfold game_round, game_ask_question.
    rewrite Hq, Hu, Hg, Hnone, Hp, (blocking_read_none inp Hnone).
    cbn. eexists. split; [reflexivity |]. cbn. auto.
  - intros raw Hraw Hline.
    unfold game_round, game_ask_question.
    rewrite Hq, Hu, Hg, Hraw, Hline, Hp.
    cbn. destruct (wait_for_enter (unread inp));
      (eexists; split; [reflexivity |]; cbn; auto).
  - intros raw Hraw Hline.
    pose proof (read_line_answer _ _ Hline) as Ha.
    unfold game_round, game_ask_question.
    rewrite Hq, Hu, Hg, Hraw, Hline, Hp.
    cbv beta iota zeta.
    replace (add (correct_answer q) 1 =? -1) with false
      by (symmetry; apply Z.eqb_neq; unfold MAX_OPTIONS in Ha; lia).
    cbn [stats set_timer]. unfold update_stats.
    replace (add (correct_answer q) 1 =? 0) with false
      by (symmetry; apply Z.eqb_neq; unfold MAX_OPTIONS in Ha; lia).
    rewrite Z.eqb_refl. cbn.
    destruct (wait_for_enter (unread inp));
      (eexists; split; [reflexivity |]; cbn; auto).
Qed.

Lemma untimed_round_witness :
  (exists st',
     game_round Samples.small_bank (Samples.start_state 1 false)
       (Samples.typed "maybe")
     = Next st' [OutQuestion None Samples.three_options; OutPrompt;
                 OutTimeout Samples.three_options]
     /\ timeouts (stats st') = 1)
  /\ (exists st',
        game_round Samples.small_bank (Samples.start_state 1 false)
          (Samples.typed "3")
        = Next st' [OutQuestion None Samples.three_options; OutPrompt;
                    OutCorrect 22]
        /\ score (stats st') = 22)
  /\ (exists st',
        game_round Samples.small_bank (Samples.start_state 1 false)
          Samples.end_of_input
        = Waiting st' [OutQuestion None Samples.three_options; OutPrompt;
                       OutTimeout Samples.three_options]
        /\ timeouts (stats st') = 1).
Proof.
  destruct (untimed_round Samples.small_bank (Samples.start_state 1 false)
              (Samples.typed "maybe") Samples.three_options
              eq_refl ltac:(cbn; lia) eq_refl) as (_ & Hbad & _).
  destruct (untimed_round Samples.small_bank (Samples.start_state 1 false)
              (Samples.typed "3") Samples.three_options
              eq_refl ltac:(cbn; lia) eq_refl) as (_ & _ & Hgood).
  destruct (untimed_round Samples.small_bank (Samples.start_state 1 false)
              Samples.end_of_input Samples.three_options
              eq_refl ltac:(cbn; lia) eq_refl) as (Hend & _).
  split; [| split].
  - destruct (Hbad "maybe"%string eq_refl eq_refl) as (st' & H1 & H2 & _).
    exists st'. split; [exact H1 | exact H2].
  - destruct (Hgood "3"%string eq_refl eq_refl) as (st' & H1 & H2 & _).
    exists st'. split; [exact H1 | exact H2].
  - destruct (Hend eq_refl) as (st' & H1 & H2 & _).
    exists st'. split; [exact H1 | exact H2].
Defined.

(** The first turn of the polling loop when a line is there before the
    countdown thread has taken a step. *)
Lemma ask_before_first_step st q inp p ps raw :
  state_ok st -> use_timer (config st) = true ->
  polls inp = p :: ps ->
  ticks_cond p = O -> ticks_expired p = O -> ticks_select p = O ->
  select p = Line raw -> read_line raw <> ReadOther ->
  exists out,
    game_ask_question st q inp
    = Some (set_timer st
              {| Timer.timer := mkTimer (time_per_question (config st))
                                  0 false true;
                 thread := Some Done |},
            match read_line raw with
            | ReadQuit => -1
            | ReadAnswer a => a
            | ReadOther => 0
            end, out).
Proof.
  intros (Ht & _) Hu Hpolls Hc He Hs Hsel Hno.
  destruct (Ht Hu) as (Hset & Hsecs).
  destruct (reset_start_polling _ _ Hset Hsecs) as (Hfresh & Hok1 & _).
  destruct (reset_ok (timer st) (time_per_question (config st)))
    as (_ & _ & Hreset);
    [apply Hset | unfold in_int, INT_MIN, INT_MAX in *; lia |].
  destruct (Hreset (proj1 Hsecs)) as (Hsec & Hrem & Hexp & _).
  set (cd1 := fst (timer_reset (timer st) (time_per_question (config st))))
    in *.
  pose proof (stop_fresh_started cd1 Hok1 Hfresh) as Hstop.
  destruct (fresh_started cd1 Hok1 Hfresh) as (_ & Hstart).
  unfold game_ask_question. rewrite Hu. fold cd1. rewrite Hpolls.
  cbn [ask_loop]. rewrite Hc, He, Hs. cbn [run_thread].
  rewrite Hsel.
  assert (Hr : (timer_get_remaining (fst (timer_start cd1)) >? 0) = true).
  { rewrite Hstart. cbn. apply Z.gtb_lt. lia. }
  assert (Hx : timer_is_expired (fst (timer_start cd1)) = false).
  { rewrite Hstart. reflexivity. }
  rewrite Hr, Hx, Hstop, Hsec.
  destruct (read_line raw); [| | now destruct Hno]; cbn;
    eexists; reflexivity.
Qed.

(** X21: a timed single-player round in which the right answer arrives
    before the countdown thread has taken its first step, and the Enter
    key after it.  Stopping the timer lets the countdown run to its end,
    and the answer earns the base points only. *)
Theorem answer_before_first_step :
  forall (bank : QuestionBank) (st : GameState) (inp : RoundInput)
         (q : Question) (p : Poll) (ps : list Poll) (raw : string),
    state_ok st -> use_timer (config st) = true ->
    num_players (config st) <= 1 ->
    question_bank_get_random bank (difficulty_filter (config st))
      (rand_value inp) = Some q ->
    polls inp = p :: ps ->
    ticks_cond p = O -> ticks_expired p = O -> ticks_select p = O ->
    select p = Line raw ->
    read_line raw = ReadAnswer (add (correct_answer q) 1) ->
    wait_for_enter (stdin inp) <> None ->
    exists st' out,
      game_round bank st inp = Next st' out
      /\ score (stats st')
         = add (score (stats st)) (base_points (Questions.difficulty q))
      /\ In (OutCorrect (base_points (Questions.difficulty q))) out
      /\ timer_get_remaining (timer st') = 0
      /\ timer_is_expired (timer st') = true.
Proof.
  intros bank st inp q p ps raw Hok Hu HN Hq Hpolls Hc He Hs Hsel Hline
    Henter.
  destruct (ask_before_first_step st q inp p ps raw Hok Hu Hpolls Hc He Hs
              Hsel ltac:(congruence)) as (out1 & Hask).
  rewrite Hline in Hask.
  pose proof (read_line_answer _ _ Hline) as Ha.
  assert (Hg : (num_players (config st) >? 1) = false)
    by (destruct (Z.gtb_spec (num_players (config st)) 1); [lia | reflexivity]).
  unfold game_round, pending. rewrite Hq, Hask. cbv beta iota zeta.
  replace (add (correct_answer q) 1 =? -1) with false
    by (symmetry; apply Z.eqb_neq; unfold MAX_OPTIONS in Ha; lia).
  rewrite Hg, Hu.
  destruct (wait_for_enter (stdin inp)) as [rest |]; [| now destruct Henter].
  cbn [stats set_timer timer]. rewrite run_thread_done.
  unfold update_stats.
  replace (add (correct_answer q) 1 =? 0) with false
    by (symmetry; apply Z.eqb_neq; unfold MAX_OPTIONS in Ha; lia).
  rewrite Z.eqb_refl. cbn [timer_get_remaining Timer.timer remaining].
  assert (Hpts : game_calculate_score true 0 (Questions.difficulty q)
                 = base_points (Questions.difficulty q)).
  { unfold game_calculate_score, base_points.
    destruct (_ =? DIFFICULTY_EASY); [reflexivity |].
    destruct (_ =? DIFFICULTY_MEDIUM); [reflexivity |].
    destruct (_ =? DIFFICULTY_HARD); reflexivity. }
  rewrite Hpts. eexists _, _. split; [reflexivity |]. cbn.
  split; [reflexivity |]. split; [| auto].
  apply in_or_app. right. now left.
Qed.

Lemma answer_before_first_step_witness :
  exists st' out,
    game_round Samples.small_bank (Samples.start_state 1 true)
      (Samples.round_with [Samples.line_after 0 "3"]) = Next st' out
    /\ score (stats st') = 20
    /\ timer_is_expired (timer st') = true.
Proof.
  assert (Hok : state_ok (Samples.start_state 1 true)).
  { exact (proj1 (init_state_ok Samples.stale_state (Some Samples.small_bank)
                    (Samples.config_of 1 true) _ eq_refl
                    ltac:(unfold in_int, INT_MIN, INT_MAX; cbn; lia))). }
  destruct (answer_before_first_step Samples.small_bank
              (Samples.start_state 1 true)
              (Samples.round_with [Samples.line_after 0 "3"])
              Samples.three_options (Samples.line_after 0 "3") [] "3"
              Hok eq_refl ltac:(cbn; lia) eq_refl eq_refl eq_refl eq_refl
              eq_refl eq_refl eq_refl ltac:(discriminate))
    as (st' & out & H1 & H2 & _ & _ & H5).
  exists st', out. split; [exact H1 |]. split; [exact H2 | exact H5].
Defined.

(** X22: [game_cleanup] after a game that was initialised and run: no
    player records are left, the game is not active, the statistics are
    kept, and, when the timer is used, it is not running and its thread,
    if any, has ended. *)
Theorem cleanup_after_game :
  forall (mem : GameState) (bank : QuestionBank) (cfg : GameConfig)
         (st0 : GameState) (start : string) (script : nat -> RoundInput)
         (st' : GameState) (ret : Z) (out : list Output),
    game_init mem (Some bank) cfg = Some st0 ->
    in_int (time_per_question cfg) ->
    game_run st0 start script = Some (st', ret, out) ->
    players (game_cleanup st') = []
    /\ game_active (game_cleanup st') = false
    /\ stats (game_cleanup st') = stats st'
    /\ (use_timer cfg = true ->
        running (Timer.timer (timer (game_cleanup st'))) = false
        /\ (thread (timer (game_cleanup st')) = None
            \/ thread (timer (game_cleanup st')) = Some Done)).
Proof.
  intros mem bank cfg st0 start script st' ret out Hinit Htime Hrun.
  destruct (init_state_ok _ _ _ _ Hinit Htime)
    as (Hok & Hcfg & Hbank & _).
  unfold game_run in Hrun. rewrite Hbank in Hrun.
  destruct (wait_for_enter start) as [rest |]; [| discriminate].
  cbn [mbind option_bind] in Hrun.
  destruct (game_loop _ 0 bank (set_game_active st0 true) script)
    as [[[st1 k] out1] |] eqn:Heq; [| discriminate].
  destruct (game_loop_inv bank script _ 0 _ st1 k out1
              (active_ok _ true Hok) ltac:(lia) Heq)
    as (Hok1 & Hcfg1 & _).
  cbn [mbind option_bind] in Hrun.
  destruct (game_display_stats (set_game_active st1 false)) as [report |];
    [| discriminate].
  cbn in Hrun. injection Hrun as <- _ _.
  unfold game_cleanup. cbn [config set_game_active].
  cbn [config set_game_active] in Hcfg1. rewrite Hcfg1, Hcfg.
  destruct (use_timer cfg) eqn:Hu; cbn.
  - do 3 (split; [reflexivity |]). intros _.
    destruct Hok1 as (Ht & _). rewrite Hcfg1, Hcfg in Ht.
    destruct (Ht Hu) as (Hset & _).
    destruct (cleanup_settled _ Hset) as (H1 & H2 & _). auto.
  - do 3 (split; [reflexivity |]). discriminate.
Qed.

Lemma cleanup_after_game_witness :
  exists st' ret out,
    game_run (Samples.start_state 1 true) Samples.enter Samples.answer_three
    = Some (st', ret, out)
    /\ thread (timer (game_cleanup st')) = Some Done
    /\ running (Timer.timer (timer (game_cleanup st'))) = false.
Proof.
  destruct (game_run (Samples.start_state 1 true) Samples.enter
              Samples.answer_three)
    as [[[st' ret] out] |] eqn:E; [| vm_compute in E; discriminate E].
  exists st', ret, out. split; [reflexivity |].
  destruct (cleanup_after_game Samples.stale_state Samples.small_bank
              (Samples.config_of 1 true) (Samples.start_state 1 true)
              Samples.enter Samples.answer_three st' ret out eq_refl
              ltac:(unfold in_int, INT_MIN, INT_MAX; cbn; lia) E)
    as (_ & _ & _ & Ht).
  destruct (Ht eq_refl) as (Hrun & Hth). split; [| exact Hrun].
  vm_compute in E. injection E as <- _ _. reflexivity.
Defined.

(** *** What the game loop keeps *)

(** A property of the counter of the loop and of the records the game
    keeps, that every round played to its end carries on, holds when
    the loop is left. *)
Lemma game_loop_invariant (P : Z -> GameState -> Prop) bank script B :
  (forall i st st' out,
     0 <= i < B -> state_ok st -> P i st ->
     game_round bank st (script (Z.to_nat i)) = Next st' out ->
     P (i + 1) st') ->
  (forall i st st',
     P i st -> stats st' = stats st -> players st' = players st ->
     current_player st' = current_player st -> config st' = config st ->
     P i st') ->
  forall fuel i st st' i' out,
    state_ok st -> 0 <= i -> i + Z.of_nat fuel <= B -> P i st ->
    game_loop fuel i bank st script = Some (st', i', out) ->
    P i' st' /\ state_ok st' /\ i <= i' <= i + Z.of_nat fuel.
Proof.
  intros Hstep Hframe.
  induction fuel as [| fuel IH]; intros i st st' i' out Hok Hi HB HP;
    cbn [game_loop].
  - intros [= <- <- _]. split; [exact HP |]. split; [exact Hok | lia].
  - pose proof (game_round_spec bank st (script (Z.to_nat i)) Hok) as Hs.
    destruct (game_round bank st (script (Z.to_nat i)))
      as [| st1 out1 | st1 out1 | st1 out1] eqn:E;
      [discriminate | discriminate | |].
    + intros [= <- <- _].
      destruct Hs as (Hok1 & Hcfg & Hst & Hpl & Hcur & _).
      split; [exact (Hframe i st st1 HP Hst Hpl Hcur Hcfg) |].
      split; [exact Hok1 | lia].
    + destruct (game_loop fuel (i + 1) bank st1 script)
        as [[[st2 i2] out2] |] eqn:E2; [| discriminate].
      cbn. intros [= <- <- _].
      destruct (IH (i + 1) st1 st2 i2 out2 (proj1 Hs) ltac:(lia) ltac:(lia)
                  (Hstep i st st1 out1 ltac:(lia) Hok HP E) E2)
        as (H1 & H2 & H3).
      split; [exact H1 |]. split; [exact H2 | lia].
Qed.

(** The time a round is scored with lies between 0 and the time allowed
    for a question. *)
Lemma scored_time_bounds st q inp st1 r out :
  state_ok st -> 0 <= time_per_question (config st) ->
  game_ask_question st q inp = Some (st1, r, out) ->
  0 <= scored_time st inp st1 <= time_per_question (config st).
Proof.
  intros Hok HT E. unfold scored_time.
  destruct (use_timer (config st)) eqn:Hu; [| lia].
  pose proof (ask_question_seconds st q inp st1 r out Hok Hu E) as Hsec.
  destruct (ask_question_total st q inp Hok) as (st1' & r' & out' & E' & Hok1 & _).
  rewrite E in E'. injection E' as <- <- <-.
  destruct (ask_question_frame _ _ _ _ _ _ E) as (_ & _ & _ & Hcfg & _).
  destruct Hok1 as (Ht & _). rewrite Hcfg in Ht. destruct (Ht Hu) as (Hset & _).
  destruct (run_thread_ok (ticks_score inp) _ (proj1 Hset)) as (_ & Hr & _).
  rewrite run_thread_seconds, Hsec in Hr. exact Hr.
Qed.

Lemma base_points_range d : 10 <= base_points d <= 30.
Proof.
  unfold base_points.
  destruct (d =? DIFFICULTY_EASY); [lia |].
  destruct (d =? DIFFICULTY_MEDIUM); [lia |].
  destruct (d =? DIFFICULTY_HARD); lia.
Qed.

(** The points of a right answer given with [t] of [T] seconds left. *)
Lemma points_range t T d :
  0 <= t <= T -> T <= INT_MAX ->
  10 <= game_calculate_score true t d <= 30 + T / 2.
Proof.
  intros Ht HT. unfold game_calculate_score. cbn [negb].
  pose proof (base_points_range d) as Hb.
  assert (Hq : 0 <= Z.quot t 2 <= T / 2).
  { rewrite Z.quot_div_nonneg by lia. split; [apply Z.div_pos; lia |].
    apply Z.div_le_mono; lia. }
  assert (HT2 : T / 2 <= T) by (apply Z.div_le_upper_bound; lia).
  unfold div, add.
  rewrite (wrap_id (Z.quot t 2))
    by (unfold in_int, INT_MIN, INT_MAX in *; lia).
  assert (Hsum : in_int (base_points d + Z.quot t 2)).
  { pose proof (Z.mul_div_le T 2 ltac:(lia)).
    unfold in_int, INT_MIN, INT_MAX in *. lia. }
  rewrite wrap_id by exact Hsum. lia.
Qed.

(** One more round of a game of one player: the counters. *)
Lemma single_round_counts bank st inp st' out i :
  num_players (config st) <= 1 -> 0 <= i < INT_MAX ->
  counts_ok i (stats st) ->
  game_round bank st inp = Next st' out ->
  counts_ok (i + 1) (stats st').
Proof.
  intros HN Hi (Ht & Hc & Hw & Hto & Hsum) E.
  destruct (game_round_next _ _ _ _ _ E)
    as (q & st1 & r & out1 & _ & _ & _ & _ & _ & _ & Hone).
  destruct (Hone HN) as (_ & _ & -> & _).
  unfold update_stats, counts_ok.
  destruct (r =? 0); [| destruct (r =? add (correct_answer q) 1)];
    cbn [fst total_questions correct_answers wrong_answers timeouts];
    unfold add;
    rewrite !wrap_id by (unfold in_int, INT_MIN, INT_MAX in *; lia); lia.
Qed.

(** One more round of a game of one player: the score. *)
Lemma single_round_score bank st inp st' out i :
  state_ok st -> num_players (config st) <= 1 ->
  0 <= time_per_question (config st) <= INT_MAX ->
  0 <= i -> (i + 1) * (30 + time_per_question (config st) / 2) <= INT_MAX ->
  counts_ok i (stats st) ->
  score_ok (time_per_question (config st)) (stats st) ->
  game_round bank st inp = Next st' out ->
  score_ok (time_per_question (config st)) (stats st').
Proof.
  intros Hok HN HT Hi Hmax (Ht & Hc & Hw & Hto & Hsum) Hs E.
  destruct (game_round_next _ _ _ _ _ E)
    as (q & st1 & r & out1 & _ & Hask & _ & _ & _ & _ & Hone).
  destruct (Hone HN) as (_ & _ & -> & _).
  pose proof (scored_time_bounds st q inp st1 r out1 Hok (proj1 HT) Hask)
    as Htr.
  pose proof (points_range _ _ (Questions.difficulty q) Htr (proj2 HT)) as Hp.
  set (T2 := time_per_question (config st) / 2) in *.
  assert (HT2 : 0 <= T2) by (apply Z.div_pos; lia).
  unfold update_stats, score_ok in *.
  destruct (r =? 0); [exact Hs |].
  destruct (r =? add (correct_answer q) 1); [| exact Hs].
  cbn [fst correct_answers score]. unfold add.
  rewrite (wrap_id (correct_answers (stats st) + 1))
    by (unfold in_int, INT_MIN, INT_MAX in *; nia).
  rewrite wrap_id by (unfold in_int, INT_MIN, INT_MAX in *; nia).
  nia.
Qed.

Lemma single_game_invariant mem bank cfg st0 start script st' ret out :
  game_init mem (Some bank) cfg = Some st0 ->
  in_int (time_per_question cfg) -> in_int (questions_per_game cfg) ->
  num_players cfg <= 1 ->
  game_run st0 start script = Some (st', ret, out) ->
  ret = score (stats st')
  /\ exists i,
       0 <= i <= Z.max 0 (questions_per_game cfg)
       /\ counts_ok i (stats st')
       /\ (0 <= time_per_question cfg ->
           Z.max 0 (questions_per_game cfg)
           * (30 + time_per_question cfg / 2) <= INT_MAX ->
           score_ok (time_per_question cfg) (stats st')).
Proof.
  intros Hinit Htime HQ HN Hrun.
  destruct (init_state_ok _ _ _ _ Hinit Htime)
    as (Hok & Hcfg & Hbank & Hstats & _).
  unfold game_run in Hrun. rewrite Hbank in Hrun.
  cbn [config set_game_active] in Hrun.
  destruct (wait_for_enter start) as [rest |]; [| discriminate].
  cbn [mbind option_bind] in Hrun.
  destruct (game_loop _ 0 bank (set_game_active st0 true) script)
    as [[[st1 i1] out1] |] eqn:Eloop; [| discriminate].
  cbn [mbind option_bind] in Hrun.
  destruct (game_display_stats (set_game_active st1 false)) as [report |];
    [| discriminate].
  cbn in Hrun. injection Hrun as <- <- _. cbn [stats set_game_active].
  split; [reflexivity |].
  assert (Hfuel : Z.of_nat (Z.to_nat (total_rounds (config st0)))
                  = Z.max 0 (questions_per_game cfg)).
  { unfold total_rounds. rewrite Hcfg.
    replace (num_players cfg >? 1) with false
      by (symmetry; destruct (Z.gtb_spec (num_players cfg) 1);
          [lia | reflexivity]).
    lia. }
  set (B := Z.max 0 (questions_per_game cfg)) in *.
  assert (HB : B <= INT_MAX)
    by (unfold B, in_int, INT_MIN, INT_MAX in *; lia).
  assert (Hfu : 0 + Z.of_nat (Z.to_nat (total_rounds (config st0))) <= B)
    by lia.
  (* the counters *)
  destruct (game_loop_invariant
              (fun i st => config st = cfg /\ counts_ok i (stats st))
              bank script B) with (7 := Eloop) as ((_ & Hcnt) & _ & Hi1);
    [| | exact (active_ok _ true Hok) | lia | exact Hfu | |].
  { intros i st st2 o Hi Hst (Hc & Hcn) E. split.
    - destruct (game_round_next _ _ _ _ _ E)
        as (_ & _ & _ & _ & _ & _ & _ & _ & Hc' & _). congruence.
    - apply (single_round_counts bank st (script (Z.to_nat i)) st2 o i); try assumption; [| lia].
      now rewrite Hc. }
  { intros i st st2 (Hc & Hcn) Hs _ _ Hc'. split; congruence. }
  { split; [exact Hcfg |]. cbn [stats set_game_active]. rewrite Hstats.
    unfold counts_ok. cbn. lia. }
  exists i1. split; [lia |]. split; [exact Hcnt |].
  (* the score *)
  intros HT Hmax.
  destruct (game_loop_invariant
              (fun i st => config st = cfg /\ counts_ok i (stats st)
                           /\ score_ok (time_per_question cfg) (stats st))
              bank script B) with (7 := Eloop) as ((_ & _ & Hsc) & _);
    [| | exact (active_ok _ true Hok) | lia | exact Hfu | | exact Hsc].
  { intros i st st2 o Hi Hst (Hc & Hcn & Hs) E.
    assert (Hc' : config st2 = cfg).
    { destruct (game_round_next _ _ _ _ _ E)
        as (_ & _ & _ & _ & _ & _ & _ & _ & Hc' & _). congruence. }
    split; [exact Hc' |]. split.
    - apply (single_round_counts bank st (script (Z.to_nat i)) st2 o i); try assumption; [| lia].
      now rewrite Hc.
    - rewrite <- Hc in *.
      apply (single_round_score bank st (script (Z.to_nat i)) st2 o i); try assumption;
        try lia.
      + unfold in_int in Htime. lia.
      + assert (0 <= time_per_question (config st) / 2)
          by (apply Z.div_pos; lia).
        nia. }
  { intros i st st2 (Hc & Hcn & Hs) Hst _ _ Hc'. rewrite Hst.
    split; [congruence | auto]. }
  { split; [exact Hcfg |]. cbn [stats set_game_active]. rewrite Hstats.
    unfold counts_ok, score_ok. cbn. lia. }
Qed.

(** X23: at the end of a single-player game the number of questions asked
    is the sum of the right answers, the wrong answers and the timeouts,
    none of them negative, and is at most the number of questions per
    game. *)
Theorem single_player_counts :
  forall (mem : GameState) (bank : QuestionBank) (cfg : GameConfig)
         (st0 : GameState) (start : string) (script : nat -> RoundInput)
         (st' : GameState) (ret : Z) (out : list Output),
    game_init mem (Some bank) cfg = Some st0 ->
    in_int (time_per_question cfg) -> in_int (questions_per_game cfg) ->
    num_players cfg <= 1 ->
    game_run st0 start script = Some (st', ret, out) ->
    total_questions (stats st')
    = correct_answers (stats st') + wrong_answers (stats st')
      + timeouts (stats st')
    /\ 0 <= correct_answers (stats st') /\ 0 <= wrong_answers (stats st')
    /\ 0 <= timeouts (stats st')
    /\ total_questions (stats st') <= Z.max 0 (questions_per_game cfg).
Proof.
  intros mem bank cfg st0 start script st' ret out Hinit Htime HQ HN Hrun.
  destruct (single_game_invariant _ _ _ _ _ _ _ _ _ Hinit Htime HQ HN Hrun)
    as (_ & i & Hi & (Ht & Hc & Hw & Hto & Hsum) & _).
  rewrite Ht, Hsum. repeat split; try assumption; lia.
Qed.

(** X24: the score [game_run] returns for a single player lies between
    10 points and 30 points plus half the time per question for each
    right answer, provided the largest possible total fits in an
    [int]. *)
Theorem single_player_score_bounds :
  forall (mem : GameState) (bank : QuestionBank) (cfg : GameConfig)
         (st0 : GameState) (start : string) (script : nat -> RoundInput)
         (st' : GameState) (ret : Z) (out : list Output),
    game_init mem (Some bank) cfg = Some st0 ->
    in_int (time_per_question cfg) -> in_int (questions_per_game cfg) ->
    num_players cfg <= 1 ->
    0 <= time_per_question cfg ->
    Z.max 0 (questions_per_game cfg) * (30 + time_per_question cfg / 2)
    <= INT_MAX ->
    game_run st0 start script = Some (st', ret, out) ->
    10 * correct_answers (stats st') <= ret
    <= (30 + time_per_question cfg / 2) * correct_answers (stats st').
Proof.
  intros mem bank cfg st0 start script st' ret out Hinit Htime HQ HN HT Hmax Hrun.
  destruct (single_game_invariant _ _ _ _ _ _ _ _ _ Hinit Htime HQ HN Hrun)
    as (-> & i & _ & _ & Hsc).
  exact (Hsc HT Hmax).
Qed.

Lemma single_player_counts_witness :
  exists st' ret out,
    game_run (Samples.start_state 1 true) Samples.enter Samples.answer_three
    = Some (st', ret, out)
    /\ total_questions (stats st') = 2
    /\ total_questions (stats st')
       = correct_answers (stats st') + wrong_answers (stats st')
         + timeouts (stats st').
Proof.
  destruct (game_run (Samples.start_state 1 true) Samples.enter
              Samples.answer_three)
    as [[[st' ret] out] |] eqn:E; [| vm_compute in E; discriminate E].
  exists st', ret, out. split; [reflexivity |].
  split; [vm_compute in E; injection E as <- _ _; reflexivity |].
  exact (proj1 (single_player_counts Samples.stale_state Samples.small_bank
                  (Samples.config_of 1 true) (Samples.start_state 1 true)
                  Samples.enter Samples.answer_three st' ret out eq_refl
                  ltac:(unfold in_int, INT_MIN, INT_MAX; cbn; lia)
                  ltac:(unfold in_int, INT_MIN, INT_MAX; cbn; lia)
                  ltac:(cbn; lia) E)).
Defined.

Lemma single_player_score_bounds_witness :
  exists st' ret out,
    game_run (Samples.start_state 1 true) Samples.enter Samples.answer_three
    = Some (st', ret, out)
    /\ correct_answers (stats st') = 2
    /\ 10 * correct_answers (stats st') <= ret
       <= (30 + 5 / 2) * correct_answers (stats st').
Proof.
  destruct (game_run (Samples.start_state 1 true) Samples.enter
              Samples.answer_three)
    as [[[st' ret] out] |] eqn:E; [| vm_compute in E; discriminate E].
  exists st', ret, out. split; [reflexivity |].
  split; [vm_compute in E; injection E as <- _ _; reflexivity |].
  exact (single_player_score_bounds Samples.stale_state Samples.small_bank
           (Samples.config_of 1 true) (Samples.start_state 1 true)
           Samples.enter Samples.answer_three st' ret out eq_refl
           ltac:(unfold in_int, INT_MIN, INT_MAX; cbn; lia)
           ltac:(unfold in_int, INT_MIN, INT_MAX; cbn; lia)
           ltac:(cbn; lia) ltac:(cbn; lia)
           ltac:(vm_compute; discriminate) E).
Defined.

(** *** Turns *)

Lemma turns_of_S j n k :
  turns_of j n (S k)
  = (turns_of j n k + (if (k mod n =? j)%nat then 1 else 0))%nat.
Proof.
  unfold turns_of. rewrite seq_S, List.filter_app, List.length_app.
  cbn [List.filter Nat.add]. now destruct (k mod n =? j)%nat.
Qed.

Lemma turns_of_le j n k : (turns_of j n k <= k)%nat.
Proof.
  induction k as [| k IH]; [reflexivity |]. rewrite turns_of_S.
  destruct (k mod n =? j)%nat; lia.
Qed.

(** Within one pass through the [n] players, the turn of player [j] has
    come once the pass has gone beyond [j]. *)
Lemma turns_of_pass j n q m :
  (j < n)%nat -> (m <= n)%nat ->
  turns_of j n (q * n + m) = (q + (if (j <? m)%nat then 1 else 0))%nat.
Proof.
  intros Hj. revert m. induction q as [| q IHq].
  - induction m as [| m IHm]; intros Hm; [reflexivity |].
    cbn [Nat.mul Nat.add] in *. rewrite turns_of_S, IHm by lia.
    rewrite Nat.mod_small by lia.
    destruct (Nat.eqb_spec m j); destruct (Nat.ltb_spec j m);
      destruct (Nat.ltb_spec j (S m)); lia.
  - assert (Hfull : turns_of j n (S q * n) = S q).
    { replace (S q * n)%nat with (q * n + n)%nat by lia.
      rewrite (IHq n) by lia.
      destruct (Nat.ltb_spec j n); lia. }
    induction m as [| m IHm]; intros Hm.
    + rewrite Nat.add_0_r, Hfull. cbn. lia.
    + replace (S q * n + S m)%nat with (S (S q * n + m)) by lia.
      rewrite turns_of_S, IHm by lia.
      replace ((S q * n + m) mod n)%nat with m
        by (rewrite Nat.add_comm, Nat.Div0.mod_add, Nat.mod_small; lia).
      destruct (Nat.eqb_spec m j); destruct (Nat.ltb_spec j m);
        destruct (Nat.ltb_spec j (S m)); lia.
Qed.

Lemma turns_of_full j n q :
  (j < n)%nat -> turns_of j n (q * n) = q.
Proof.
  intros Hj. destruct q as [| q]; [reflexivity |].
  replace (S q * n)%nat with (q * n + n)%nat by lia.
  rewrite (turns_of_pass j n q n Hj) by lia.
  destruct (Nat.ltb_spec j n); lia.
Qed.

(** [update_player] books the question on one counter. *)
Lemma update_player_answered p q r c t :
  0 <= Player.correct_answers p -> 0 <= Player.wrong_answers p ->
  0 <= Player.timeouts p -> answered p < INT_MAX ->
  let p' := fst (update_player p q r c t) in
  0 <= Player.correct_answers p' /\ 0 <= Player.wrong_answers p'
  /\ 0 <= Player.timeouts p' /\ answered p' = answered p + 1.
Proof.
  intros Hc Hw Ht Ha. cbv zeta. unfold update_player, answered in *.
  destruct (r =? 0); [| destruct c];
    cbn [fst Player.correct_answers Player.wrong_answers Player.timeouts];
    unfold add;
    rewrite !wrap_id by (unfold in_int, INT_MIN, INT_MAX in *; lia); lia.
Qed.

(** With several players, a round played to its end updates the record
    of the player whose turn it is. *)
Lemma multi_round_players bank st inp st' out :
  num_players (config st) > 1 ->
  0 <= current_player st < num_players (config st) ->
  length (players st) = Z.to_nat (num_players (config st)) ->
  game_round bank st inp = Next st' out ->
  exists q st1 r out1 p,
    question_bank_get_random bank (difficulty_filter (config st))
      (rand_value inp) = Some q
    /\ game_ask_question st q inp = Some (st1, r, out1)
    /\ players st !! Z.to_nat (current_player st) = Some p
    /\ players st'
       = <[Z.to_nat (current_player st) :=
             fst (update_player p q r (r =? add (correct_answer q) 1)
                    (scored_time st inp st1))]> (players st)
    /\ stats st' = stats st /\ config st' = config st.
Proof.
  intros HN Hcur Hlen E.
  destruct (game_round_next _ _ _ _ _ E)
    as (q & st1 & r & out1 & Hq & Hask & _ & _ & Hcfg & Hmulti & _).
  destruct (Hmulti HN) as (Hst & Hpl).
  assert (Hget : game_get_current_player st
                 = Some (Z.to_nat (current_player st))).
  { unfold game_get_current_player.
    replace (num_players (config st) <=? 1) with false
      by (symmetry; apply Z.leb_gt; lia).
    replace (current_player st >=? 0) with true
      by (symmetry; apply Z.geb_le; lia).
    replace (current_player st <? num_players (config st)) with true
      by (symmetry; apply Z.ltb_lt; lia).
    reflexivity. }
  destruct (lookup_lt_is_Some_2 (players st) (Z.to_nat (current_player st)))
    as (p & Hp); [lia |].
  rewrite Hget, Hp in Hpl.
  exists q, st1, r, out1, p.
  exact (conj Hq (conj Hask (conj Hp (conj Hpl (conj Hst Hcfg))))).
Qed.

Lemma multi_round_turns bank st inp st' out i :
  state_ok st ->
  1 < num_players (config st) <= INT_MAX -> 0 <= i < INT_MAX ->
  current_player st = i mod num_players (config st) ->
  turns_ok (num_players (config st)) i (players st) ->
  game_round bank st inp = Next st' out ->
  current_player st' = (i + 1) mod num_players (config st)
  /\ turns_ok (num_players (config st)) (i + 1) (players st').
Proof.
  intros Hok HN Hi Hcur (Hlen & Hall) E.
  set (N := num_players (config st)) in *.
  pose proof (Z.mod_pos_bound i N ltac:(lia)) as Hb.
  split.
  - pose proof (game_round_spec bank st inp Hok) as Hs. rewrite E in Hs.
    destruct Hs as (_ & _ & _ & -> & _).
    apply next_player_mod; [exact HN | lia | exact Hcur].
  - destruct (multi_round_players bank st inp st' out ltac:(lia)
                ltac:(fold N; lia) Hlen E)
      as (q & st1 & r & out1 & p & _ & _ & Hp & -> & _).
    rewrite Hcur in *.
    assert (Hk : Z.to_nat (i mod N) = (Z.to_nat i mod Z.to_nat N)%nat)
      by (apply Z2Nat.inj_mod; lia).
    unfold turns_ok.
    replace (Z.to_nat (i + 1)) with (S (Z.to_nat i)) by lia.
    split; [now rewrite length_insert |].
    intros j pj Hj. rewrite turns_of_S.
    destruct (Nat.eq_dec j (Z.to_nat (i mod N))) as [-> | Hne].
    + rewrite list_lookup_insert_eq in Hj
        by (apply lookup_lt_Some in Hp; exact Hp).
      injection Hj as <-.
      destruct (Hall _ _ Hp) as (Hc & Hw & Ht & Ha).
      pose proof (turns_of_le (Z.to_nat (i mod N)) (Z.to_nat N) (Z.to_nat i)).
      destruct (update_player_answered p q r
                  (r =? add (correct_answer q) 1) (scored_time st inp st1)
                  Hc Hw Ht ltac:(lia)) as (Hc' & Hw' & Ht' & Ha').
      rewrite Hk at 2. rewrite Nat.eqb_refl.
      repeat split; try assumption. rewrite Ha', Ha. lia.
    + rewrite list_lookup_insert_ne in Hj by congruence.
      destruct (Hall _ _ Hj) as (Hc & Hw & Ht & Ha).
      replace (Z.to_nat i mod Z.to_nat N =? j)%nat with false
        by (symmetry; apply Nat.eqb_neq; congruence).
      rewrite Nat.add_0_r. auto.
Qed.

(** X25: with [N > 1] players, after [k] completed rounds each player has
    been booked one result for each of the rounds that fell to them, the
    rounds [j], [j + N], [j + 2N], ... below [k] for player [j]; after
    [q * N] rounds every player has been booked [q] results. *)
Theorem multiplayer_turns :
  forall (mem : GameState) (bank : QuestionBank) (cfg : GameConfig)
         (st0 : GameState) (script : nat -> RoundInput)
         (k : nat) (st_k : GameState) (out_k : list Output),
    game_init mem (Some bank) cfg = Some st0 ->
    in_int (time_per_question cfg) ->
    1 < num_players cfg <= INT_MAX -> Z.of_nat k <= INT_MAX ->
    play k 0 bank (set_game_active st0 true) script = Some (st_k, out_k) ->
    length (players st_k) = Z.to_nat (num_players cfg)
    /\ forall j p,
         players st_k !! j = Some p ->
         answered p = Z.of_nat (turns_of j (Z.to_nat (num_players cfg)) k)
         /\ (forall q, k = (q * Z.to_nat (num_players cfg))%nat ->
                       answered p = Z.of_nat q).
Proof.
  intros mem bank cfg st0 script k st_k out_k Hinit Htime HN Hk Hplay.
  destruct (init_state_ok _ _ _ _ Hinit Htime)
    as (Hok & Hcfg & _ & _ & Hcur & _).
  pose proof (play_loop _ _ _ _ _ _ _ Hplay) as Hloop.
  destruct (game_loop_invariant
              (fun i st =>
                 config st = cfg
                 /\ current_player st = i mod num_players cfg
                 /\ turns_ok (num_players cfg) i (players st))
              bank script (Z.of_nat k)) with (7 := Hloop)
    as ((_ & _ & Hlen & Hall) & _);
    [| | exact (active_ok _ true Hok) | lia | lia | |].
  - intros i st st2 o Hi Hst (Hc & Hcu & Ht) E.
    assert (Hc' : config st2 = cfg).
    { destruct (game_round_next _ _ _ _ _ E)
        as (_ & _ & _ & _ & _ & _ & _ & _ & Hc' & _). congruence. }
    split; [exact Hc' |]. rewrite <- Hc in *.
    apply (multi_round_turns bank st (script (Z.to_nat i)) st2 o i);
      try assumption; lia.
  - intros i st st2 (Hc & Hcu & Ht) _ Hpl Hcur' Hc'.
    rewrite Hpl, Hcur', Hc'. auto.
  - split; [exact Hcfg |]. cbn [current_player players set_game_active].
    split; [rewrite Hcur, Z.mod_0_l; lia |].
    destruct Hok as (_ & Hl). rewrite Hcfg in Hl. split; [apply Hl; lia |].
    intros j p Hj.
    assert (Hp : p = blank_player).
    { unfold game_init in Hinit.
      replace (num_players cfg >? 1) with true in Hinit
        by (symmetry; apply Z.gtb_lt; lia).
      unfold game_init_players in Hinit. cbn [config] in Hinit.
      replace (num_players cfg <? 2) with false in Hinit
        by (symmetry; apply Z.ltb_ge; lia).
      cbn [mbind option_bind] in Hinit.
      destruct (use_timer cfg);
        [destruct (timer_init _); [| discriminate] |];
        cbn in Hinit; injection Hinit as <-; cbn in Hj;
        apply lookup_replicate in Hj; tauto. }
    subst p. change (Z.to_nat 0) with O. unfold answered, turns_of.
    cbn. lia.
  - split; [exact Hlen |]. intros j p Hj.
    destruct (Hall j p Hj) as (_ & _ & _ & Ha).
    rewrite Z.add_0_l, Nat2Z.id in Ha. split; [exact Ha |].
    intros q ->. rewrite Ha, turns_of_full; [reflexivity |].
    apply lookup_lt_Some in Hj. lia.
Qed.

Lemma multiplayer_turns_witness :
  exists st_k out_k,
    play 4 0 Samples.small_bank
      (set_game_active (Samples.start_state 2 true) true) Samples.answer_three
    = Some (st_k, out_k)
    /\ forall j p, players st_k !! j = Some p -> answered p = 2.
Proof.
  destruct (play 4 0 Samples.small_bank
              (set_game_active (Samples.start_state 2 true) true)
              Samples.answer_three)
    as [[st_k out_k] |] eqn:E; [| vm_compute in E; discriminate E].
  exists st_k, out_k. split; [reflexivity |]. intros j p Hj.
  destruct (multiplayer_turns Samples.stale_state Samples.small_bank
              (Samples.config_of 2 true) (Samples.start_state 2 true)
              Samples.answer_three 4 st_k out_k eq_refl
              ltac:(unfold in_int, INT_MIN, INT_MAX; cbn; lia)
              ltac:(unfold INT_MAX; cbn; lia)
              ltac:(unfold INT_MAX; cbn; lia) E) as (_ & Hall).
  exact (proj2 (Hall j p Hj) 2%nat eq_refl).
Defined.

(** X26: a completed round with several players changes the record of the
    current player only.  The name is kept and exactly one counter grows
    by one: the timeouts when [game_ask_question] returned 0, the right
    answers when it returned the index of the right answer of the
    question drawn plus one, the wrong answers otherwise.  The score
    grows with a right answer only, by what [game_calculate_score] gives
    for the remaining time read from the timer and the difficulty of the
    question.  The other players and the aggregate statistics are
    unchanged. *)
Theorem multiplayer_round_frame :
  forall (bank : QuestionBank) (st : GameState) (inp : RoundInput)
         (st' : GameState) (out : list Output),
    num_players (config st) > 1 ->
    0 <= current_player st < num_players (config st) ->
    length (players st) = Z.to_nat (num_players (config st)) ->
    game_round bank st inp = Next st' out ->
    exists (q : Question) (st1 : GameState) (r : Z) (out1 : list Output)
           (p p' : Player),
      question_bank_get_random bank (difficulty_filter (config st))
        (rand_value inp) = Some q
      /\ game_ask_question st q inp = Some (st1, r, out1)
      /\ players st !! Z.to_nat (current_player st) = Some p
      /\ players st' !! Z.to_nat (current_player st) = Some p'
      /\ Player.name p' = Player.name p
      /\ (forall j, j <> Z.to_nat (current_player st) ->
                    players st' !! j = players st !! j)
      /\ length (players st') = length (players st)
      /\ stats st' = stats st
      /\ (r = 0 ->
          Player.timeouts p' = add (Player.timeouts p) 1
          /\ Player.correct_answers p' = Player.correct_answers p
          /\ Player.wrong_answers p' = Player.wrong_answers p
          /\ Player.score p' = Player.score p)
      /\ (r <> 0 -> r <> add (correct_answer q) 1 ->
          Player.wrong_answers p' = add (Player.wrong_answers p) 1
          /\ Player.correct_answers p' = Player.correct_answers p
          /\ Player.timeouts p' = Player.timeouts p
          /\ Player.score p' = Player.score p)
      /\ (r <> 0 -> r = add (correct_answer q) 1 ->
          Player.correct_answers p' = add (Player.correct_answers p) 1
          /\ Player.wrong_answers p' = Player.wrong_answers p
          /\ Player.timeouts p' = Player.timeouts p
          /\ Player.score p'
             = add (Player.score p)
                 (game_calculate_score true
                    (if use_timer (config st)
                     then timer_get_remaining
                            (run_thread (ticks_score inp) (timer st1))
                     else time_per_question (config st))
                    (Questions.difficulty q))).
Proof.
  intros bank st inp st' out HN Hcur Hlen E.
  destruct (multi_round_players bank st inp st' out HN Hcur Hlen E)
    as (q & st1 & r & out1 & p & Hq & Hask & Hp & Hpl & Hst & _).
  fold (scored_time st inp st1).
  set (c := r =? add (correct_answer q) 1) in *.
  set (t := scored_time st inp st1) in *.
  exists q, st1, r, out1, p, (fst (update_player p q r c t)).
  split; [exact Hq |]. split; [exact Hask |].
  split; [exact Hp |]. rewrite Hpl.
  split; [apply list_lookup_insert_eq; apply lookup_lt_Some in Hp; exact Hp |].
  split; [apply update_player_name |].
  split; [intros j Hj; apply list_lookup_insert_ne; congruence |].
  split; [apply length_insert |]. split; [exact Hst |].
  unfold update_player, c.
  destruct (Z.eqb_spec r 0) as [H0 | H0];
    destruct (Z.eqb_spec r (add (correct_answer q) 1)) as [Hc | Hc];
    cbn [fst Player.score Player.correct_answers Player.wrong_answers
         Player.timeouts];
    (split; [intros ? | split; intros ? ?]); try contradiction; auto.
Qed.

Lemma multiplayer_round_frame_witness :
  exists st' out,
    game_round Samples.small_bank (Samples.start_state 2 true)
      (Samples.answer_three O) = Next st' out
    /\ players st' !! 1%nat = players (Samples.start_state 2 true) !! 1%nat
    /\ stats st' = stats (Samples.start_state 2 true).
Proof.
  destruct (game_round Samples.small_bank (Samples.start_state 2 true)
              (Samples.answer_three O))
    as [| st' out | st' out | st' out] eqn:E;
    [vm_compute in E; discriminate E | vm_compute in E; discriminate E
     | vm_compute in E; discriminate E |].
  exists st', out. split; [reflexivity |].
  destruct (multiplayer_round_frame Samples.small_bank
              (Samples.start_state 2 true) (Samples.answer_three O) st' out
              ltac:(cbn; lia) ltac:(cbn; lia) eq_refl E)
    as (q & st1 & r & out1 & p & p' & _ & _ & _ & _ & _ & Hothers & _
        & Hstats & _).
  split; [| exact Hstats].
  apply (Hothers 1%nat). cbn. lia.
Defined.
End GameProps.

Section MainProps.
Import CInt CString Utils Questions Timer Game Main Spec Invariants Shapes.

Lemma get_num_players_range input :
  get_num_players input = 0 \/ 1 <= get_num_players input <= 4.
Proof.
  unfold get_num_players. destruct input as [raw |]; [| now left].
  destruct (is_valid_integer _) as [c |]; [| now left].
  destruct (Z.geb_spec c 1); destruct (Z.leb_spec c 4); cbn; lia.
Qed.

(** *** Names *)

Lemma strncpy_nonempty n s :
  (0 < n)%nat -> s <> EmptyString -> strncpy n s <> EmptyString.
Proof. destruct n; [lia |]. destruct s; [congruence | discriminate]. Qed.

Lemma name_for_spec i input :
  name_for i input <> EmptyString
  /\ (String.length (name_for i input) <= 63)%nat.
Proof.
  unfold name_for, default_name.
  assert (Hd : strncpy 63 ("Player " ++ print_int (add i 1)) <> EmptyString
               /\ (String.length (strncpy 63 ("Player "
                                                ++ print_int (add i 1)))
                   <= 63)%nat).
  { split; [discriminate | apply strncpy_length]. }
  destruct input as [raw |]; [| exact Hd].
  cbv zeta. destruct (Nat.ltb_spec 0 (String.length (sanitize_input raw)));
    [| exact Hd].
  split; [| apply strncpy_length].
  apply strncpy_nonempty; [lia |]. intros E. rewrite E in *. cbn in *. lia.
Qed.

Lemma name_players_spec inputs fuel :
  forall i ps,
    0 <= i -> (Z.to_nat i + fuel <= length ps)%nat ->
    length (name_players fuel i ps inputs) = length ps
    /\ forall j p,
         ps !! j = Some p ->
         name_players fuel i ps inputs !! j
         = Some (if (Z.to_nat i <=? j)%nat && (j <? Z.to_nat i + fuel)%nat
                 then set_name (name_for (Z.of_nat j) (inputs j)) p
                 else p).
Proof.
  induction fuel as [| fuel IH]; intros i ps Hi Hlen; cbn [name_players].
  - split; [reflexivity |]. intros j p Hj. rewrite Hj.
    destruct (Nat.leb_spec (Z.to_nat i) j);
      destruct (Nat.ltb_spec j (Z.to_nat i + 0)); cbn; try reflexivity; lia.
  - set (ps1 := alter _ (Z.to_nat i) ps).
    assert (Hl1 : length ps1 = length ps) by apply length_alter.
    destruct (IH (i + 1) ps1 ltac:(lia) ltac:(lia)) as (Hl & Hall).
    split; [lia |]. intros j p Hj.
    destruct (Nat.eq_dec j (Z.to_nat i)) as [-> | Hne].
    + rewrite (Hall (Z.to_nat i)
                 (set_name (name_for i (inputs (Z.to_nat i))) p)).
      * replace (Z.to_nat (i + 1) <=? Z.to_nat i)%nat with false
          by (symmetry; apply Nat.leb_gt; lia).
        replace (Z.to_nat i <=? Z.to_nat i)%nat with true
          by (symmetry; apply Nat.leb_le; lia).
        replace (Z.to_nat i <? Z.to_nat i + S fuel)%nat with true
          by (symmetry; apply Nat.ltb_lt; lia).
        cbn [andb]. now rewrite Z2Nat.id by lia.
      * unfold ps1. rewrite list_lookup_alter_eq, Hj. reflexivity.
    + rewrite (Hall j p)
        by (unfold ps1; rewrite list_lookup_alter_ne by congruence; exact Hj).
      f_equal.
      destruct (Nat.leb_spec (Z.to_nat (i + 1)) j);
        destruct (Nat.ltb_spec j (Z.to_nat (i + 1) + fuel));
        destruct (Nat.leb_spec (Z.to_nat i) j);
        destruct (Nat.ltb_spec j (Z.to_nat i + S fuel));
        cbn; try reflexivity; lia.
Qed.

Lemma get_player_names_ok st inputs :
  state_ok st ->
  state_ok (get_player_names st inputs)
  /\ config (get_player_names st inputs) = config st
  /\ question_bank (get_player_names st inputs) = question_bank st.
Proof.
  intros (Ht & Hlen). unfold get_player_names.
  destruct (Z.leb_spec (num_players (config st)) 1) as [HN | HN].
  - split; [split; assumption | split; reflexivity].
  - split; [| split; reflexivity]. split; [exact Ht |].
    cbn [config set_players players]. intros _.
    specialize (Hlen ltac:(lia)).
    destruct (name_players_spec inputs (Z.to_nat (num_players (config st)))
                0 (players st) ltac:(lia) ltac:(lia)) as (Hl & _).
    lia.
Qed.

(** X27: every game that [main] configures from the menu has 5 questions,
    30 seconds per question, the timer on, 1 to 4 players as entered, and
    the difficulty of menu choices 1 to 3 or any difficulty for choice 4.
    [game_init] accepts it with any question bank; [game_run], after the
    players were named, returns when the Enter key arrives at the welcome
    screen and after every round, and never returns when none arrives at
    the welcome screen. *)
Theorem menu_turn_configured :
  forall (choice_input players_input : option string) (cfg : GameConfig),
    menu_turn choice_input players_input = Configured cfg ->
    questions_per_game cfg = 5 /\ time_per_question cfg = 30
    /\ use_timer cfg = true
    /\ 1 <= num_players cfg <= 4
    /\ num_players cfg = get_num_players players_input
    /\ (1 <= display_menu choice_input <= 3 ->
        difficulty cfg = display_menu choice_input - 1)
    /\ (display_menu choice_input = 4 -> difficulty cfg = -1)
    /\ 1 <= display_menu choice_input <= 4
    /\ forall (mem : GameState) (bank : QuestionBank)
              (names : nat -> option string),
         exists st0,
           game_init mem (Some bank) cfg = Some st0
           /\ forall (start : string) (script : nat -> RoundInput),
                let st := if num_players cfg >? 1
                          then get_player_names st0 names else st0 in
                (wait_for_enter start <> None -> entered cfg script ->
                 exists st' ret out,
                   game_run st start script = Some (st', ret, out))
                /\ (wait_for_enter start = None ->
                    game_run st start script = None).
Proof.
  intros ci pi cfg. unfold menu_turn.
  set (c := display_menu ci). set (n := get_num_players pi).
  destruct (Z.eqb_spec c 5) as [| H5]; [discriminate |].
  destruct (Z.ltb_spec c 1) as [| Hlo]; [discriminate |].
  destruct (Z.gtb_spec c 4) as [| Hhi]; [discriminate |].
  cbn [orb].
  destruct (Z.eqb_spec n 0) as [| Hn]; [discriminate |].
  intros [= <-].
  set (cfg := {| questions_per_game := 5; time_per_question := 30;
                 difficulty := _; use_timer := true; num_players := n |}).
  pose proof (get_num_players_range pi) as Hr. fold n in Hr.
  do 3 (split; [reflexivity |]). split; [cbn [cfg num_players]; lia |].
  split; [reflexivity |].
  split.
  { intros Hc. cbn [cfg difficulty].
    unfold DIFFICULTY_EASY, DIFFICULTY_MEDIUM, DIFFICULTY_HARD.
    destruct (Z.eqb_spec c 1); [lia |]. destruct (Z.eqb_spec c 2); [lia |].
    destruct (Z.eqb_spec c 3); lia. }
  split.
  { intros Hc. cbn [cfg difficulty]. destruct (Z.eqb_spec c 1); [lia |].
    destruct (Z.eqb_spec c 2); [lia |]. destruct (Z.eqb_spec c 3); lia. }
  split; [lia |].
  intros mem bank names.
  destruct (game_init mem (Some bank) cfg) as [st0 |] eqn:Einit.
  2:{ exfalso. revert Einit. unfold game_init.
      destruct (if num_players cfg >? 1 then _ else _) as [s |] eqn:Ep.
      - cbn. discriminate.
      - destruct (Z.gtb_spec (num_players cfg) 1) as [HN | HN];
          [| discriminate Ep].
        unfold game_init_players in Ep. cbn [config] in Ep.
        replace (num_players cfg <? 2) with false in Ep
          by (symmetry; apply Z.ltb_ge; lia).
        discriminate Ep. }
  assert (Htime : in_int (time_per_question cfg))
    by (unfold in_int, INT_MIN, INT_MAX; cbn; lia).
  destruct (init_state_ok _ _ _ _ Einit Htime)
    as (Hok0 & Hcfg0 & Hbank0 & _).
  exists st0. split; [reflexivity |]. intros start script.
  set (st := if num_players cfg >? 1
             then get_player_names st0 names else st0).
  assert (Hst : state_ok st /\ question_bank st = Some bank
                /\ config st = cfg).
  { unfold st. destruct (num_players cfg >? 1); [| now split].
    destruct (get_player_names_ok st0 names Hok0) as (H1 & H2 & H3).
    split; [exact H1 | split; congruence]. }
  destruct Hst as (Hok & Hbank & Hcfg). clearbody st. cbv zeta.
  unfold game_run. rewrite Hbank. split.
  - intros Hstart Hent.
    destruct (wait_for_enter start) as [rest |]; [| now destruct Hstart].
    cbn [mbind option_bind].
    destruct (game_loop_spec bank script
                (Z.to_nat (total_rounds (config (set_game_active st true))))
                0 (set_game_active st true) (active_ok _ true Hok)
                ltac:(lia) ltac:(cbn [config set_game_active];
                                 rewrite Hcfg; exact Hent))
      as (st1 & k & out1 & Heq & Hok1 & _).
    rewrite Heq. cbn [mbind option_bind].
    destruct (display_stats_total (set_game_active st1 false)
                (active_ok _ false Hok1)) as (report & Hrep).
    rewrite Hrep. cbn. eauto.
  - intros ->. reflexivity.
Qed.

Lemma menu_turn_configured_witness :
  exists cfg,
    menu_turn (Some " 2 "%string) (Some "3"%string) = Configured cfg
    /\ difficulty cfg = DIFFICULTY_MEDIUM /\ num_players cfg = 3.
Proof.
  eexists. split; [reflexivity |].
  destruct (menu_turn_configured (Some " 2 "%string) (Some "3"%string) _
              eq_refl) as (_ & _ & _ & _ & Hn & Hd & _).
  split; [exact (Hd ltac:(vm_compute; split; discriminate)) | exact Hn].
Defined.

(** X28: [get_player_names], with several players, gives every player a
    name and touches nothing else of the records.  The name is the line
    read for the player, sanitised and cut to 63 characters, when that is
    not empty; when it is empty, or no line could be read, it is what
    [snprintf] makes of [Player] and the number of the player, counted
    from 1.  The name is never empty and has at most 63 characters, so
    that the report shows it as it is. *)
Theorem player_names_never_empty :
  forall (st : GameState) (inputs : nat -> option string),
    num_players (config st) > 1 ->
    length (players st) = Z.to_nat (num_players (config st)) ->
    length (players (get_player_names st inputs)) = length (players st)
    /\ forall j p,
         players st !! j = Some p ->
         exists p',
           players (get_player_names st inputs) !! j = Some p'
           /\ (forall raw,
                 inputs j = Some raw ->
                 sanitize_input raw <> EmptyString ->
                 Player.name p' = strncpy 63 (sanitize_input raw))
           /\ (inputs j = None
               \/ (exists raw, inputs j = Some raw
                               /\ sanitize_input raw = EmptyString) ->
               Player.name p'
               = strncpy 63 ("Player "
                             ++ print_int (add (Z.of_nat j) 1))%string)
           /\ Player.name p' <> EmptyString
           /\ (String.length (Player.name p') <= 63)%nat
           /\ display_name (Z.of_nat j) p' = Player.name p'
           /\ Player.score p' = Player.score p
           /\ Player.correct_answers p' = Player.correct_answers p
           /\ Player.wrong_answers p' = Player.wrong_answers p
           /\ Player.timeouts p' = Player.timeouts p.
Proof.
  intros st inputs HN Hlen. unfold get_player_names.
  replace (num_players (config st) <=? 1) with false
    by (symmetry; apply Z.leb_gt; lia).
  cbn [players set_players].
  destruct (name_players_spec inputs (Z.to_nat (num_players (config st)))
              0 (players st) ltac:(lia) ltac:(lia)) as (Hl & Hall).
  split; [exact Hl |]. intros j p Hj.
  rewrite (Hall j p Hj).
  pose proof (lookup_lt_Some _ _ _ Hj) as Hlt.
  replace (Z.to_nat 0 <=? j)%nat with true
    by (symmetry; apply Nat.leb_le; lia).
  replace (j <? Z.to_nat 0 + Z.to_nat (num_players (config st)))%nat
    with true by (symmetry; apply Nat.ltb_lt; lia).
  cbn [andb]. eexists. split; [reflexivity |].
  destruct (name_for_spec (Z.of_nat j) (inputs j)) as (Hne & Hle).
  cbn [set_name Player.name Player.score Player.correct_answers
       Player.wrong_answers Player.timeouts].
  split.
  { intros raw Hraw Hs. unfold name_for. rewrite Hraw. cbv zeta.
    destruct (sanitize_input raw); [now destruct Hs | reflexivity]. }
  split.
  { intros [Hnone | (raw & Hraw & Hs)]; unfold name_for, default_name.
    - rewrite Hnone. reflexivity.
    - rewrite Hraw. cbv zeta. rewrite Hs. reflexivity. }
  split; [exact Hne |]. split; [exact Hle |].
  split; [| repeat split].
  unfold display_name. cbn [Player.name].
  destruct (name_for (Z.of_nat j) (inputs j)); [now destruct Hne | reflexivity].
Qed.

Lemma player_names_never_empty_witness :
  exists p0 p1,
    players (get_player_names (Samples.start_state 2 true)
               (fun i => if (i =? 0)%nat then Some "  Ada "%string else None))
    = [p0; p1]
    /\ Player.name p0 = "Ada"%string
    /\ Player.name p1 = "Player 2"%string.
Proof.
  destruct (player_names_never_empty (Samples.start_state 2 true)
              (fun i => if (i =? 0)%nat then Some "  Ada "%string else None)
              ltac:(cbn; lia) eq_refl) as (Hlen & Hall).
  destruct (Hall 0%nat blank_player eq_refl) as (p0 & Hp0 & Hgiven & _).
  destruct (Hall 1%nat blank_player eq_refl) as (p1 & Hp1 & _ & Hdefault & _).
  exists p0, p1. split; [| split].
  - destruct (players (get_player_names _ _)) as [| a [| b [| c l]]];
      try discriminate Hlen.
    cbn in Hp0, Hp1. congruence.
  - exact (Hgiven "  Ada "%string eq_refl ltac:(discriminate)).
  - exact (Hdefault (or_introl eq_refl)).
Defined.
End MainProps.
